(** * lmsilo-transcribe: the job orchestration core, embedded and verified

    A shallow embedding of the Python backend (FastAPI handlers, the
    background pipeline runner and the audio workers) together with the
    properties its specification states about it.

    Conventions of the embedding.
    - A Python [float] is the rational it denotes ([Q]).  Where a result
      depends on how floats round (the speaker assignment, the subtitle
      timestamps and the sample indices of the timing sync) every operation
      rounds to the nearest double ([Py.round64]) as IEEE 754 prescribes,
      and an argument that is not a double stands for the double nearest
      to it, as a literal or a parsed number does.  Progress percentages
      and durations that are only stored or compared are not rounded.
      [int(x)] truncates toward zero.
    - A Python [str] is a [string]; a character stands for a code point
      below 256.
    - An insertion-ordered [dict] whose iteration order is observed is an
      association list; a [dict] used only for look-ups is a [gmap].
    - I/O, the database session and the inference engines are explicit:
      what they return or raise is part of the input of the function that
      calls them, and what the function writes or publishes is part of its
      result. *)

From Stdlib Require Import ZArith QArith Qround Qabs Qpower Lia Lqa.
From Stdlib Require Import List Bool Ascii String.
From Stdlib Require Import DecimalString DecimalNat DecimalZ.
From stdpp Require Import base option list gmap strings.

Open Scope Q_scope.

(** Powers of two are kept as they are written. *)
Arguments Qpower _ _ : simpl never.

(** ** Python arithmetic *)

Module Py.

(** [a < b] on floats. *)
Definition ltb (a b : Q) : bool := negb (Qle_bool b a).

(** [max(a, b)]: the first argument unless the second is strictly larger. *)
Definition max (a b : Q) : Q := if ltb a b then b else a.

(** [min(a, b)]: the first argument unless the second is strictly smaller. *)
Definition min (a b : Q) : Q := if ltb b a then b else a.

(** [int(x)]: truncation toward zero. *)
Definition int (x : Q) : Z :=
  if Qle_bool 0 x then Qfloor x else Qceiling x.

(** *** Doubles

    The finite values of IEEE 754 binary64 and the rounding of its
    operations, to the nearest value with a half going to the even
    mantissa. *)

(** [floor(log2(x))] for a positive rational. *)
Definition ilog2 (x : Q) : Z :=
  if Qle_bool 1 x then Z.log2 (Qfloor x)
  else (- Z.log2_up (Qceiling (/ x)))%Z.

(** The nearest integer, a half going to the even neighbour. *)
Definition rne (x : Q) : Z :=
  let f := Qfloor x in
  let r := x - inject_Z f in
  if ltb r (1 # 2) then f
  else if ltb (1 # 2) r then (f + 1)%Z
  else if Z.even f then f else (f + 1)%Z.

(** The exponent of the last place of the doubles around [x]: 52 binary
    places below the leading one, and never below [2^-1074], the spacing
    of the subnormal numbers. *)
Definition ulp_exp (x : Q) : Z := Z.max (ilog2 (Qabs x) - 52) (-1074).

(** The double nearest to [x].  The result is finite: a magnitude of
    [2^1024] or more is what the hardware turns into an infinity (see
    [to_double]). *)
Definition round64 (x : Q) : Q :=
  if Qeq_bool x 0 then 0
  else let c := ulp_exp x in Qred (inject_Z (rne (x / 2 ^ c)) * 2 ^ c).

(** [a + b], [a - b], [a * b] and [a / b] on floats. *)
Definition fadd (a b : Q) : Q := round64 (a + b).
Definition fsub (a b : Q) : Q := round64 (a - b).
Definition fmul (a b : Q) : Q := round64 (a * b).
Definition fdiv (a b : Q) : Q := round64 (a / b).

(** C's [fmod(x, y)]: [x] minus [y] times the quotient truncated toward
    zero.  The result is a double and is computed without rounding. *)
Definition fmod (x y : Q) : Q := x - y * inject_Z (int (x / y)).

(** [x % y] on floats, for a divisor that is not zero ([float_rem] of
    CPython): the remainder of [fmod], moved by [y] when its sign is not
    that of [y]. *)
Definition mod_ (x y : Q) : Q :=
  let m := fmod x y in
  if Qeq_bool m 0 then 0
  else if xorb (ltb y 0) (ltb m 0) then fadd m y else m.

(** [x // y] on floats, for a divisor that is not zero ([float_floor_div]
    of CPython): the quotient of [x - fmod(x, y)] by [y], snapped to the nearest
    integral value. *)
Definition floordiv (x y : Q) : Q :=
  let m := fmod x y in
  let div := fdiv (fsub x m) y in
  let div := if negb (Qeq_bool m 0) && xorb (ltb y 0) (ltb m 0)
             then fsub div 1 else div in
  if Qeq_bool div 0 then 0
  else
    let floordiv := inject_Z (Qfloor div) in
    if ltb (1 # 2) (fsub div floordiv) then fadd floordiv 1 else floordiv.

(** A float with the values that are not finite. *)
Inductive double := Fin (x : Q) | PInf | NInf | NaN.

(** The double a rational stands for: rounding overflows to an infinity
    from [2^1024] on. *)
Definition to_double (x : Q) : double :=
  let r := round64 x in
  if Qle_bool (2 ^ 1024) r then PInf
  else if Qle_bool r (- 2 ^ 1024) then NInf
  else Fin r.

(** [a < b] and [a <= b]: false when an operand is not a number. *)
Definition dlt (a b : double) : bool :=
  match a, b with
  | Fin x, Fin y => ltb x y
  | Fin _, PInf | NInf, Fin _ | NInf, PInf => true
  | _, _ => false
  end.

Definition dle (a b : double) : bool :=
  match a, b with
  | Fin x, Fin y => Qle_bool x y
  | NaN, _ | _, NaN => false
  | NInf, _ | _, PInf => true
  | _, _ => false
  end.

(** [max(a, b)] and [min(a, b)]: the first argument unless the second is
    strictly larger (smaller). *)
Definition dmax (a b : double) : double := if dlt a b then b else a.
Definition dmin (a b : double) : double := if dlt b a then b else a.

(** [a + b] and [a - b]. *)
Definition dadd (a b : double) : double :=
  match a, b with
  | Fin x, Fin y => to_double (x + y)
  | NaN, _ | _, NaN => NaN
  | PInf, NInf | NInf, PInf => NaN
  | PInf, _ | _, PInf => PInf
  | _, _ => NInf
  end.

Definition dsub (a b : double) : double :=
  match a, b with
  | Fin x, Fin y => to_double (x - y)
  | NaN, _ | _, NaN => NaN
  | PInf, PInf | NInf, NInf => NaN
  | PInf, _ | _, NInf => PInf
  | _, _ => NInf
  end.

(** [str(n)] for an int. *)
Definition str_int (z : Z) : string := NilZero.string_of_int (Z.to_int z).

(** [c.isspace()] for a code point below 256. *)
Definition is_space (c : ascii) : bool :=
  let n := nat_of_ascii c in
  ((9 <=? n) && (n <=? 13) || (28 <=? n) && (n <=? 32)
   || (n =? 133) || (n =? 160))%nat.

(** [s.lstrip()], [s.strip()] *)
Fixpoint lstrip (s : string) : string :=
  match s with
  | EmptyString => EmptyString
  | String c r => if is_space c then lstrip r else s
  end.

Definition strip (s : string) : string :=
  String.rev (lstrip (String.rev (lstrip s))).

(** [s.split()]: the maximal runs of characters that are not whitespace.
    [cur] is the run being read. *)
Fixpoint split_from (cur : string) (s : string) : list string :=
  match s with
  | EmptyString => match cur with EmptyString => [] | _ => [cur] end
  | String c r =>
      if is_space c then
        match cur with
        | EmptyString => split_from EmptyString r
        | _ => cur :: split_from EmptyString r
        end
      else split_from (cur +:+ String c EmptyString) r
  end.

Definition split (s : string) : list string := split_from EmptyString s.

(** [sep.join(parts)]: the parts are appended one after the other, the
    separator before each part but the first. *)
Definition join (sep : string) (parts : list string) : string :=
  match parts with
  | [] => EmptyString
  | first :: rest => fold_left (fun acc p => acc +:+ sep +:+ p) rest first
  end.

(** [s[:n]] *)
Definition take (n : nat) (s : string) : string := String.substring 0 n s.

(** Truthiness of an optional string: [None] and [""] are false. *)
Definition truthy (s : option string) : bool :=
  match s with
  | Some (String _ _) => true
  | _ => false
  end.

(** What a call gives back: a value, or an exception with its message
    ([str(e)]). *)
Inductive outcome (A : Type) : Type :=
  | Ret (a : A)
  | Raise (e : string).
Arguments Ret {A} a.
Arguments Raise {A} e.

Lemma ltb_lt (a b : Q) : ltb a b = true <-> a < b.
Proof.
  unfold ltb. rewrite negb_true_iff. split; intros H.
  - destruct (Qlt_le_dec a b) as [|Hle]; [done|].
    apply Qle_bool_iff in Hle. congruence.
  - destruct (Qle_bool b a) eqn:E; [|done].
    apply Qle_bool_iff in E. lra.
Qed.

Lemma ltb_ge (a b : Q) : ltb a b = false <-> b <= a.
Proof.
  unfold ltb. rewrite negb_false_iff. apply Qle_bool_iff.
Qed.

Lemma max_spec (a b : Q) :
  (a < b /\ max a b = b) \/ (b <= a /\ max a b = a).
Proof.
  unfold max. destruct (ltb a b) eqn:E.
  - left. split; [by apply ltb_lt|done].
  - right. split; [by apply ltb_ge|done].
Qed.

Lemma min_spec (a b : Q) :
  (b < a /\ min a b = b) \/ (a <= b /\ min a b = a).
Proof.
  unfold min. destruct (ltb b a) eqn:E.
  - left. split; [by apply ltb_lt|done].
  - right. split; [by apply ltb_ge|done].
Qed.

Lemma int_nonneg (x : Q) : 0 <= x -> int x = Qfloor x.
Proof.
  intros H. unfold int. apply Qle_bool_iff in H. by rewrite H.
Qed.

Lemma Qfloor_nonneg (x : Q) : 0 <= x -> (0 <= Qfloor x)%Z.
Proof. intros H. apply (Qfloor_resp_le 0 x H). Qed.

Lemma Qfloor_lt (x : Q) (n : Z) : x < inject_Z n -> (Qfloor x < n)%Z.
Proof.
  intros H. rewrite Zlt_Qlt. pose proof (Qfloor_le x). lra.
Qed.

Lemma Qfloor_bounds (x : Q) :
  inject_Z (Qfloor x) <= x /\ x < inject_Z (Qfloor x) + 1.
Proof.
  split; [apply Qfloor_le|].
  pose proof (Qlt_floor x) as H. rewrite inject_Z_plus in H. exact H.
Qed.

Lemma int_inject_Z (z : Z) : int (inject_Z z) = z.
Proof.
  unfold int. destruct (Qle_bool 0 (inject_Z z));
    [apply Qfloor_Z|apply Qceiling_Z].
Qed.

End Py.

(** ** schemas/job.py *)

Module Schemas.

Inductive JobStatus :=
  | PENDING | QUEUED | PROCESSING | TRANSCRIBING | DIARIZING
  | SYNTHESIZING | SYNCING | COMPLETED | FAILED | CANCELLED.

#[export] Instance JobStatus_eq_dec : EqDecision JobStatus.
Proof. solve_decision. Defined.

(** The terminal statuses of the specification's glossary. *)
Definition terminal (s : JobStatus) : bool :=
  match s with
  | COMPLETED | FAILED | CANCELLED => true
  | _ => false
  end.

(** [status in [JobStatus.PENDING, JobStatus.QUEUED]] *)
Definition reorderable (s : JobStatus) : bool :=
  match s with
  | PENDING | QUEUED => true
  | _ => false
  end.

End Schemas.

(** ** models/database.py

    The columns the modelled functions read or write.  A timestamp is a
    reading of the clock; [None] is SQL [NULL]. *)

Module Database.
Export Schemas.

(** [JobBatch]: a cohort of jobs uploaded together. *)
Record JobBatch := {
  b_id : string;
  b_name : string;
  total_files : Z;
  completed_files : Z;
  failed_files : Z;
  b_status : JobStatus;
  b_progress : Q;
  b_completed_at : option nat
}.

(** [Job] *)
Record Job := {
  job_id : string;
  batch_id : option string;
  original_path : string;
  language : string;
  detected_language : option string;
  translate_to : option string;
  model_id : option string;
  diarization_model_id : option string;
  tts_model_id : option string;
  enable_diarization : bool;
  enable_tts : bool;
  sync_tts_timing : bool;
  output_formats : list string;
  priority : Z;
  queue_position : option Z;
  status : JobStatus;
  progress : Q;
  error_message : option string;
  transcript_path : option string;
  tts_audio_path : option string;
  duration : option Q;
  started_at : option nat;
  completed_at : option nat
}.

(** [Model]; [download_error] is the ["download_error"] entry of the JSON
    column [info]. *)
Record Model := {
  m_id : string;
  m_name : string;
  model_type : string;
  engine : string;
  m_source : string;
  m_model_id : string;
  revision : option string;
  download_error : option string;
  compute_type : option string;
  device : option string;
  is_default : bool;
  is_downloaded : bool;
  local_path : option string;
  download_progress : option Q
}.

(** [TranscriptSegment] *)
Record TranscriptSegment := {
  segment_index : nat;
  start_time : Q;
  end_time : Q;
  text : string;
  speaker : option string
}.

(** [Transcript] with its [segments] relationship, ordered by index. *)
Record Transcript := {
  t_job_id : string;
  t_language : option string;
  t_duration : Q;
  word_count : nat;
  speaker_count : option nat;
  full_text : string;
  segments : list TranscriptSegment
}.

(** [TTSOutput] *)
Record TTSOutput := {
  o_job_id : string;
  audio_path : string;
  o_duration : Q;
  sample_rate : Z;
  format : string;
  is_timing_synced : bool;
  original_duration : option Q
}.

(** Attribute assignment, [x.field = v]. *)

Definition set_priority (v : Z) (x : Job) : Job :=
  {| job_id := job_id x; batch_id := batch_id x;
     original_path := original_path x; language := language x;
     detected_language := detected_language x;
     translate_to := translate_to x; model_id := model_id x;
     diarization_model_id := diarization_model_id x;
     tts_model_id := tts_model_id x;
     enable_diarization := enable_diarization x; enable_tts := enable_tts x;
     sync_tts_timing := sync_tts_timing x;
     output_formats := output_formats x; priority := v;
     queue_position := queue_position x; status := status x;
     progress := progress x; error_message := error_message x;
     transcript_path := transcript_path x;
     tts_audio_path := tts_audio_path x; duration := duration x;
     started_at := started_at x; completed_at := completed_at x |}.

Definition set_queue_position (v : option Z) (x : Job) : Job :=
  {| job_id := job_id x; batch_id := batch_id x;
     original_path := original_path x; language := language x;
     detected_language := detected_language x;
     translate_to := translate_to x; model_id := model_id x;
     diarization_model_id := diarization_model_id x;
     tts_model_id := tts_model_id x;
     enable_diarization := enable_diarization x; enable_tts := enable_tts x;
     sync_tts_timing := sync_tts_timing x;
     output_formats := output_formats x; priority := priority x;
     queue_position := v; status := status x; progress := progress x;
     error_message := error_message x; transcript_path := transcript_path x;
     tts_audio_path := tts_audio_path x; duration := duration x;
     started_at := started_at x; completed_at := completed_at x |}.

Definition set_status (v : JobStatus) (x : Job) : Job :=
  {| job_id := job_id x; batch_id := batch_id x;
     original_path := original_path x; language := language x;
     detected_language := detected_language x;
     translate_to := translate_to x; model_id := model_id x;
     diarization_model_id := diarization_model_id x;
     tts_model_id := tts_model_id x;
     enable_diarization := enable_diarization x; enable_tts := enable_tts x;
     sync_tts_timing := sync_tts_timing x;
     output_formats := output_formats x; priority := priority x;
     queue_position := queue_position x; status := v;
     progress := progress x; error_message := error_message x;
     transcript_path := transcript_path x;
     tts_audio_path := tts_audio_path x; duration := duration x;
     started_at := started_at x; completed_at := completed_at x |}.

Definition set_progress (v : Q) (x : Job) : Job :=
  {| job_id := job_id x; batch_id := batch_id x;
     original_path := original_path x; language := language x;
     detected_language := detected_language x;
     translate_to := translate_to x; model_id := model_id x;
     diarization_model_id := diarization_model_id x;
     tts_model_id := tts_model_id x;
     enable_diarization := enable_diarization x; enable_tts := enable_tts x;
     sync_tts_timing := sync_tts_timing x;
     output_formats := output_formats x; priority := priority x;
     queue_position := queue_position x; status := status x; progress := v;
     error_message := error_message x; transcript_path := transcript_path x;
     tts_audio_path := tts_audio_path x; duration := duration x;
     started_at := started_at x; completed_at := completed_at x |}.

Definition set_error_message (v : option string) (x : Job) : Job :=
  {| job_id := job_id x; batch_id := batch_id x;
     original_path := original_path x; language := language x;
     detected_language := detected_language x;
     translate_to := translate_to x; model_id := model_id x;
     diarization_model_id := diarization_model_id x;
     tts_model_id := tts_model_id x;
     enable_diarization := enable_diarization x; enable_tts := enable_tts x;
     sync_tts_timing := sync_tts_timing x;
     output_formats := output_formats x; priority := priority x;
     queue_position := queue_position x; status := status x;
     progress := progress x; error_message := v;
     transcript_path := transcript_path x;
     tts_audio_path := tts_audio_path x; duration := duration x;
     started_at := started_at x; completed_at := completed_at x |}.

Definition set_detected_language (v : option string) (x : Job) : Job :=
  {| job_id := job_id x; batch_id := batch_id x;
     original_path := original_path x; language := language x;
     detected_language := v; translate_to := translate_to x;
     model_id := model_id x; diarization_model_id := diarization_model_id x;
     tts_model_id := tts_model_id x;
     enable_diarization := enable_diarization x; enable_tts := enable_tts x;
     sync_tts_timing := sync_tts_timing x;
     output_formats := output_formats x; priority := priority x;
     queue_position := queue_position x; status := status x;
     progress := progress x; error_message := error_message x;
     transcript_path := transcript_path x;
     tts_audio_path := tts_audio_path x; duration := duration x;
     started_at := started_at x; completed_at := completed_at x |}.

Definition set_duration (v : option Q) (x : Job) : Job :=
  {| job_id := job_id x; batch_id := batch_id x;
     original_path := original_path x; language := language x;
     detected_language := detected_language x;
     translate_to := translate_to x; model_id := model_id x;
     diarization_model_id := diarization_model_id x;
     tts_model_id := tts_model_id x;
     enable_diarization := enable_diarization x; enable_tts := enable_tts x;
     sync_tts_timing := sync_tts_timing x;
     output_formats := output_formats x; priority := priority x;
     queue_position := queue_position x; status := status x;
     progress := progress x; error_message := error_message x;
     transcript_path := transcript_path x;
     tts_audio_path := tts_audio_path x; duration := v;
     started_at := started_at x; completed_at := completed_at x |}.

Definition set_transcript_path (v : option string) (x : Job) : Job :=
  {| job_id := job_id x; batch_id := batch_id x;
     original_path := original_path x; language := language x;
     detected_language := detected_language x;
     translate_to := translate_to x; model_id := model_id x;
     diarization_model_id := diarization_model_id x;
     tts_model_id := tts_model_id x;
     enable_diarization := enable_diarization x; enable_tts := enable_tts x;
     sync_tts_timing := sync_tts_timing x;
     output_formats := output_formats x; priority := priority x;
     queue_position := queue_position x; status := status x;
     progress := progress x; error_message := error_message x;
     transcript_path := v; tts_audio_path := tts_audio_path x;
     duration := duration x; started_at := started_at x;
     completed_at := completed_at x |}.

Definition set_tts_audio_path (v : option string) (x : Job) : Job :=
  {| job_id := job_id x; batch_id := batch_id x;
     original_path := original_path x; language := language x;
     detected_language := detected_language x;
     translate_to := translate_to x; model_id := model_id x;
     diarization_model_id := diarization_model_id x;
     tts_model_id := tts_model_id x;
     enable_diarization := enable_diarization x; enable_tts := enable_tts x;
     sync_tts_timing := sync_tts_timing x;
     output_formats := output_formats x; priority := priority x;
     queue_position := queue_position x; status := status x;
     progress := progress x; error_message := error_message x;
     transcript_path := transcript_path x; tts_audio_path := v;
     duration := duration x; started_at := started_at x;
     completed_at := completed_at x |}.

Definition set_started_at (v : option nat) (x : Job) : Job :=
  {| job_id := job_id x; batch_id := batch_id x;
     original_path := original_path x; language := language x;
     detected_language := detected_language x;
     translate_to := translate_to x; model_id := model_id x;
     diarization_model_id := diarization_model_id x;
     tts_model_id := tts_model_id x;
     enable_diarization := enable_diarization x; enable_tts := enable_tts x;
     sync_tts_timing := sync_tts_timing x;
     output_formats := output_formats x; priority := priority x;
     queue_position := queue_position x; status := status x;
     progress := progress x; error_message := error_message x;
     transcript_path := transcript_path x;
     tts_audio_path := tts_audio_path x; duration := duration x;
     started_at := v; completed_at := completed_at x |}.

Definition set_completed_at (v : option nat) (x : Job) : Job :=
  {| job_id := job_id x; batch_id := batch_id x;
     original_path := original_path x; language := language x;
     detected_language := detected_language x;
     translate_to := translate_to x; model_id := model_id x;
     diarization_model_id := diarization_model_id x;
     tts_model_id := tts_model_id x;
     enable_diarization := enable_diarization x; enable_tts := enable_tts x;
     sync_tts_timing := sync_tts_timing x;
     output_formats := output_formats x; priority := priority x;
     queue_position := queue_position x; status := status x;
     progress := progress x; error_message := error_message x;
     transcript_path := transcript_path x;
     tts_audio_path := tts_audio_path x; duration := duration x;
     started_at := started_at x; completed_at := v |}.

Definition set_completed_files (v : Z) (x : JobBatch) : JobBatch :=
  {| b_id := b_id x; b_name := b_name x; total_files := total_files x;
     completed_files := v; failed_files := failed_files x;
     b_status := b_status x; b_progress := b_progress x;
     b_completed_at := b_completed_at x |}.

Definition set_failed_files (v : Z) (x : JobBatch) : JobBatch :=
  {| b_id := b_id x; b_name := b_name x; total_files := total_files x;
     completed_files := completed_files x; failed_files := v;
     b_status := b_status x; b_progress := b_progress x;
     b_completed_at := b_completed_at x |}.

Definition set_b_status (v : JobStatus) (x : JobBatch) : JobBatch :=
  {| b_id := b_id x; b_name := b_name x; total_files := total_files x;
     completed_files := completed_files x; failed_files := failed_files x;
     b_status := v; b_progress := b_progress x;
     b_completed_at := b_completed_at x |}.

Definition set_b_progress (v : Q) (x : JobBatch) : JobBatch :=
  {| b_id := b_id x; b_name := b_name x; total_files := total_files x;
     completed_files := completed_files x; failed_files := failed_files x;
     b_status := b_status x; b_progress := v;
     b_completed_at := b_completed_at x |}.

Definition set_b_completed_at (v : option nat) (x : JobBatch) : JobBatch :=
  {| b_id := b_id x; b_name := b_name x; total_files := total_files x;
     completed_files := completed_files x; failed_files := failed_files x;
     b_status := b_status x; b_progress := b_progress x;
     b_completed_at := v |}.

Definition set_download_error (v : option string) (x : Model) : Model :=
  {| m_id := m_id x; m_name := m_name x; model_type := model_type x;
     engine := engine x; m_source := m_source x; m_model_id := m_model_id x;
     revision := revision x; download_error := v;
     compute_type := compute_type x; device := device x;
     is_default := is_default x; is_downloaded := is_downloaded x;
     local_path := local_path x; download_progress := download_progress x |}.

Definition set_is_default (v : bool) (x : Model) : Model :=
  {| m_id := m_id x; m_name := m_name x; model_type := model_type x;
     engine := engine x; m_source := m_source x; m_model_id := m_model_id x;
     revision := revision x; download_error := download_error x;
     compute_type := compute_type x; device := device x; is_default := v;
     is_downloaded := is_downloaded x; local_path := local_path x;
     download_progress := download_progress x |}.

Definition set_is_downloaded (v : bool) (x : Model) : Model :=
  {| m_id := m_id x; m_name := m_name x; model_type := model_type x;
     engine := engine x; m_source := m_source x; m_model_id := m_model_id x;
     revision := revision x; download_error := download_error x;
     compute_type := compute_type x; device := device x;
     is_default := is_default x; is_downloaded := v;
     local_path := local_path x; download_progress := download_progress x |}.

Definition set_local_path (v : option string) (x : Model) : Model :=
  {| m_id := m_id x; m_name := m_name x; model_type := model_type x;
     engine := engine x; m_source := m_source x; m_model_id := m_model_id x;
     revision := revision x; download_error := download_error x;
     compute_type := compute_type x; device := device x;
     is_default := is_default x; is_downloaded := is_downloaded x;
     local_path := v; download_progress := download_progress x |}.

Definition set_download_progress (v : option Q) (x : Model) : Model :=
  {| m_id := m_id x; m_name := m_name x; model_type := model_type x;
     engine := engine x; m_source := m_source x; m_model_id := m_model_id x;
     revision := revision x; download_error := download_error x;
     compute_type := compute_type x; device := device x;
     is_default := is_default x; is_downloaded := is_downloaded x;
     local_path := local_path x; download_progress := v |}.

Definition set_speaker (v : option string) (x : TranscriptSegment) : TranscriptSegment :=
  {| segment_index := segment_index x; start_time := start_time x;
     end_time := end_time x; text := text x; speaker := v |}.

Definition set_speaker_count (v : option nat) (x : Transcript) : Transcript :=
  {| t_job_id := t_job_id x; t_language := t_language x;
     t_duration := t_duration x; word_count := word_count x;
     speaker_count := v; full_text := full_text x; segments := segments x |}.

Definition set_segments (v : list TranscriptSegment) (x : Transcript) : Transcript :=
  {| t_job_id := t_job_id x; t_language := t_language x;
     t_duration := t_duration x; word_count := word_count x;
     speaker_count := speaker_count x; full_text := full_text x;
     segments := v |}.

(** The tables.  Jobs, batches and models are keyed by their primary key;
    a transcript and a TTS output are keyed by the job they belong to. *)
Record Db := {
  jobs : gmap string Job;
  batches : gmap string JobBatch;
  models : gmap string Model;
  transcripts : gmap string Transcript;
  tts_outputs : gmap string TTSOutput
}.

Definition set_jobs (v : gmap string Job) (d : Db) : Db :=
  {| jobs := v; batches := batches d; models := models d;
     transcripts := transcripts d; tts_outputs := tts_outputs d |}.

Definition set_batches (v : gmap string JobBatch) (d : Db) : Db :=
  {| jobs := jobs d; batches := v; models := models d;
     transcripts := transcripts d; tts_outputs := tts_outputs d |}.

Definition set_models (v : gmap string Model) (d : Db) : Db :=
  {| jobs := jobs d; batches := batches d; models := v;
     transcripts := transcripts d; tts_outputs := tts_outputs d |}.

Definition set_transcripts (v : gmap string Transcript) (d : Db) : Db :=
  {| jobs := jobs d; batches := batches d; models := models d;
     transcripts := v; tts_outputs := tts_outputs d |}.

Definition set_tts_outputs (v : gmap string TTSOutput) (d : Db) : Db :=
  {| jobs := jobs d; batches := batches d; models := models d;
     transcripts := transcripts d; tts_outputs := v |}.

(** The relationship [JobBatch.jobs]: the jobs whose [batch_id] is the
    batch's id. *)
Definition batch_jobs (d : Db) (bid : string) : list Job :=
  (map_to_list (filter (fun kv => batch_id kv.2 = Some bid) (jobs d))).*2.

End Database.

(** ** workers/diarization_worker.py *)

Module Diarization.

(** One entry of the diarization result: [{"start", "end", "speaker"}]. *)
Record DSeg := { d_start : Q; d_end : Q; d_speaker : string }.

(** [speaker_times]: a dict from speaker label to accumulated overlap.  Its
    iteration order (the order in which keys were first inserted) decides
    what [max] returns, so it is kept as an association list. *)
Definition SpeakerTimes := list (string * Py.double).

(** [speaker_times.get(speaker, default)] *)
Fixpoint dict_get (d : SpeakerTimes) (k : string) (default : Py.double)
  : Py.double :=
  match d with
  | [] => default
  | (k', v) :: r => if String.eqb k k' then v else dict_get r k default
  end.

(** [speaker_times[speaker] = v]: an existing key keeps its place, a new key
    goes to the end. *)
Fixpoint dict_set (d : SpeakerTimes) (k : string) (v : Py.double)
  : SpeakerTimes :=
  match d with
  | [] => [(k, v)]
  | (k', v') :: r =>
      if String.eqb k k' then (k', v) :: r else (k', v') :: dict_set r k v
  end.

(** The overlap computed in the loop body:
    [max(0, min(end, d_seg["end"]) - max(start, d_seg["start"]))], on the
    doubles the four times stand for. *)
Definition overlap (st en : Q) (d : DSeg) : Py.double :=
  let overlap_start := Py.dmax (Py.to_double st) (Py.to_double (d_start d)) in
  let overlap_end := Py.dmin (Py.to_double en) (Py.to_double (d_end d)) in
  Py.dmax (Py.Fin 0) (Py.dsub overlap_end overlap_start).

(** One iteration of [for d_seg in diarization]. *)
Definition accumulate (st en : Q) (speaker_times : SpeakerTimes) (d : DSeg)
  : SpeakerTimes :=
  let ov := overlap st en d in
  if Py.dlt (Py.Fin 0) ov then
    dict_set speaker_times (d_speaker d)
      (Py.dadd (dict_get speaker_times (d_speaker d) (Py.Fin 0)) ov)
  else speaker_times.

(** [max(speaker_times, key=speaker_times.get)] on a non-empty dict: the
    keys are visited in insertion order and the running best is replaced
    only by a strictly larger value. *)
Fixpoint max_by_value (best : string * Py.double) (rest : SpeakerTimes)
  : string :=
  match rest with
  | [] => fst best
  | kv :: r =>
      if Py.dlt (snd best) (snd kv) then max_by_value kv r
      else max_by_value best r
  end.

Definition find_speaker_for_segment (diarization : list DSeg) (st en : Q)
  : option string :=
  match diarization with
  | [] => None
  | _ =>
      let speaker_times := fold_left (accumulate st en) diarization [] in
      match speaker_times with
      | [] => None
      | kv :: r => Some (max_by_value kv r)
      end
  end.

(** *** Specification vocabulary *)

(** The interval overlaps the segment. *)
Definition overlaps (st en : Q) (d : DSeg) : Prop :=
  Py.dlt (Py.Fin 0) (overlap st en d) = true.

(** The accumulated overlap of a speaker: the overlaps of the speaker's
    intervals with [[st, en]], added up as doubles in the order of the
    diarization result. *)
Definition total_overlap (diarization : list DSeg) (st en : Q) (s : string)
  : Py.double :=
  fold_left (fun acc d =>
               if String.eqb s (d_speaker d)
                  && Py.dlt (Py.Fin 0) (overlap st en d)
               then Py.dadd acc (overlap st en d) else acc)
            diarization (Py.Fin 0).

(** The same sum taken without rounding, for times that are finite. *)
Definition exact_overlap (st en : Q) (d : DSeg) : Q :=
  Py.max 0 (Py.min (Py.round64 en) (Py.round64 (d_end d))
            - Py.max (Py.round64 st) (Py.round64 (d_start d))).

Fixpoint exact_total_overlap (diarization : list DSeg) (st en : Q)
    (s : string) : Q :=
  match diarization with
  | [] => 0
  | d :: r =>
      (if String.eqb s (d_speaker d) then exact_overlap st en d else 0)
      + exact_total_overlap r st en s
  end.

(** The speaker's accumulated overlap is positive and no speaker has a
    greater one. *)
Definition dominant (diarization : list DSeg) (st en : Q) (s : string) : Prop :=
  Py.dlt (Py.Fin 0) (total_overlap diarization st en s) = true /\
  forall s', Py.dle (total_overlap diarization st en s')
                    (total_overlap diarization st en s) = true.

(** Tie-break as the specification words it: no speaker with the same
    accumulated overlap has a lexicographically lower label. *)
Definition lowest_label (diarization : list DSeg) (st en : Q) (s : string)
  : Prop :=
  forall s', total_overlap diarization st en s'
             = total_overlap diarization st en s ->
             String.leb s s' = true.

(** Tie-break as the dict order gives it: every speaker with an interval
    that overlaps the segment and comes before the first such interval of
    the chosen speaker has a strictly smaller accumulated overlap. *)
Definition first_seen (diarization : list DSeg) (st en : Q) (s : string)
  : Prop :=
  exists pre d post,
    diarization = pre ++ d :: post /\
    d_speaker d = s /\ overlaps st en d /\
    forall d', d' ∈ pre -> overlaps st en d' ->
      Py.dlt (total_overlap diarization st en (d_speaker d'))
             (total_overlap diarization st en s) = true.

(** No diarization interval overlaps the segment. *)
Definition no_overlap (diarization : list DSeg) (st en : Q) : Prop :=
  forall d, d ∈ diarization -> ~ overlaps st en d.

(** The speaker assignment law with the specification's tie-break. *)
Definition assignment_law_lex (diarization : list DSeg) (st en : Q)
    (r : option string) : Prop :=
  match r with
  | Some s => dominant diarization st en s /\ lowest_label diarization st en s
  | None => no_overlap diarization st en
  end.

(** The speaker assignment law with the tie-break of the dict order. *)
Definition assignment_law_first (diarization : list DSeg) (st en : Q)
    (r : option string) : Prop :=
  match r with
  | Some s => dominant diarization st en s /\ first_seen diarization st en s
  | None => no_overlap diarization st en
  end.

End Diarization.

(** ** Subtitle timestamps (api/jobs.py, workers/stt_worker.py) *)

Module Subtitles.

(** [n] copies of the fill character ["0"]. *)
Fixpoint zeros (n : nat) : string :=
  match n with
  | O => ""
  | S n' => String "0" (zeros n')
  end.

(** The decimal digits of [abs(z)], as [str] prints them. *)
Definition digits_of (z : Z) : string :=
  NilZero.string_of_uint (Nat.to_uint (Z.abs_nat z)).

(** The format spec [0Nd] of an f-string: decimal, sign first, then zeros
    up to the minimum width [N]; a longer number is printed in full. *)
Definition format_0d (width : nat) (z : Z) : string :=
  let digits := digits_of z in
  if (z <? 0)%Z then
    String "-" (zeros (width - 1 - String.length digits) +:+ digits)
  else zeros (width - String.length digits) +:+ digits.

(** [format_srt_time(seconds)].  The argument is a float: a rational
    stands for the double nearest to it. *)
Definition format_srt_time (seconds : Q) : string :=
  let seconds := Py.round64 seconds in
  let hours := Py.int (Py.floordiv seconds 3600) in
  let minutes := Py.int (Py.floordiv (Py.mod_ seconds 3600) 60) in
  let secs := Py.int (Py.mod_ seconds 60) in
  let millis := Py.int (Py.fmul (Py.mod_ seconds 1) 1000) in
  format_0d 2 hours +:+ ":" +:+ format_0d 2 minutes +:+ ":"
    +:+ format_0d 2 secs +:+ "," +:+ format_0d 3 millis.

(** [format_vtt_time(seconds)] *)
Definition format_vtt_time (seconds : Q) : string :=
  let seconds := Py.round64 seconds in
  let hours := Py.int (Py.floordiv seconds 3600) in
  let minutes := Py.int (Py.floordiv (Py.mod_ seconds 3600) 60) in
  let secs := Py.int (Py.mod_ seconds 60) in
  let millis := Py.int (Py.fmul (Py.mod_ seconds 1) 1000) in
  format_0d 2 hours +:+ ":" +:+ format_0d 2 minutes +:+ ":"
    +:+ format_0d 2 secs +:+ "." +:+ format_0d 3 millis.

(** *** Specification vocabulary *)

Definition is_digit (c : ascii) : bool :=
  (48 <=? nat_of_ascii c)%nat && (nat_of_ascii c <=? 57)%nat.

Fixpoint all_digits (s : string) : bool :=
  match s with
  | EmptyString => true
  | String c r => is_digit c && all_digits r
  end.

(** The number a string of decimal digits denotes. *)
Fixpoint decimal_value_from (acc : nat) (s : string) : nat :=
  match s with
  | EmptyString => acc
  | String c r => decimal_value_from (10 * acc + (nat_of_ascii c - 48)) r
  end.

Definition decimal_value (s : string) : nat := decimal_value_from 0 s.

(** A digit field of [width] characters (or at least that many when
    [exact] is off) denoting [n]. *)
Definition field (exact : bool) (width : nat) (n : nat) (s : string) : Prop :=
  all_digits s = true /\ decimal_value s = n /\
  (if exact then String.length s = width else (width <= String.length s)%nat).

(** [s] reads [HH:MM:SS<sep>mmm]: two-digit minutes and seconds, three-digit
    milliseconds, and an hours field of two digits (more only when
    [wide_hours] allows it). *)
Definition timestamp (wide_hours : bool) (sep : string) (s : string)
    (h m sec ms : nat) : Prop :=
  exists hh mm ss mmm,
    s = hh +:+ ":" +:+ mm +:+ ":" +:+ ss +:+ sep +:+ mmm /\
    field (negb wide_hours) 2 h hh /\ field true 2 m mm /\
    field true 2 sec ss /\ field true 3 ms mmm.

(** The four fields as floors of quotients of [t]. *)
Definition hours_of (t : Q) : Z := Qfloor (t / 3600).
Definition minutes_of (t : Q) : Z :=
  Qfloor ((t - 3600 * inject_Z (Qfloor (t / 3600))) / 60).
Definition seconds_of (t : Q) : Z :=
  Qfloor (t - 60 * inject_Z (Qfloor (t / 60))).
Definition millis_of (t : Q) : Z :=
  Qfloor ((t - inject_Z (Qfloor t)) * 1000).

(** The milliseconds as the code takes them: the fraction of [t] times
    1000 is rounded to a double before [int] truncates it. *)
Definition millis_shown (t : Q) : Z :=
  Py.int (Py.round64 ((t - inject_Z (Qfloor t)) * 1000)).

End Subtitles.

(** ** workers/sync_worker.py: the combine step of the timing sync *)

Module SyncWorker.

(** What [wave.open(path, 'r')] reads from a mono file: the frame rate, the
    sample width in bytes and the frames as signed 16-bit integers. *)
Record WavFile := {
  framerate : Z;
  sampwidth : Z;
  frames : list Z
}.

(** One entry of [segments]: the file found at [seg["path"]], if it exists,
    and [seg["start"]]. *)
Record SyncedSegment := {
  seg_wav : option WavFile;
  seg_start : Q
}.

Definition sample_rate : Z := 22050.

(** [[s / 32768.0 for s in samples]] *)
Definition normalize (fs : list Z) : list Q :=
  map (fun s => inject_Z s / 32768) fs.

(** [int(t * sample_rate)]: the index of the sample at the time [t], a
    float (a rational stands for the double nearest to it). *)
Definition sample_index (t : Q) : Z :=
  Py.int (Py.fmul (Py.round64 t) (inject_Z sample_rate)).

(** The nearest-neighbour resampling done when the rates differ:
    [ratio = sample_rate / seg_rate], [new_len = int(len(samples) * ratio)]
    and [samples[int(i / ratio)]] for each [i] below [new_len].  An index
    at or past the end, which needs a file of more than [2^31] frames,
    reads 0 here. *)
Definition resample (samples : list Q) (seg_rate : Z) : list Q :=
  let ratio := Py.fdiv (inject_Z sample_rate) (inject_Z seg_rate) in
  let new_len :=
    Py.int (Py.fmul (inject_Z (Z.of_nat (length samples))) ratio) in
  map (fun i => nth (Z.to_nat (Py.int (Py.fdiv (inject_Z (Z.of_nat i)) ratio)))
                    samples 0)
      (seq 0 (Z.to_nat new_len)).

(** The samples a segment contributes: nothing when the file is missing or
    is not 16-bit; [ZeroDivisionError] when a resampling is needed and the
    file declares the rate 0. *)
Definition segment_samples (seg : SyncedSegment) : Py.outcome (list Q) :=
  match seg_wav seg with
  | None => Py.Ret []
  | Some wav =>
      if (sampwidth wav =? 2)%Z then
        let samples := normalize (frames wav) in
        if (framerate wav =? sample_rate)%Z then Py.Ret samples
        else if (framerate wav =? 0)%Z then Py.Raise "division by zero"
        else Py.Ret (resample samples (framerate wav))
      else Py.Ret []
  end.

(** [for i, s in enumerate(samples): idx = start_sample + i; if idx <
    len(audio_buffer): audio_buffer[idx] = s], with Python's list
    assignment: a negative index counts from the end and raises when it
    falls before the first element. *)
Fixpoint write_samples (audio_buffer : list Q) (start_sample i : Z)
    (samples : list Q) : Py.outcome (list Q) :=
  match samples with
  | [] => Py.Ret audio_buffer
  | s :: rest =>
      let idx := (start_sample + i)%Z in
      let len := Z.of_nat (length audio_buffer) in
      if (idx <? len)%Z then
        if (0 <=? idx)%Z then
          write_samples (<[Z.to_nat idx := s]> audio_buffer) start_sample
                        (i + 1) rest
        else if (- len <=? idx)%Z then
          write_samples (<[Z.to_nat (len + idx) := s]> audio_buffer)
                        start_sample (i + 1) rest
        else Py.Raise "list assignment index out of range"
      else write_samples audio_buffer start_sample (i + 1) rest
  end.

(** The body of [for seg in segments]. *)
Definition insert_segment (audio_buffer : list Q) (seg : SyncedSegment)
  : Py.outcome (list Q) :=
  let start_sample := sample_index (seg_start seg) in
  match segment_samples seg with
  | Py.Raise e => Py.Raise e
  | Py.Ret samples => write_samples audio_buffer start_sample 0 samples
  end.

Fixpoint insert_segments (audio_buffer : list Q) (segments : list SyncedSegment)
  : Py.outcome (list Q) :=
  match segments with
  | [] => Py.Ret audio_buffer
  | seg :: rest =>
      match insert_segment audio_buffer seg with
      | Py.Raise e => Py.Raise e
      | Py.Ret buf => insert_segments buf rest
      end
  end.

(** [audio_buffer] as it stands when the output file is written. *)
Definition combine_buffer (segments : list SyncedSegment) (total_duration : Q)
  : Py.outcome (list Q) :=
  let total_samples := sample_index total_duration in
  let audio_buffer := replicate (Z.to_nat total_samples) (0 : Q) in
  insert_segments audio_buffer segments.

(** [combine_with_timing]: the frames written to [output_path]. *)
Definition combine_with_timing (segments : list SyncedSegment)
    (total_duration : Q) : Py.outcome (list Z) :=
  match combine_buffer segments total_duration with
  | Py.Raise e => Py.Raise e
  | Py.Ret audio_buffer =>
      Py.Ret (map (fun s => Py.int (Py.max (-1) (Py.min 1 s) * 32767))
                  audio_buffer)
  end.

(** *** Specification vocabulary *)

(** Rounding to the nearest integer, halves to even, as [round] does. *)
Definition round (x : Q) : Z :=
  let f := Qfloor x in
  let r := x - inject_Z f in
  if Py.ltb r (1 # 2) then f
  else if Py.ltb (1 # 2) r then (f + 1)%Z
  else if Z.even f then f else (f + 1)%Z.

(** The sample index at which a segment starts. *)
Definition start_index (seg : SyncedSegment) : Z :=
  sample_index (seg_start seg).

(** The samples of a segment that was read. *)
Definition played (seg : SyncedSegment) : list Q :=
  match segment_samples seg with
  | Py.Ret samples => samples
  | Py.Raise _ => []
  end.

(** The sample a segment puts at index [j] of the track, if it covers it. *)
Definition sample_at (seg : SyncedSegment) (j : nat) : option Q :=
  let a := start_index seg in
  if decide (a <= Z.of_nat j)%Z then played seg !! Z.to_nat (Z.of_nat j - a)
  else None.

(** The sample written last at index [j]: that of the last segment, in
    list order, that covers [j]. *)
Fixpoint last_written (segments : list SyncedSegment) (j : nat) : option Q :=
  match segments with
  | [] => None
  | seg :: rest =>
      match last_written rest j with
      | Some v => Some v
      | None => sample_at seg j
      end
  end.

End SyncWorker.

(** ** api/queue.py *)

Module Queue.
Import Database.

(** A message handed to [manager.broadcast]. *)
Inductive Event :=
  | JobProgress (job_id stage : string) (progress : Q) (message : string)
  | PriorityChanged (job_id : string) (priority : Z)
  | QueueReordered (job_id : string) (position : Z)
  | QueueBatchReordered (job_ids : list string).

(** [fastapi.HTTPException] *)
Inductive HTTPException := Http (status_code : Z) (detail : string).

(** What a request handler leaves behind: the database after the request
    and the messages published so far. *)
Definition ApiState : Type := Db * list Event.

(** [JobStatus.value] *)
Definition status_value (s : JobStatus) : string :=
  match s with
  | PENDING => "pending" | QUEUED => "queued" | PROCESSING => "processing"
  | TRANSCRIBING => "transcribing" | DIARIZING => "diarizing"
  | SYNTHESIZING => "synthesizing" | SYNCING => "syncing"
  | COMPLETED => "completed" | FAILED => "failed" | CANCELLED => "cancelled"
  end.

(** [update_job_priority(job_id, priority)] *)
Definition update_job_priority (job_id : string) (p : Z) (st : ApiState)
  : (HTTPException + unit) * ApiState :=
  let '(d, evs) := st in
  if ((p <? 1) || (10 <? p))%Z then
    (inl (Http 400 "Priority must be between 1 and 10"), st)
  else
    match jobs d !! job_id with
    | None => (inl (Http 404 "Job not found"), st)
    | Some job =>
        if negb (reorderable (status job)) then
          (inl (Http 400 "Can only change priority for pending/queued jobs"), st)
        else
          (inr (), (set_jobs (<[job_id := set_priority p job]> (jobs d)) d,
                    evs ++ [PriorityChanged job_id p]))
    end.

(** What a column of type [Integer] holds: the database is PostgreSQL
    (config.py), where it is a signed 32-bit integer. *)
Definition fits_integer (z : Z) : bool :=
  ((- 2 ^ 31 <=? z) && (z <? 2 ^ 31))%Z.

(** [move_job_in_queue(job_id, new_position)].  [new_position] is any
    Python int; when it does not fit the column [queue_position] the commit
    raises, nothing is stored or published and the request is answered with
    status 500. *)
Definition move_job_in_queue (job_id : string) (new_position : Z)
    (st : ApiState) : (HTTPException + unit) * ApiState :=
  let '(d, evs) := st in
  match jobs d !! job_id with
  | None => (inl (Http 404 "Job not found"), st)
  | Some job =>
      if negb (reorderable (status job)) then
        (inl (Http 400 "Can only reorder pending/queued jobs"), st)
      else if negb (fits_integer new_position) then
        (inl (Http 500 "Internal Server Error"), st)
      else
        (inr (), (set_jobs (<[job_id := set_queue_position (Some new_position) job]>
                              (jobs d)) d,
                  evs ++ [QueueReordered job_id new_position]))
  end.

(** [jobs_map = {job.id: job for job in ...where(Job.id.in_(job_ids))}] *)
Definition fetch_jobs (job_ids : list string) (d : Db) : gmap string Job :=
  filter (fun kv => kv.1 ∈ job_ids) (jobs d).

(** The first loop of [batch_reorder_queue]: every id must name a job in a
    reorderable status. *)
Fixpoint verify (jobs_map : gmap string Job) (job_ids : list string)
  : option HTTPException :=
  match job_ids with
  | [] => None
  | job_id :: rest =>
      match jobs_map !! job_id with
      | None => Some (Http 404 ("Job " +:+ job_id +:+ " not found"))
      | Some job =>
          if reorderable (status job) then verify jobs_map rest
          else Some (Http 400 ("Job " +:+ job_id
                 +:+ " is not in a reorderable state (status: "
                 +:+ status_value (status job) +:+ ")"))
      end
  end.

(** The second loop: [for position, job_id in enumerate(job_ids)].  [None]
    stands for the [KeyError] of [jobs_map[job_id]]. *)
Fixpoint assign (jobs_map : gmap string Job) (position : Z)
    (job_ids : list string) : option (gmap string Job) :=
  match job_ids with
  | [] => Some jobs_map
  | job_id :: rest =>
      match jobs_map !! job_id with
      | None => None
      | Some job =>
          let job := set_priority (Z.min (position + 1) 10) job in
          let job := set_queue_position (Some (position + 1)%Z) job in
          assign (<[job_id := job]> jobs_map) (position + 1) rest
      end
  end.

(** [batch_reorder_queue(request)]: the response carries [jobs_updated]. *)
Definition batch_reorder_queue (job_ids : list string) (st : ApiState)
  : (HTTPException + nat) * ApiState :=
  let '(d, evs) := st in
  match job_ids with
  | [] => (inl (Http 400 "job_ids list cannot be empty"), st)
  | _ =>
      let jobs_map := fetch_jobs job_ids d in
      match verify jobs_map job_ids with
      | Some err => (inl err, st)
      | None =>
          match assign jobs_map 0 job_ids with
          | None => (inl (Http 500 "Internal Server Error"), st)
          | Some jobs_map' =>
              (inr (length job_ids),
               (set_jobs (jobs_map' ∪ jobs d) d,
                evs ++ [QueueBatchReordered job_ids]))
          end
      end
  end.

End Queue.

(** ** api/jobs.py: cancelling and deleting *)

Module Jobs.
Import Database Queue.

(** The row [create_job] inserts, under the id the database gave it. *)
Definition new_job (id path language : string)
    (translate_to model_id diarization_model_id tts_model_id : option string)
    (enable_diarization enable_tts sync_tts_timing : bool)
    (output_formats : list string) (priority queue_position : Z) : Job :=
  {| job_id := id; batch_id := None; original_path := path;
     language := language; detected_language := None;
     translate_to := translate_to; model_id := model_id;
     diarization_model_id :=
       if enable_diarization then diarization_model_id else None;
     tts_model_id := if enable_tts then tts_model_id else None;
     enable_diarization := enable_diarization; enable_tts := enable_tts;
     sync_tts_timing := sync_tts_timing; output_formats := output_formats;
     priority := priority; queue_position := Some queue_position;
     status := QUEUED; progress := 0; error_message := None;
     transcript_path := None; tts_audio_path := None; duration := None;
     started_at := None; completed_at := None |}.

(** Lines 283-289 of [delete_job]: a job that is still queued or being
    transcribed is marked cancelled; any other job keeps its status. *)
Definition cancel_if_live (job : Job) : Job :=
  match status job with
  | QUEUED | PROCESSING | TRANSCRIBING => set_status CANCELLED job
  | _ => job
  end.

(** [delete_job(job_id)]: the job object as the handler last saw it, and the
    database without its row.  The rows of [transcripts] and [tts_outputs]
    refer to the job through a foreign key that is not nullable and nothing
    deletes them with the job: when one exists the delete is refused by the
    database, the session is rolled back and the request is answered with
    status 500. *)
Definition delete_job (job_id : string) (d : Db)
  : (HTTPException + Job) * Db :=
  match jobs d !! job_id with
  | None => (inl (Http 404 "Job not found"), d)
  | Some job =>
      let job := cancel_if_live job in
      match transcripts d !! job_id, tts_outputs d !! job_id with
      | None, None => (inr job, set_jobs (delete job_id (jobs d)) d)
      | _, _ => (inl (Http 500 "Internal Server Error"), d)
      end
  end.

End Jobs.

(** ** api/batches.py *)

Module Batches.
Import Database.

(** [sum(1 for j in batch.jobs if j.status == s)] *)
Definition count_status (s : JobStatus) (members : list Job) : Z :=
  Z.of_nat (length (filter (fun j => status j = s) members)).

(** The assignments of [update_batch_progress] on the batch object, given
    its members and the clock.  The second component is the
    [ZeroDivisionError] of the progress computation, raised after the two
    counters were assigned. *)
Definition recompute (now : nat) (batch : JobBatch) (members : list Job)
  : JobBatch * option string :=
  let completed := count_status COMPLETED members in
  let failed := count_status FAILED members in
  let batch := set_completed_files completed batch in
  let batch := set_failed_files failed batch in
  if (total_files batch =? 0)%Z then (batch, Some "division by zero"%string)
  else
    let batch :=
      set_b_progress
        (inject_Z (completed + failed) / inject_Z (total_files batch) * 100)
        batch in
    if (total_files batch <=? completed + failed)%Z then
      let batch :=
        set_b_status (if (failed =? 0)%Z then COMPLETED else FAILED) batch in
      (set_b_completed_at (Some now) batch, None)
    else if (0 <? completed + failed)%Z then
      (set_b_status PROCESSING batch, None)
    else (batch, None).

(** [create_batch]: the batch row and one queued job per uploaded file,
    named by the ids the database gave them. *)
Definition new_batch (bid name : string) (n_files : nat) : JobBatch :=
  {| b_id := bid; b_name := name; total_files := Z.of_nat n_files;
     completed_files := 0; failed_files := 0; b_status := PENDING;
     b_progress := 0; b_completed_at := None |}.

Definition new_batch_job (bid : string) (language : string)
    (enable_diarization enable_tts : bool) (file : string * string) : Job :=
  {| job_id := file.1; batch_id := Some bid; original_path := file.2;
     language := language; detected_language := None; translate_to := None;
     model_id := None; diarization_model_id := None; tts_model_id := None;
     enable_diarization := enable_diarization; enable_tts := enable_tts;
     sync_tts_timing := true; output_formats := ["json"; "srt"]%string;
     priority := 5; queue_position := None; status := QUEUED; progress := 0;
     error_message := None; transcript_path := None; tts_audio_path := None;
     duration := None; started_at := None; completed_at := None |}.

End Batches.

(** ** api/models.py: downloads *)

Module Models.
Import Database Queue.

(** What [download_model_for_engine] does when called: it returns the local
    path or raises.  Its progress callback builds a coroutine that nobody
    awaits, so it writes nothing. *)
Definition Fetch := Py.outcome string.

(** The database, the queue of [BackgroundTasks] (each entry one pending
    [download_model_task(model_id)]) and the log of the fetches started. *)
Record State := {
  db : Db;
  background : list string;
  fetched : list string
}.

(** [download_model(model_id, request)] *)
Definition download_model (model_id : string) (force : bool) (st : State)
  : (HTTPException + string) * State :=
  match models (db st) !! model_id with
  | None => (inl (Http 404 "Model not found"), st)
  | Some model =>
      if is_downloaded model && negb force then
        (inr "Model already downloaded"%string, st)
      else
        (inr "Download started"%string,
         {| db := db st; background := background st ++ [model_id];
            fetched := fetched st |})
  end.

(** [session.commit()] with the one model object the task holds. *)
Definition put_model (model_id : string) (model : Model) (d : Db) : Db :=
  set_models (<[model_id := model]> (models d)) d.

(** [download_model_task(model_id)] *)
Definition download_model_task (model_id : string) (fetch : Fetch)
    (st : State) : Py.outcome unit * State :=
  match models (db st) !! model_id with
  | None => (Py.Ret (), st)
  | Some model =>
      let model := set_download_progress (Some 0) model in
      let d := put_model model_id model (db st) in
      let log := fetched st ++ [model_id] in
      match fetch with
      | Py.Ret path =>
          let model := set_local_path (Some path) model in
          let model := set_is_downloaded true model in
          let model := set_download_progress (Some 100) model in
          (Py.Ret (),
           {| db := put_model model_id model d; background := background st;
              fetched := log |})
      | Py.Raise e =>
          let model := set_download_progress None model in
          let model := set_download_error (Some e) model in
          (Py.Raise e,
           {| db := put_model model_id model d; background := background st;
              fetched := log |})
      end
  end.

(** The server runs the pending background tasks, oldest first; [fetches]
    says how each download goes. *)
Fixpoint run_background (fetches : list Fetch) (st : State) : State :=
  match background st, fetches with
  | model_id :: rest, fetch :: fetches' =>
      let st := {| db := db st; background := rest; fetched := fetched st |} in
      run_background fetches' (download_model_task model_id fetch st).2
  | _, _ => st
  end.

End Models.

(** ** services/background_tasks.py: the pipeline runner *)

Module Pipeline.
Import Database Queue.

(** *** The engines

    What the external collaborators do during one run.  A field of type
    [option string] is the exception a call raises, if any. *)

(** A segment as the faster-whisper iterator yields it. *)
Record RawSegment := { raw_start : Q; raw_end : Q; raw_text : string }.

(** The dict [transcribe_faster_whisper] appends for it. *)
Record SegDict := { sd_start : Q; sd_end : Q; sd_text : string }.

Record Engines := {
  (** [extract_audio_if_needed(job.original_path)] *)
  extract_audio : Py.outcome string;
  (** [get_cached_faster_whisper] and [model.transcribe] *)
  whisper_load : option string;
  (** the segments the iterator yields, and the exception that ends the
      iteration early, if any *)
  whisper_segments : list RawSegment;
  whisper_iter_error : option string;
  (** [info.language], [info.duration] *)
  whisper_language : option string;
  whisper_duration : Q;
  (** [output_dir.mkdir] and [generate_output_files] *)
  write_outputs : option string;
  (** [get_audio_path(job.original_path)] *)
  diar_audio : Py.outcome string;
  (** [diarize_pyannote] *)
  pyannote : Py.outcome (list Diarization.DSeg);
  (** [output_dir.mkdir] in [run_tts] *)
  tts_mkdir : option string;
  (** [synthesize_coqui_xtts]: the paths of the per-segment files *)
  xtts : Py.outcome (list string);
  (** [combine_audio_segments] *)
  ffmpeg_concat : option string;
  (** duration and frame rate read back from [tts_output.wav]; [None] when
      reading it raises *)
  wave_info : option (Q * Z)
}.

(** *** The session

    The objects the SQLAlchemy session holds with their pending changes,
    the database as committed, and the messages broadcast so far.
    [ps_history] records the job row each commit wrote. *)
Record PState := {
  ps_db : Db;
  ps_job : Job;
  ps_batch : option JobBatch;
  ps_transcript : option Transcript;
  ps_tts_output : option TTSOutput;
  ps_events : list Event;
  ps_history : list Job;
  ps_clock : nat
}.

Definition with_db (v : Db) (s : PState) : PState :=
  {| ps_db := v; ps_job := ps_job s; ps_batch := ps_batch s;
     ps_transcript := ps_transcript s; ps_tts_output := ps_tts_output s;
     ps_events := ps_events s; ps_history := ps_history s;
     ps_clock := ps_clock s |}.

Definition with_job (v : Job) (s : PState) : PState :=
  {| ps_db := ps_db s; ps_job := v; ps_batch := ps_batch s;
     ps_transcript := ps_transcript s; ps_tts_output := ps_tts_output s;
     ps_events := ps_events s; ps_history := ps_history s;
     ps_clock := ps_clock s |}.

Definition with_batch (v : option JobBatch) (s : PState) : PState :=
  {| ps_db := ps_db s; ps_job := ps_job s; ps_batch := v;
     ps_transcript := ps_transcript s; ps_tts_output := ps_tts_output s;
     ps_events := ps_events s; ps_history := ps_history s;
     ps_clock := ps_clock s |}.

Definition with_transcript (v : option Transcript) (s : PState) : PState :=
  {| ps_db := ps_db s; ps_job := ps_job s; ps_batch := ps_batch s;
     ps_transcript := v; ps_tts_output := ps_tts_output s;
     ps_events := ps_events s; ps_history := ps_history s;
     ps_clock := ps_clock s |}.

Definition with_tts_output (v : option TTSOutput) (s : PState) : PState :=
  {| ps_db := ps_db s; ps_job := ps_job s; ps_batch := ps_batch s;
     ps_transcript := ps_transcript s; ps_tts_output := v;
     ps_events := ps_events s; ps_history := ps_history s;
     ps_clock := ps_clock s |}.

Definition with_events (v : list Event) (s : PState) : PState :=
  {| ps_db := ps_db s; ps_job := ps_job s; ps_batch := ps_batch s;
     ps_transcript := ps_transcript s; ps_tts_output := ps_tts_output s;
     ps_events := v; ps_history := ps_history s; ps_clock := ps_clock s |}.

Definition with_history (v : list Job) (s : PState) : PState :=
  {| ps_db := ps_db s; ps_job := ps_job s; ps_batch := ps_batch s;
     ps_transcript := ps_transcript s; ps_tts_output := ps_tts_output s;
     ps_events := ps_events s; ps_history := v; ps_clock := ps_clock s |}.

Definition with_clock (v : nat) (s : PState) : PState :=
  {| ps_db := ps_db s; ps_job := ps_job s; ps_batch := ps_batch s;
     ps_transcript := ps_transcript s; ps_tts_output := ps_tts_output s;
     ps_events := ps_events s; ps_history := ps_history s; ps_clock := v |}.

(** A computation on the session that returns or raises. *)
Definition M (A : Type) : Type := PState -> Py.outcome A * PState.

Definition ret {A} (a : A) : M A := fun s => (Py.Ret a, s).

Definition raise {A} (e : string) : M A := fun s => (Py.Raise e, s).

Definition bind {A B} (m : M A) (k : A -> M B) : M B :=
  fun s =>
    match m s with
    | (Py.Ret a, s') => k a s'
    | (Py.Raise e, s') => (Py.Raise e, s')
    end.

(** [try: body / except Exception as e: handler] *)
Definition try_except {A} (body : M A) (handler : string -> M A) : M A :=
  fun s =>
    match body s with
    | (Py.Ret a, s') => (Py.Ret a, s')
    | (Py.Raise e, s') => handler e s'
    end.

Definition gets {A} (f : PState -> A) : M A := fun s => (Py.Ret (f s), s).

Definition modify (f : PState -> PState) : M unit :=
  fun s => (Py.Ret (), f s).

(** A call that raises when the engine says so. *)
Definition call (failure : option string) : M unit :=
  match failure with
  | Some e => raise e
  | None => ret ()
  end.

Definition lift {A} (r : Py.outcome A) : M A :=
  match r with
  | Py.Ret a => ret a
  | Py.Raise e => raise e
  end.

Declare Scope pipe_scope.
Delimit Scope pipe_scope with pipe.
Notation "x ← y ; z" := (bind y (fun x => z))
  (at level 20, y at level 100, z at level 200, only parsing) : pipe_scope.
Notation "y ;; z" := (bind y (fun _ => z))
  (at level 100, z at level 200, only parsing, right associativity)
  : pipe_scope.
Local Open Scope pipe_scope.

(** [job.attr = v] on the session's job object. *)
Definition assign_job (f : Job -> Job) : M unit :=
  modify (fun s => with_job (f (ps_job s)) s).

(** [datetime.utcnow()] *)
Definition utcnow : M nat :=
  fun s => (Py.Ret (ps_clock s), with_clock (S (ps_clock s)) s).

(** [await session.commit()]: every object of the session is written. *)
Definition flush (s : PState) : Db :=
  let d := ps_db s in
  let d := set_jobs (<[job_id (ps_job s) := ps_job s]> (jobs d)) d in
  let d := match ps_batch s with
           | Some b => set_batches (<[b_id b := b]> (batches d)) d
           | None => d
           end in
  let d := match ps_transcript s with
           | Some t => set_transcripts (<[t_job_id t := t]> (transcripts d)) d
           | None => d
           end in
  match ps_tts_output s with
  | Some o => set_tts_outputs (<[o_job_id o := o]> (tts_outputs d)) d
  | None => d
  end.

Definition commit : M unit :=
  modify (fun s => with_history (ps_history s ++ [ps_job s])
                     (with_db (flush s) s)).

(** [await session.refresh(job)]: the pending changes of the job object
    are dropped and its row is read again. *)
Definition refresh_job : M unit :=
  fun s =>
    match jobs (ps_db s) !! job_id (ps_job s) with
    | Some row => (Py.Ret (), with_job row s)
    | None => (Py.Raise "Could not refresh instance", s)
    end.

(** [broadcast_progress(job_id, progress, stage, message)]; a failure to
    send is swallowed. *)
Definition broadcast_progress (job_id : string) (progress : Q)
    (stage message : string) : M unit :=
  modify (fun s =>
    with_events (ps_events s ++ [JobProgress job_id stage progress message]) s).

(** [select(Model).where(model_type == ty, is_default == True)] followed by
    [scalar_one_or_none()]. *)
Definition default_model (ty : string) : M (option Model) :=
  fun s =>
    match map_to_list (filter (fun kv => model_type kv.2 = ty
                                         /\ is_default kv.2 = true)
                              (models (ps_db s))) with
    | [] => (Py.Ret None, s)
    | [kv] => (Py.Ret (Some kv.2), s)
    | _ => (Py.Raise "Multiple rows were found when one or none was required", s)
    end.

(** The model a stage uses: the one the job names, else the default of the
    type. *)
Definition stage_model (named : option string) (ty : string) : M (option Model) :=
  model ← gets (fun s => if Py.truthy named
                         then named ≫= (fun k => models (ps_db s) !! k)
                         else None);
  match model with
  | Some m => ret (Some m)
  | None => default_model ty
  end.

(** [select(Transcript).where(Transcript.job_id == job.id)] *)
Definition load_transcript : M (option Transcript) :=
  fun s =>
    match ps_transcript s with
    | Some t => (Py.Ret (Some t), s)
    | None =>
        let t := transcripts (ps_db s) !! job_id (ps_job s) in
        (Py.Ret t, with_transcript t s)
    end.

(** *** workers/stt_worker.py: [transcribe_faster_whisper] *)

(** The callback of [run_transcription],
    [lambda p: asyncio.create_task(progress_cb(p))].  The call does not
    broadcast: it schedules the broadcast as a task of the event loop.  The
    loop starts the scheduled tasks, in the order of their creation, when
    the runner next suspends, which is at its next database call (the
    commit of the transcript when the iteration has ended, the refresh of
    the job in the runner's handler when it has raised) and so before the
    runner's next message.  [ps_events] lists a message at the point where
    it is handed to the event loop: for these messages, where the task is
    created. *)
Definition progress_cb (job_id : string) (p : Q) : M unit :=
  broadcast_progress job_id (10 + p * (1 # 2)) "transcribing"
    ("Transcribing: " +:+ Py.str_int (Py.int p) +:+ "%").

(** [min(seg.end / (info.duration or 1) * 100, 100)] *)
Definition segment_progress (duration : Q) (seg : RawSegment) : Q :=
  let duration := if Qeq_bool duration 0 then 1 else duration in
  Py.min (raw_end seg / duration * 100) 100.

Definition to_dict (seg : RawSegment) : SegDict :=
  {| sd_start := raw_start seg; sd_end := raw_end seg;
     sd_text := Py.strip (raw_text seg) |}.

Fixpoint collect_segments (job_id : string) (duration : Q)
    (iter : list RawSegment) : M (list SegDict) :=
  match iter with
  | [] => ret []
  | seg :: rest =>
      progress_cb job_id (segment_progress duration seg);;
      segments ← collect_segments job_id duration rest;
      ret (to_dict seg :: segments)
  end.

Definition transcribe_faster_whisper (o : Engines) (job_id : string)
  : M (list SegDict) :=
  call (whisper_load o);;
  segments ← collect_segments job_id (whisper_duration o) (whisper_segments o);
  call (whisper_iter_error o);;
  ret segments.

(** *** [run_transcription] *)

Definition word_count_of (segments : list SegDict) : nat :=
  fold_left (fun acc seg => (acc + length (Py.split (sd_text seg)))%nat)
            segments 0%nat.

Definition full_text_of (segments : list SegDict) : string :=
  Py.join " " (map sd_text segments).

(** The rows [for i, seg in enumerate(segments)] adds. *)
Definition segment_rows (segments : list SegDict) : list TranscriptSegment :=
  imap (fun i seg =>
          {| segment_index := i; start_time := sd_start seg;
             end_time := sd_end seg; text := sd_text seg; speaker := None |})
       segments.

Definition run_transcription (o : Engines) : M unit :=
  job ← gets ps_job;
  model ← stage_model (model_id job) "whisper";
  match model with
  | None =>
      raise "No STT model available. Please register and download a model first."
  | Some model =>
      if negb (is_downloaded model) then
        raise ("Model '" +:+ m_name model
               +:+ "' is not downloaded. Please download it first.")
      else
        lift (extract_audio o);;
        segments ← transcribe_faster_whisper o (job_id job);
        let transcript :=
          {| t_job_id := job_id job;
             t_language := whisper_language o;
             t_duration := whisper_duration o;
             word_count := word_count_of segments;
             speaker_count := None;
             full_text := full_text_of segments;
             segments := [] |} in
        modify (with_transcript (Some transcript));;
        commit;;
        modify (with_transcript
                  (Some (set_segments (segment_rows segments) transcript)));;
        assign_job (set_detected_language (whisper_language o));;
        assign_job (set_duration (Some (whisper_duration o)));;
        assign_job (set_progress 55);;
        call (write_outputs o);;
        assign_job (set_transcript_path
                      (Some ("outputs/" +:+ job_id job +:+ "/transcript.json")));;
        commit
  end.

(** *** [run_diarization] *)

(** The loop [for segment in segments]: each row gets its speaker, and the
    labels that are not empty are collected. *)
Definition assign_speakers (diarization : list Diarization.DSeg)
    (rows : list TranscriptSegment) : list TranscriptSegment * gset string :=
  foldl (fun '(done, speakers) segment =>
           let speaker :=
             Diarization.find_speaker_for_segment diarization
               (start_time segment) (end_time segment) in
           (done ++ [set_speaker speaker segment],
            if Py.truthy speaker then speakers ∪ list_to_set (option_list speaker)
            else speakers))
        ([], ∅) rows.

Definition run_diarization (o : Engines) : M unit :=
  job ← gets ps_job;
  model ← stage_model (diarization_model_id job) "diarization";
  match model with
  | None =>
      broadcast_progress (job_id job) 75 "diarizing"
        "No diarization model - skipping"
  | Some model =>
      if negb (is_downloaded model) then
        broadcast_progress (job_id job) 75 "diarizing"
          "Diarization model not downloaded - skipping"
      else
        broadcast_progress (job_id job) 62 "diarizing"
          "Running pyannote diarization...";;
        lift (diar_audio o);;
        match pyannote o with
        | Py.Raise e =>
            broadcast_progress (job_id job) 75 "diarizing"
              ("Diarization failed: " +:+ Py.take 50 e)
        | Py.Ret diarization =>
            broadcast_progress (job_id job) 70 "diarizing"
              "Assigning speakers to segments...";;
            transcript ← load_transcript;
            match transcript with
            | Some transcript =>
                let '(rows, speakers) :=
                  assign_speakers diarization (segments transcript) in
                modify (with_transcript
                  (Some (set_speaker_count (Some (size speakers))
                           (set_segments rows transcript))));;
                commit;;
                broadcast_progress (job_id job) 75 "diarizing"
                  ("Identified " +:+ Py.str_int (Z.of_nat (size speakers))
                   +:+ " speakers")
            | None =>
                raise "cannot access local variable 'speakers' where it is not associated with a value"
            end
        end
  end.

(** *** [run_tts] *)

Definition run_tts (o : Engines) : M unit :=
  job ← gets ps_job;
  model ← stage_model (tts_model_id job) "tts";
  match model with
  | None =>
      broadcast_progress (job_id job) 95 "generating_tts" "No TTS model - skipping"
  | Some model =>
      if negb (is_downloaded model) then
        broadcast_progress (job_id job) 95 "generating_tts"
          "TTS model not downloaded - skipping"
      else
        broadcast_progress (job_id job) 82 "generating_tts" "Loading TTS model...";;
        transcript ← load_transcript;
        match transcript with
        | None =>
            broadcast_progress (job_id job) 95 "generating_tts"
              "No transcript for TTS - skipping"
        | Some transcript =>
            call (tts_mkdir o);;
            broadcast_progress (job_id job) 85 "generating_tts"
              ("Synthesizing "
               +:+ Py.str_int (Z.of_nat (length (segments transcript)))
               +:+ " segments...");;
            match xtts o with
            | Py.Raise e =>
                broadcast_progress (job_id job) 95 "generating_tts"
                  ("TTS failed: " +:+ Py.take 50 e)
            | Py.Ret audio_segments =>
                broadcast_progress (job_id job) 92 "generating_tts"
                  "Combining audio segments...";;
                call (ffmpeg_concat o);;
                let combined_path :=
                  ("outputs/" +:+ job_id job +:+ "/tts_output.wav")%string in
                match wave_info o with
                | Some (wav_duration, wav_rate) =>
                    job_now ← gets ps_job;
                    modify (with_tts_output (Some
                      {| o_job_id := job_id job; audio_path := combined_path;
                         o_duration := wav_duration; sample_rate := wav_rate;
                         format := "wav"; is_timing_synced := false;
                         original_duration := duration job_now |}));;
                    assign_job (set_tts_audio_path (Some combined_path));;
                    commit
                | None => ret ()
                end;;
                broadcast_progress (job_id job) 95 "generating_tts" "TTS complete"
            end
        end
  end.

(** *** api/batches.py: [update_batch_progress], in the runner's session *)

Definition update_batch_progress (bid : string) : M unit :=
  batch ← gets (fun s => match ps_batch s with
                         | Some b => Some b
                         | None => batches (ps_db s) !! bid
                         end);
  match batch with
  | None => ret ()
  | Some batch =>
      members ← gets (fun s => batch_jobs (ps_db s) bid);
      now ← gets ps_clock;
      let '(batch', err) := Batches.recompute now batch members in
      modify (with_batch (Some batch'));;
      match err with
      | Some e => raise e
      | None => commit
      end
  end.

(** *** [process_job_async] *)

Inductive Result := JobNotFound | Completed (job_id : string).

(** The [try] block, stage by stage. *)
Definition start_job (job_id : string) : M unit :=
  assign_job (set_status PROCESSING);;
  now ← utcnow;
  assign_job (set_started_at (Some now));;
  commit;;
  broadcast_progress job_id 0 "processing" "Starting job...";;
  assign_job (set_status TRANSCRIBING);;
  commit;;
  broadcast_progress job_id 5 "transcribing" "Transcribing audio...".

Definition diarization_step (o : Engines) (job_id : string) : M unit :=
  job ← gets ps_job;
  if enable_diarization job then
    assign_job (set_status DIARIZING);;
    commit;;
    broadcast_progress job_id 60 "diarizing" "Identifying speakers...";;
    run_diarization o
  else ret ().

Definition tts_step (o : Engines) (job_id : string) : M unit :=
  job ← gets ps_job;
  if enable_tts job then
    assign_job (set_status SYNTHESIZING);;
    commit;;
    broadcast_progress job_id 80 "generating_tts" "Synthesizing speech...";;
    run_tts o
  else ret ().

(** [if job.batch_id: await update_batch_progress(session, job.batch_id)] *)
Definition batch_step : M unit :=
  job ← gets ps_job;
  if Py.truthy (batch_id job) then
    match batch_id job with
    | Some bid => update_batch_progress bid
    | None => ret ()
    end
  else ret ().

Definition complete_job (job_id : string) : M Result :=
  refresh_job;;
  assign_job (set_status COMPLETED);;
  now ← utcnow;
  assign_job (set_completed_at (Some now));;
  assign_job (set_progress 100);;
  commit;;
  batch_step;;
  broadcast_progress job_id 100 "completed" "Job completed!";;
  ret (Completed job_id).

(** The [except Exception as e] block; it ends in [raise]. *)
Definition fail_job (job_id : string) (e : string) : M Result :=
  refresh_job;;
  assign_job (set_status FAILED);;
  assign_job (set_error_message (Some e));;
  now ← utcnow;
  assign_job (set_completed_at (Some now));;
  commit;;
  batch_step;;
  broadcast_progress job_id 0 "failed" e;;
  raise e.

Definition stages (o : Engines) (job_id : string) : M Result :=
  start_job job_id;;
  run_transcription o;;
  diarization_step o job_id;;
  tts_step o job_id;;
  complete_job job_id.

(** The session [process_job_async] works in, opened on the job it found. *)
Definition open_session (d : Db) (evs : list Event) (clock : nat) (job : Job)
  : PState :=
  {| ps_db := d; ps_job := job; ps_batch := None; ps_transcript := None;
     ps_tts_output := None; ps_events := evs; ps_history := [];
     ps_clock := clock |}.

(** [process_job_async(job_id)], given the database, the messages
    published so far and the clock.  When the job is not found nothing
    happens and no session state is left. *)
Definition process_job_async (o : Engines) (job_id : string) (d : Db)
    (evs : list Event) (clock : nat) : Py.outcome Result * option PState :=
  match jobs d !! job_id with
  | None => (Py.Ret JobNotFound, None)
  | Some job =>
      let r := try_except (stages o job_id) (fail_job job_id)
                          (open_session d evs clock job) in
      (r.1, Some r.2)
  end.

(** *** Specification vocabulary *)

(** The number of whitespace-separated tokens of a text: the positions at
    which a character that is not whitespace follows whitespace or starts
    the text. *)
Fixpoint token_starts (after_space : bool) (s : string) : nat :=
  match s with
  | EmptyString => 0
  | String c r =>
      ((if after_space && negb (Py.is_space c) then 1 else 0)
       + token_starts (Py.is_space c) r)%nat
  end.

Definition count_tokens (s : string) : nat := token_starts true s.

(** The texts in order, with one space between neighbours. *)
Fixpoint joined_by_spaces (texts : list string) : string :=
  match texts with
  | [] => EmptyString
  | [t] => t
  | t :: rest => t +:+ " " +:+ joined_by_spaces rest
  end.

(** The progress values of the [job_progress] messages published for a
    job, in publication order. *)
Definition published_progress (job_id : string) (evs : list Event) : list Q :=
  omap (fun ev => match ev with
                  | JobProgress j _ p _ =>
                      if String.eqb j job_id then Some p else None
                  | _ => None
                  end) evs.

(** A sequence of progress values that never decreases. *)
Fixpoint nondecreasing (l : list Q) : Prop :=
  match l with
  | a :: (b :: _) as rest => a <= b /\ nondecreasing rest
  | _ => True
  end.

End Pipeline.

(** ** api/queue.py: the connection manager *)

Module Connections.

(** A [WebSocket] object, known by its identity. *)
Definition WebSocket := nat.

(** [connect(websocket)], once the handshake is accepted. *)
Definition connect (websocket : WebSocket) (active_connections : list WebSocket)
  : list WebSocket :=
  active_connections ++ [websocket].

(** [list.remove(x)]: the first occurrence goes. *)
Fixpoint remove (x : WebSocket) (l : list WebSocket) : list WebSocket :=
  match l with
  | [] => []
  | y :: rest => if decide (x = y) then rest else y :: remove x rest
  end.

(** [disconnect(websocket)] *)
Definition disconnect (websocket : WebSocket)
    (active_connections : list WebSocket) : list WebSocket :=
  if decide (websocket ∈ active_connections)
  then remove websocket active_connections
  else active_connections.

(** The first loop of [broadcast].  [send_json c] says whether the send to
    the connection [c] returns ([true]) or raises; a socket that is closed
    raises at every send.  The result lists the connections that received
    the message and the ones put on [disconnected]. *)
Fixpoint send_all (send_json : WebSocket -> bool)
    (connections : list WebSocket) : list WebSocket * list WebSocket :=
  match connections with
  | [] => ([], [])
  | connection :: rest =>
      let '(received, disconnected) := send_all send_json rest in
      if send_json connection then (connection :: received, disconnected)
      else (received, connection :: disconnected)
  end.

(** [broadcast(message)]: who received the message, and the connections
    that remain. *)
Definition broadcast (send_json : WebSocket -> bool)
    (active_connections : list WebSocket) : list WebSocket * list WebSocket :=
  let '(received, disconnected) := send_all send_json active_connections in
  (received,
   foldl (fun conns conn => disconnect conn conns) active_connections
         disconnected).

End Connections.

(** ** api/jobs.py: speakers, subtitles, output formats *)

Module Transcripts.
Import Database Queue Subtitles.

(** The line feed of the f-strings. *)
Definition nl : string := String (ascii_of_nat 10) EmptyString.

(** The body of the loop of [update_speakers].  A value of the map is a
    JSON string or [null]. *)
Definition rename_speaker (speaker_map : gmap string (option string))
    (segment : TranscriptSegment) : TranscriptSegment * bool :=
  match speaker segment with
  | Some old =>
      match speaker_map !! old with
      | Some new => (set_speaker new segment, true)
      | None => (segment, false)
      end
  | None => (segment, false)
  end.

Fixpoint rename_all (speaker_map : gmap string (option string))
    (segments : list TranscriptSegment) (updated_count : nat)
  : list TranscriptSegment * nat :=
  match segments with
  | [] => ([], updated_count)
  | segment :: rest =>
      let '(segment', hit) := rename_speaker speaker_map segment in
      let '(rest', n) :=
        rename_all speaker_map rest
                   (if hit then S updated_count else updated_count) in
      (segment' :: rest', n)
  end.

(** [update_speakers(job_id, update)]: the response carries
    [segments_updated]. *)
Definition update_speakers (job_id : string)
    (speaker_map : gmap string (option string)) (d : Db)
  : (HTTPException + nat) * Db :=
  match jobs d !! job_id with
  | None => (inl (Http 404 "Job not found"), d)
  | Some job =>
      if decide (status job = COMPLETED) then
        match transcripts d !! job_id with
        | None => (inl (Http 404 "Transcript not found"), d)
        | Some transcript =>
            let '(segments', updated_count) :=
              rename_all speaker_map (segments transcript) 0 in
            (inr updated_count,
             set_transcripts
               (<[job_id := set_segments segments' transcript]> (transcripts d))
               d)
        end
      else (inl (Http 400 "Can only update speakers for completed jobs"), d)
  end.

(** [generate_srt(segments)] of the API: cues are numbered from 1 and a
    segment with a speaker carries the label in brackets. *)
Definition generate_srt (segments : list TranscriptSegment) : string :=
  Py.join nl
    (imap (fun i seg =>
             let start := format_srt_time (start_time seg) in
             let end_ := format_srt_time (end_time seg) in
             let text :=
               match speaker seg with
               | Some label =>
                   if Py.truthy (speaker seg)
                   then "[" +:+ label +:+ "] " +:+ text seg
                   else text seg
               | None => text seg
               end in
             Py.str_int (Z.of_nat (i + 1)) +:+ nl +:+ start +:+ " --> "
               +:+ end_ +:+ nl +:+ text +:+ nl)
          segments).

(** [generate_vtt(segments)] of the API. *)
Definition generate_vtt (segments : list TranscriptSegment) : string :=
  Py.join nl
    (("WEBVTT" +:+ nl)
     :: imap (fun i seg =>
                let start := format_vtt_time (start_time seg) in
                let end_ := format_vtt_time (end_time seg) in
                let text :=
                  match speaker seg with
                  | Some label =>
                      if Py.truthy (speaker seg)
                      then "<v " +:+ label +:+ ">" +:+ text seg
                      else text seg
                  | None => text seg
                  end in
                nl +:+ Py.str_int (Z.of_nat (i + 1)) +:+ nl +:+ start
                  +:+ " --> " +:+ end_ +:+ nl +:+ text)
             segments).

(** [OutputFormat] of schemas/job.py. *)
Inductive OutputFormat := JSON | SRT | VTT | TXT.

Definition value (f : OutputFormat) : string :=
  match f with
  | JSON => "json" | SRT => "srt" | VTT => "vtt" | TXT => "txt"
  end.

(** [OutputFormat(s)]: the member with that value, or [ValueError]. *)
Definition OutputFormat_of (s : string) : Py.outcome OutputFormat :=
  if String.eqb s "json" then Py.Ret JSON
  else if String.eqb s "srt" then Py.Ret SRT
  else if String.eqb s "vtt" then Py.Ret VTT
  else if String.eqb s "txt" then Py.Ret TXT
  else Py.Raise ("'" +:+ s +:+ "' is not a valid OutputFormat").

(** [s.split(sep)] for a one-character separator; [cur] is the piece being
    read.  The empty string gives one empty piece. *)
Fixpoint split_on (sep : ascii) (cur : string) (s : string) : list string :=
  match s with
  | EmptyString => [cur]
  | String c r =>
      if Ascii.eqb c sep then cur :: split_on sep EmptyString r
      else split_on sep (cur +:+ String c EmptyString) r
  end.

(** [[OutputFormat(f.strip()) for f in pieces if f.strip()]] *)
Fixpoint formats_of (pieces : list string) : Py.outcome (list OutputFormat) :=
  match pieces with
  | [] => Py.Ret []
  | f :: rest =>
      match Py.strip f with
      | EmptyString => formats_of rest
      | name =>
          match OutputFormat_of name with
          | Py.Raise e => Py.Raise e
          | Py.Ret fmt =>
              match formats_of rest with
              | Py.Raise e => Py.Raise e
              | Py.Ret fmts => Py.Ret (fmt :: fmts)
              end
          end
      end
  end.

(** The form field [output_formats] of [create_job], parsed. *)
Definition parse_output_formats (output_formats : string)
  : Py.outcome (list OutputFormat) :=
  formats_of (split_on "," EmptyString output_formats).

End Transcripts.

(** ** workers/stt_worker.py: the subtitle files *)

Module SttWorker.
Import Subtitles Pipeline.

(** [generate_srt(segments)] of the worker, on the segment dicts. *)
Definition generate_srt (segments : list SegDict) : string :=
  Py.join Transcripts.nl
    (imap (fun i seg =>
             let start := format_srt_time (sd_start seg) in
             let end_ := format_srt_time (sd_end seg) in
             Py.str_int (Z.of_nat (i + 1)) +:+ Transcripts.nl +:+ start
               +:+ " --> " +:+ end_ +:+ Transcripts.nl +:+ sd_text seg
               +:+ Transcripts.nl)
          segments).

(** [generate_vtt(segments)] of the worker: the cues carry no number. *)
Definition generate_vtt (segments : list SegDict) : string :=
  Py.join Transcripts.nl
    (("WEBVTT" +:+ Transcripts.nl)
     :: map (fun seg =>
               let start := format_vtt_time (sd_start seg) in
               let end_ := format_vtt_time (sd_end seg) in
               Transcripts.nl +:+ start +:+ " --> " +:+ end_
                 +:+ Transcripts.nl +:+ sd_text seg)
            segments).

End SttWorker.

(** ** api/batches.py: [create_batch] *)

Module Uploads.
Import Database Queue Batches.



End Uploads.

(** ** api/models.py: the registry *)

Module Registry.
Import Database Queue Models.

(** [ModelCreate] of schemas/model.py. *)
Record ModelCreate := {
  c_name : string;
  c_model_type : string;
  c_engine : string;
  c_source : string;
  c_model_id : string;
  c_revision : option string;
  c_compute_type : option string;
  c_device : option string;
  c_is_default : bool
}.

(** [for other in <defaults of the type>: other.is_default = False] *)
Definition unset_defaults (ty : string) (ms : gmap string Model)
  : gmap string Model :=
  (fun m => if decide (model_type m = ty /\ is_default m = true)
            then set_is_default false m else m) <$> ms.

(** [register_model(model)]; [new_id] is the id the database gives the
    row.  An exception that is not an [HTTPException] is answered with
    status 500. *)
Definition register_model (new_id : string) (model : ModelCreate)
    (st : State) : (HTTPException + Model) * State :=
  match map_to_list
          (filter (fun kv => engine kv.2 = c_engine model
                             /\ m_model_id kv.2 = c_model_id model)
                  (models (db st))) with
  | _ :: _ :: _ =>
      (inl (Http 500 "Multiple rows were found when one or none was required"),
       st)
  | [_] =>
      (inl (Http 400 ("Model " +:+ c_model_id model +:+ " for engine "
                      +:+ c_engine model +:+ " already registered")), st)
  | [] =>
      let ms := if c_is_default model
                then unset_defaults (c_model_type model) (models (db st))
                else models (db st) in
      let db_model :=
        {| m_id := new_id; m_name := c_name model;
           model_type := c_model_type model; engine := c_engine model;
           m_source := c_source model; m_model_id := c_model_id model;
           revision := c_revision model; download_error := None;
           compute_type := c_compute_type model; device := c_device model;
           is_default := c_is_default model; is_downloaded := false;
           local_path := None; download_progress := None |} in
      (inr db_model,
       {| db := set_models (<[new_id := db_model]> ms) (db st);
          background :=
            if decide (c_source model = "huggingface"%string
                       \/ c_source model = "url"%string)
            then background st ++ [new_id] else background st;
          fetched := fetched st |})
  end.

(** [set_default_model(model_id)] *)
Definition set_default_model (model_id : string) (d : Db)
  : (HTTPException + Model) * Db :=
  match models d !! model_id with
  | None => (inl (Http 404 "Model not found"), d)
  | Some model =>
      let ms := unset_defaults (model_type model) (models d) in
      let model := set_is_default true model in
      (inr model, set_models (<[model_id := model]> ms) d)
  end.

End Registry.

(** ** workers/diarization_worker.py: [parse_rttm] *)

Module Rttm.
Import Diarization.

Section Parse.

(** [float(s)]: the number read, or the [ValueError]. *)
Variable float : string -> Py.outcome Q.

(** The body of [for line in f]: the segment a line adds, if any. *)
Definition parse_line (line : string) : Py.outcome (option DSeg) :=
  let parts := Py.split (Py.strip line) in
  match parts !! 0%nat with
  | None => Py.Raise "list index out of range"
  | Some tag =>
      if String.eqb tag "SPEAKER" then
        match parts !! 3%nat with
        | None => Py.Raise "list index out of range"
        | Some p3 =>
            match float p3 with
            | Py.Raise e => Py.Raise e
            | Py.Ret start =>
                match parts !! 4%nat with
                | None => Py.Raise "list index out of range"
                | Some p4 =>
                    match float p4 with
                    | Py.Raise e => Py.Raise e
                    | Py.Ret duration =>
                        match parts !! 7%nat with
                        | None => Py.Raise "list index out of range"
                        | Some speaker =>
                            Py.Ret (Some {| d_start := start;
                                            d_end := start + duration;
                                            d_speaker := speaker |})
                        end
                    end
                end
            end
        end
      else Py.Ret None
  end.

(** [parse_rttm(rttm_path)], on the lines of the file. *)
Fixpoint parse_rttm (lines : list string) : Py.outcome (list DSeg) :=
  match lines with
  | [] => Py.Ret []
  | line :: rest =>
      match parse_line line with
      | Py.Raise e => Py.Raise e
      | Py.Ret seg =>
          match parse_rttm rest with
          | Py.Raise e => Py.Raise e
          | Py.Ret segments => Py.Ret (option_list seg ++ segments)
          end
      end
  end.

End Parse.

End Rttm.
(** * Properties *)

(** ** Doubles *)

Section Doubles.
Import Py.

Lemma pow2_pos (k : Z) : 0 < 2 ^ k.
Proof. by apply Qpower_0_lt. Qed.

Lemma pow2_inject (k : Z) : (0 <= k)%Z -> 2 ^ k == inject_Z (2 ^ k).
Proof. intros H. by rewrite Zpower_Qpower. Qed.

Lemma pow2_add (a b : Z) : 2 ^ (a + b) == 2 ^ a * 2 ^ b.
Proof. by apply Qpower_plus. Qed.

Lemma pow2_le (a b : Z) : (a <= b)%Z -> 2 ^ a <= 2 ^ b.
Proof. intros H. by apply Qpower_le_compat_l. Qed.

Lemma pow2_lt_inv (a b : Z) : 2 ^ a < 2 ^ b -> (a < b)%Z.
Proof. intros H. by apply (Qpower_lt_compat_l_inv 2). Qed.

Lemma pow2_le_inv (a b : Z) : 2 ^ a <= 2 ^ b -> (a <= b)%Z.
Proof. intros H. by apply (Qpower_le_compat_l_inv 2). Qed.

(** [ilog2] is the binary order of magnitude. *)
Lemma ilog2_spec (x : Q) :
  0 < x -> 2 ^ ilog2 x <= x /\ x < 2 ^ (ilog2 x + 1).
Proof.
  intros Hx. unfold ilog2. destruct (Qle_bool 1 x) eqn:E.
  - apply Qle_bool_iff in E.
    assert (1 <= Qfloor x)%Z as Hn.
    { change 1%Z with (Qfloor 1). by apply Qfloor_resp_le. }
    pose proof (Z.log2_spec (Qfloor x) ltac:(lia)) as [L1 L2].
    pose proof (Z.log2_nonneg (Qfloor x)) as L0.
    pose proof (Qfloor_le x) as F1. pose proof (Qlt_floor x) as F2.
    rewrite !pow2_inject by lia. split.
    + apply Qle_trans with (inject_Z (Qfloor x)); [by rewrite <- Zle_Qle|done].
    + eapply Qlt_le_trans; [exact F2|]. rewrite <- Zle_Qle.
      replace (Z.log2 (Qfloor x) + 1)%Z with (Z.succ (Z.log2 (Qfloor x))) by lia.
      lia.
  - assert (x < 1) as Hlt.
    { destruct (Qlt_le_dec x 1) as [|Hge]; [done|].
      apply Qle_bool_iff in Hge. congruence. }
    assert (1 < / x) as Hy.
    { pose proof (proj1 (Qinv_lt_contravar x 1 Hx ltac:(lra)) Hlt) as H.
      exact H. }
    set (a := Qceiling (/ x)).
    assert (1 < a)%Z as Ha.
    { rewrite Zlt_Qlt. eapply Qlt_le_trans; [exact Hy|apply Qle_ceiling]. }
    pose proof (Z.log2_up_spec a Ha) as [U1 U2].
    pose proof (Z.log2_up_pos a Ha) as U0.
    set (j := Z.log2_up a) in *.
    assert (0 < / x) as Hy0 by lra.
    split.
    + rewrite Qpower_opp.
      assert (/ x <= 2 ^ j) as H.
      { rewrite pow2_inject by lia.
        apply Qle_trans with (inject_Z a); [apply Qle_ceiling|].
        by rewrite <- Zle_Qle. }
      pose proof (pow2_pos j) as Hp.
      apply Qle_shift_inv_r; [done|].
      apply (Qmult_le_l _ _ x Hx) in H.
      rewrite Qmult_inv_r in H by lra. exact H.
    + replace (- j + 1)%Z with (- (j - 1))%Z by lia. rewrite Qpower_opp.
      assert (2 ^ (j - 1) < / x) as H.
      { rewrite pow2_inject by lia.
        apply Qle_lt_trans with (inject_Z (a - 1)).
        - rewrite <- Zle_Qle. replace (j - 1)%Z with (Z.pred j) by lia. lia.
        - apply Qceiling_lt. }
      pose proof (pow2_pos (j - 1)) as Hp.
      apply Qlt_shift_inv_l; [done|].
      apply (Qmult_lt_l _ _ x Hx) in H.
      rewrite Qmult_inv_r in H by lra. exact H.
Qed.

Lemma ilog2_lt (x : Q) (k : Z) : 0 < x -> x < 2 ^ k -> (ilog2 x < k)%Z.
Proof.
  intros Hx Hk. destruct (ilog2_spec x Hx) as [H _].
  apply pow2_lt_inv. lra.
Qed.

Lemma ilog2_ge (x : Q) (k : Z) : 2 ^ k <= x -> (k <= ilog2 x)%Z.
Proof.
  intros Hk. pose proof (pow2_pos k) as Hp.
  destruct (ilog2_spec x ltac:(lra)) as [_ H].
  assert (k < ilog2 x + 1)%Z; [|lia]. apply pow2_lt_inv. lra.
Qed.

(** *** Rounding to the nearest integer *)

Lemma rne_floor (x : Q) : (Qfloor x <= rne x <= Qfloor x + 1)%Z.
Proof. unfold rne. repeat case_match; lia. Qed.

Lemma rne_ge (x : Q) (n : Z) : inject_Z n <= x -> (n <= rne x)%Z.
Proof.
  intros H. pose proof (rne_floor x).
  pose proof (Qfloor_resp_le _ _ H) as F. rewrite Qfloor_Z in F. lia.
Qed.

Lemma rne_le (x : Q) (n : Z) : x <= inject_Z n -> (rne x <= n)%Z.
Proof.
  intros H. pose proof (rne_floor x) as R.
  pose proof (Qfloor_resp_le _ _ H) as F. rewrite Qfloor_Z in F.
  destruct (Z.eq_dec (Qfloor x) n) as [E|E]; [|lia].
  unfold rne. pose proof (Qfloor_le x) as L. rewrite E in *.
  assert (ltb (x - inject_Z n) (1 # 2) = true) as ->; [|lia].
  apply ltb_lt. lra.
Qed.

Lemma rne_below_half (x : Q) (n : Z) :
  x < inject_Z n - (1 # 2) -> (rne x < n)%Z.
Proof.
  intros H. pose proof (rne_floor x) as R.
  assert (Qfloor x < n)%Z as F.
  { rewrite Zlt_Qlt. pose proof (Qfloor_le x). lra. }
  destruct (Z.eq_dec (Qfloor x) (n - 1)%Z) as [E|E]; [|lia].
  unfold rne. rewrite E.
  assert (ltb (x - inject_Z (n - 1)) (1 # 2) = true) as ->; [|lia].
  apply ltb_lt. replace (n - 1)%Z with (n + -1)%Z by lia.
  rewrite inject_Z_plus. change (inject_Z (-1)) with (-1). lra.
Qed.

(** *** Rounding to the nearest double *)

Lemma round64_zero (x : Q) : x == 0 -> round64 x = 0.
Proof.
  intros H. unfold round64. apply Qeq_bool_iff in H. by rewrite H.
Qed.

Lemma round64_eq (x : Q) :
  ~ x == 0 ->
  round64 x == inject_Z (rne (x / 2 ^ ulp_exp x)) * 2 ^ ulp_exp x.
Proof.
  intros H. unfold round64. destruct (Qeq_bool x 0) eqn:E.
  - by apply Qeq_bool_iff in E.
  - cbv zeta. apply Qred_correct.
Qed.

(** Rounding does not step over a number of the grid it rounds to: the
    multiples of [2^j] for [j] at or above the exponent of the last place. *)
Lemma round64_grid_ge (x : Q) (m j : Z) :
  (~ x == 0 -> (ulp_exp x <= j)%Z) ->
  inject_Z m * 2 ^ j <= x -> inject_Z m * 2 ^ j <= round64 x.
Proof.
  intros Hj Hm. destruct (Qeq_dec x 0) as [E|E].
  { rewrite (round64_zero x E). by rewrite <- E. }
  specialize (Hj E).
  rewrite (round64_eq x E). set (c := ulp_exp x) in *.
  pose proof (pow2_pos c) as Hc.
  replace j with ((j - c) + c)%Z in * by lia.
  rewrite pow2_add, Qmult_assoc in *.
  rewrite (pow2_inject (j - c)), <- inject_Z_mult in * by lia.
  apply Qmult_le_compat_r; [|lra]. rewrite <- Zle_Qle. apply rne_ge.
  apply Qle_shift_div_l; done.
Qed.

Lemma round64_grid_le (x : Q) (m j : Z) :
  (~ x == 0 -> (ulp_exp x <= j)%Z) ->
  x <= inject_Z m * 2 ^ j -> round64 x <= inject_Z m * 2 ^ j.
Proof.
  intros Hj Hm. destruct (Qeq_dec x 0) as [E|E].
  { rewrite (round64_zero x E). by rewrite <- E. }
  specialize (Hj E).
  rewrite (round64_eq x E). set (c := ulp_exp x) in *.
  pose proof (pow2_pos c) as Hc.
  replace j with ((j - c) + c)%Z in * by lia.
  rewrite pow2_add, Qmult_assoc in *.
  rewrite (pow2_inject (j - c)), <- inject_Z_mult in * by lia.
  apply Qmult_le_compat_r; [|lra]. rewrite <- Zle_Qle. apply rne_le.
  apply Qle_shift_div_r; done.
Qed.

Lemma round64_nonneg (x : Q) : 0 <= x -> 0 <= round64 x.
Proof.
  intros H. pose proof (round64_grid_ge x 0 (ulp_exp x) ltac:(lia)) as G.
  change (inject_Z 0) with 0 in G. rewrite Qmult_0_l in G. by apply G.
Qed.

Lemma round64_nonpos (x : Q) : x <= 0 -> round64 x <= 0.
Proof.
  intros H. pose proof (round64_grid_le x 0 (ulp_exp x) ltac:(lia)) as G.
  change (inject_Z 0) with 0 in G. rewrite Qmult_0_l in G. by apply G.
Qed.

Lemma Qabs_pos_lt (x : Q) : ~ x == 0 -> 0 < Qabs x.
Proof.
  intros H. apply Qabs_case; intros; destruct (Qeq_dec x 0); try done; lra.
Qed.

(** Below [2^k] the last place is at [2^(k - 53)] or lower. *)
Lemma ulp_exp_below (x : Q) (k : Z) :
  (-1021 <= k)%Z -> ~ x == 0 -> Qabs x < 2 ^ k -> (ulp_exp x <= k - 53)%Z.
Proof.
  intros Hk E Hx. unfold ulp_exp.
  pose proof (ilog2_lt (Qabs x) k (Qabs_pos_lt x E) Hx). lia.
Qed.

(** From [2^k] on the last place is at [2^(k - 52)] or higher. *)
Lemma ulp_exp_above (x : Q) (k : Z) :
  2 ^ k <= Qabs x -> (k - 52 <= ulp_exp x)%Z.
Proof.
  intros Hx. unfold ulp_exp. pose proof (ilog2_ge (Qabs x) k Hx). lia.
Qed.

(** Below [2^53] in magnitude rounding does not step over an integer. *)
Lemma round64_int_ge (x : Q) (n : Z) :
  Qabs x < 2 ^ 53 -> inject_Z n <= x -> inject_Z n <= round64 x.
Proof.
  intros Hx Hn. pose proof (round64_grid_ge x n 0) as G.
  change (2 ^ 0) with 1 in G. rewrite Qmult_1_r in G. apply G; [|done].
  intros E. pose proof (ulp_exp_below x 53 ltac:(lia) E Hx). lia.
Qed.

Lemma round64_int_le (x : Q) (n : Z) :
  Qabs x < 2 ^ 53 -> x <= inject_Z n -> round64 x <= inject_Z n.
Proof.
  intros Hx Hn. pose proof (round64_grid_le x n 0) as G.
  change (2 ^ 0) with 1 in G. rewrite Qmult_1_r in G. apply G; [|done].
  intros E. pose proof (ulp_exp_below x 53 ltac:(lia) E Hx). lia.
Qed.

(** An integer below [2^53] in magnitude is a double. *)
Lemma round64_int (x : Q) (n : Z) :
  Qabs x < 2 ^ 53 -> x == inject_Z n -> round64 x == inject_Z n.
Proof.
  intros Hx Hn. apply Qle_antisym.
  - apply round64_int_le; [done|]. rewrite Hn. apply Qle_refl.
  - apply round64_int_ge; [done|]. rewrite Hn. apply Qle_refl.
Qed.

(** The smallest positive double is [2^-1074]: rounding gives it or more
    from there on, and nothing between it and 0. *)
Lemma round64_ge_min (x : Q) : 2 ^ (-1074) <= x -> 2 ^ (-1074) <= round64 x.
Proof.
  intros H. pose proof (pow2_pos (-1074)) as Hp.
  assert (Qabs x == x) as Ha by (apply Qabs_pos; lra).
  destruct (Z.le_gt_cases (ilog2 (Qabs x) - 52) (-1074)) as [Hc|Hc].
  - pose proof (round64_grid_ge x 1 (-1074)) as G. rewrite Qmult_1_l in G.
    apply G; [|done]. intros _. unfold ulp_exp. lia.
  - destruct (ilog2_spec (Qabs x)) as [L _]; [lra|].
    set (k := ilog2 (Qabs x)) in *.
    pose proof (round64_grid_ge x 1 k) as G. rewrite Qmult_1_l in G.
    apply Qle_trans with (2 ^ k); [apply pow2_le; lia|].
    apply G; [intros _; unfold ulp_exp; fold k; lia|lra].
Qed.

Lemma round64_pos_min (x : Q) : 0 < round64 x -> 2 ^ (-1074) <= round64 x.
Proof.
  intros H. destruct (Qeq_dec x 0) as [E|E].
  { rewrite (round64_zero x E) in H. lra. }
  rewrite (round64_eq x E) in *. set (c := ulp_exp x) in *.
  set (n := rne _) in *. pose proof (pow2_pos c) as Hc.
  assert (1 <= n)%Z as Hn.
  { destruct (Z.le_gt_cases 1 n) as [|Hle]; [done|]. exfalso.
    assert (inject_Z n <= 0) as Hq.
    { change 0 with (inject_Z 0). rewrite <- Zle_Qle. lia. }
    pose proof (Qmult_le_compat_r _ _ _ Hq (Qlt_le_weak _ _ Hc)) as Hm.
    rewrite Qmult_0_l in Hm. lra. }
  apply Qle_trans with (2 ^ c); [apply pow2_le; unfold c, ulp_exp; lia|].
  rewrite <- (Qmult_1_l (2 ^ c)) at 1.
  apply Qmult_le_compat_r; [|lra].
  change 1 with (inject_Z 1). by rewrite <- Zle_Qle.
Qed.

(** *** Doubles that are not negative *)

(** A double that is a number and is not negative; one that is positive. *)
Definition nonneg (v : double) : Prop :=
  match v with Fin x => 0 <= x | PInf => True | _ => False end.
Definition positive (v : double) : Prop :=
  match v with Fin x => 2 ^ (-1074) <= x | PInf => True | _ => False end.

Lemma positive_nonneg (v : double) : positive v -> nonneg v.
Proof. pose proof (pow2_pos (-1074)). destruct v; simpl; try done. lra. Qed.

Lemma positive_dlt (v : double) : positive v -> dlt (Fin 0) v = true.
Proof.
  pose proof (pow2_pos (-1074)). destruct v; simpl; try done.
  intros Hv. apply ltb_lt. lra.
Qed.

Lemma to_double_cases (x : Q) :
  (to_double x = PInf /\ 2 ^ 1024 <= round64 x) \/
  (to_double x = NInf /\ round64 x <= - 2 ^ 1024) \/
  to_double x = Fin (round64 x).
Proof.
  unfold to_double. cbv zeta.
  destruct (Qle_bool (2 ^ 1024) (round64 x)) eqn:E1.
  { left. split; [done|]. by apply Qle_bool_iff. }
  destruct (Qle_bool (round64 x) (- 2 ^ 1024)) eqn:E2.
  { right. left. split; [done|]. by apply Qle_bool_iff. }
  by right; right.
Qed.

Lemma to_double_nonneg (x : Q) : 0 <= x -> nonneg (to_double x).
Proof.
  intros H. pose proof (round64_nonneg x H) as Hr.
  pose proof (pow2_pos 1024) as Hp.
  destruct (to_double_cases x) as [[-> _]|[[_ Hn]| ->]]; simpl; try done. lra.
Qed.

Lemma to_double_positive (x : Q) : 2 ^ (-1074) <= x -> positive (to_double x).
Proof.
  intros H. pose proof (round64_ge_min x H) as Hr.
  pose proof (pow2_pos 1024) as Hp. pose proof (pow2_pos (-1074)) as Hq.
  destruct (to_double_cases x) as [[-> _]|[[_ Hn]| ->]]; simpl; try done. lra.
Qed.

(** A double that compares above 0 is at least the smallest positive
    double when it results from a rounding. *)
Lemma to_double_above_zero (x : Q) :
  dlt (Fin 0) (to_double x) = true -> positive (to_double x).
Proof.
  destruct (to_double_cases x) as [[-> _]|[[-> _]| ->]]; simpl; try done.
  intros H. apply ltb_lt in H. by apply round64_pos_min.
Qed.

Lemma dadd_nonneg (a b : double) : nonneg a -> nonneg b -> nonneg (dadd a b).
Proof.
  destruct a as [x| | |], b as [y| | |]; simpl; try done.
  intros Hx Hy. apply to_double_nonneg. lra.
Qed.

Lemma dadd_positive (a b : double) :
  nonneg a -> positive b -> positive (dadd a b).
Proof.
  destruct a as [x| | |], b as [y| | |]; simpl; try done.
  intros Hx Hy. apply to_double_positive. lra.
Qed.

Lemma dsub_above_zero (a b : double) :
  dlt (Fin 0) (dsub a b) = true -> positive (dsub a b).
Proof.
  destruct a as [x| | |], b as [y| | |]; simpl; try done.
  apply to_double_above_zero.
Qed.

(** On doubles that are numbers the two comparisons are those of a total
    order. *)
Lemma dle_refl (a : double) : nonneg a -> dle a a = true.
Proof.
  destruct a as [x| | |]; simpl; try done. intros _.
  apply Qle_bool_iff. lra.
Qed.

Lemma dlt_dle (a b : double) : dlt a b = true -> dle a b = true.
Proof.
  destruct a as [x| | |], b as [y| | |]; simpl; try done.
  intros H. apply ltb_lt in H. apply Qle_bool_iff. lra.
Qed.

Lemma not_dlt_dle (a b : double) :
  nonneg a -> nonneg b -> dlt a b = false -> dle b a = true.
Proof.
  destruct a as [x| | |], b as [y| | |]; simpl; try done.
  intros _ _ H. apply ltb_ge in H. by apply Qle_bool_iff.
Qed.

Lemma dle_not_dlt (a b : double) : dle a b = true -> dlt b a = false.
Proof.
  destruct a as [x| | |], b as [y| | |]; simpl; try done.
  intros H. apply Qle_bool_iff in H. by apply ltb_ge.
Qed.

Lemma dlt_trans (a b c : double) :
  dlt a b = true -> dlt b c = true -> dlt a c = true.
Proof.
  destruct a as [x| | |], b as [y| | |], c as [z| | |]; simpl; try done.
  intros H1 H2. apply ltb_lt in H1, H2. apply ltb_lt. lra.
Qed.

Lemma dle_dlt_trans (a b c : double) :
  dle a b = true -> dlt b c = true -> dlt a c = true.
Proof.
  destruct a as [x| | |], b as [y| | |], c as [z| | |]; simpl; try done.
  intros H1 H2. apply Qle_bool_iff in H1. apply ltb_lt in H2. apply ltb_lt. lra.
Qed.

Lemma dle_trans (a b c : double) :
  dle a b = true -> dle b c = true -> dle a c = true.
Proof.
  destruct a as [x| | |], b as [y| | |], c as [z| | |]; simpl; try done.
  intros H1 H2. apply Qle_bool_iff in H1, H2. apply Qle_bool_iff. lra.
Qed.

(** *** Rounding and equal rationals *)

Lemma ltb_comp (a b c d : Q) : a == c -> b == d -> ltb a b = ltb c d.
Proof.
  intros H1 H2. destruct (ltb c d) eqn:E.
  - apply ltb_lt in E. apply ltb_lt. lra.
  - apply ltb_ge in E. apply ltb_ge. lra.
Qed.

Lemma Qle_bool_comp (a b c d : Q) :
  a == c -> b == d -> Qle_bool a b = Qle_bool c d.
Proof.
  intros H1 H2. destruct (Qle_bool c d) eqn:E.
  - apply Qle_bool_iff in E. apply Qle_bool_iff. lra.
  - destruct (Qle_bool a b) eqn:E'; [|done].
    apply Qle_bool_iff in E'. assert (c <= d) as H by lra.
    apply Qle_bool_iff in H. congruence.
Qed.

Lemma ilog2_comp (x y : Q) : x == y -> ilog2 x = ilog2 y.
Proof.
  intros H. unfold ilog2.
  rewrite (Qle_bool_comp 1 x 1 y) by (done || reflexivity).
  rewrite (Qfloor_comp _ _ H).
  by rewrite (Qceiling_comp (/ x) (/ y)) by (by rewrite H).
Qed.

Lemma rne_comp (x y : Q) : x == y -> rne x = rne y.
Proof.
  intros H. unfold rne. cbv zeta. rewrite (Qfloor_comp _ _ H).
  rewrite (ltb_comp (x - inject_Z (Qfloor y)) (1 # 2)
                    (y - inject_Z (Qfloor y)) (1 # 2)) by (lra || reflexivity).
  by rewrite (ltb_comp (1 # 2) (x - inject_Z (Qfloor y))
                       (1 # 2) (y - inject_Z (Qfloor y))) by (lra || reflexivity).
Qed.

Lemma round64_comp (x y : Q) : x == y -> round64 x = round64 y.
Proof.
  intros H. unfold round64.
  assert (Qeq_bool x 0 = Qeq_bool y 0) as ->.
  { destruct (Qeq_bool y 0) eqn:E.
    - apply Qeq_bool_iff in E. apply Qeq_bool_iff. lra.
    - destruct (Qeq_bool x 0) eqn:E'; [|done].
      apply Qeq_bool_iff in E'. assert (y == 0) as H' by lra.
      apply Qeq_bool_iff in H'. congruence. }
  destruct (Qeq_bool y 0); [done|]. cbv zeta.
  assert (ulp_exp x = ulp_exp y) as ->.
  { unfold ulp_exp. by rewrite (ilog2_comp (Qabs x) (Qabs y)) by (by rewrite H). }
  rewrite (rne_comp (x / 2 ^ ulp_exp y) (y / 2 ^ ulp_exp y)) by (by rewrite H).
  done.
Qed.

(** Truncation of an integer. *)
Lemma int_exact (x : Q) (n : Z) : x == inject_Z n -> int x = n.
Proof.
  intros H. unfold int. destruct (Qle_bool 0 x).
  - rewrite (Qfloor_comp _ _ H). apply Qfloor_Z.
  - rewrite (Qceiling_comp _ _ H). apply Qceiling_Z.
Qed.

Lemma int_comp (x y : Q) : x == y -> int x = int y.
Proof.
  intros H. unfold int. rewrite (Qle_bool_comp 0 x 0 y) by (done || reflexivity).
  by rewrite (Qfloor_comp _ _ H), (Qceiling_comp _ _ H).
Qed.

(** *** Float division and remainder by a positive integer *)

Lemma fmod_spec (x : Q) (D : Z) :
  0 <= x -> (0 < D)%Z ->
  fmod x (inject_Z D) == x - inject_Z D * inject_Z (Qfloor (x / inject_Z D)) /\
  0 <= fmod x (inject_Z D) /\ fmod x (inject_Z D) < inject_Z D.
Proof.
  intros Hx HD. assert (0 < inject_Z D) as Hd.
  { change 0 with (inject_Z 0). by rewrite <- Zlt_Qlt. }
  assert (0 <= x / inject_Z D) as Hq by (by apply Qle_shift_div_l; lra).
  unfold fmod. rewrite (int_nonneg _ Hq).
  pose proof (Qfloor_bounds (x / inject_Z D)) as [F1 F2].
  set (k := inject_Z (Qfloor (x / inject_Z D))) in *.
  assert (x == x / inject_Z D * inject_Z D) as Hxd.
  { field. lra. }
  split; [reflexivity|].
  assert (k * inject_Z D <= x / inject_Z D * inject_Z D) as G1.
  { apply Qmult_le_compat_r; lra. }
  assert (x / inject_Z D * inject_Z D < (k + 1) * inject_Z D) as G2.
  { apply Qmult_lt_compat_r; lra. }
  split; lra.
Qed.

Lemma mod_spec (x : Q) (D : Z) :
  0 <= x -> (0 < D)%Z ->
  mod_ x (inject_Z D) == x - inject_Z D * inject_Z (Qfloor (x / inject_Z D)).
Proof.
  intros Hx HD. destruct (fmod_spec x D Hx HD) as (E & M1 & M2).
  assert (0 < inject_Z D) as Hd.
  { change 0 with (inject_Z 0). by rewrite <- Zlt_Qlt. }
  unfold mod_. cbv zeta. destruct (Qeq_bool (fmod x (inject_Z D)) 0) eqn:Z0.
  - apply Qeq_bool_iff in Z0. lra.
  - assert (ltb (inject_Z D) 0 = false) as -> by (apply ltb_ge; lra).
    assert (ltb (fmod x (inject_Z D)) 0 = false) as -> by (by apply ltb_ge).
    exact E.
Qed.

(** Below [2^53] the quotient is exact: [x - mod] is an integer multiple
    of the divisor, and a double. *)
Lemma floordiv_spec (x : Q) (D : Z) :
  0 <= x -> x < 2 ^ 53 -> (0 < D)%Z ->
  floordiv x (inject_Z D) == inject_Z (Qfloor (x / inject_Z D)).
Proof.
  intros Hx Hb HD. destruct (fmod_spec x D Hx HD) as (E & M1 & M2).
  assert (1 <= inject_Z D) as Hd.
  { change 1 with (inject_Z 1). rewrite <- Zle_Qle. lia. }
  assert (0 <= x / inject_Z D) as Hq by (by apply Qle_shift_div_l; lra).
  pose proof (Qfloor_bounds (x / inject_Z D)) as [F1 F2].
  pose proof (Qfloor_nonneg _ Hq) as F0.
  set (k := Qfloor (x / inject_Z D)) in *.
  assert (0 <= inject_Z k) as Hk0.
  { change 0 with (inject_Z 0). by rewrite <- Zle_Qle. }
  assert (x / inject_Z D <= x) as Hqx.
  { apply Qle_shift_div_r; [lra|]. nra. }
  assert (0 <= inject_Z D * inject_Z k) as Hdk.
  { apply Qmult_le_0_compat; lra. }
  unfold floordiv. cbv zeta. set (m := fmod x (inject_Z D)) in *.
  assert (fsub x m == inject_Z (D * k)) as S1.
  { unfold fsub. apply round64_int.
    - apply Qabs_Qlt_condition. lra.
    - rewrite inject_Z_mult. lra. }
  assert (fdiv (fsub x m) (inject_Z D) == inject_Z k) as S2.
  { unfold fdiv.
    assert (fsub x m / inject_Z D == inject_Z k) as S.
    { rewrite S1, inject_Z_mult. field. lra. }
    apply round64_int; [|done]. apply Qabs_Qlt_condition. lra. }
  assert (ltb (inject_Z D) 0 = false) as -> by (apply ltb_ge; lra).
  assert (ltb m 0 = false) as -> by (by apply ltb_ge).
  rewrite andb_false_r.
  destruct (Qeq_bool (fdiv (fsub x m) (inject_Z D)) 0) eqn:Z0.
  { apply Qeq_bool_iff in Z0. lra. }
  rewrite (Qfloor_comp _ _ S2), Qfloor_Z.
  assert (fsub (fdiv (fsub x m) (inject_Z D)) (inject_Z k) = 0) as ->.
  { unfold fsub at 1. apply round64_zero. lra. }
  reflexivity.
Qed.

End Doubles.


(** ** Speaker assignment (workers/diarization_worker.py) *)

Section SpeakerAssignment.
Import Diarization.

Implicit Types (d : DSeg) (diar : list DSeg) (dict : SpeakerTimes).

Definition keys (dict : SpeakerTimes) : list string := map fst dict.

Lemma overlap_nonneg st en d : nonneg (overlap st en d).
Proof.
  unfold overlap. cbv zeta. unfold Py.dmax at 1.
  destruct (Py.dlt (Py.Fin 0) (Py.dsub _ _)) eqn:E.
  - by apply positive_nonneg, dsub_above_zero.
  - cbn. lra.
Qed.

Lemma overlap_positive st en d :
  overlaps st en d -> positive (overlap st en d).
Proof.
  unfold overlaps, overlap. cbv zeta. unfold Py.dmax at 1 3.
  destruct (Py.dlt (Py.Fin 0) (Py.dsub _ _)) eqn:E.
  - intros _. by apply dsub_above_zero.
  - intros H. cbn in H. by vm_compute in H.
Qed.

Lemma total_overlap_snoc diar d st en s :
  total_overlap (diar ++ [d]) st en s
  = if String.eqb s (d_speaker d) && Py.dlt (Py.Fin 0) (overlap st en d)
    then Py.dadd (total_overlap diar st en s) (overlap st en d)
    else total_overlap diar st en s.
Proof. unfold total_overlap. by rewrite fold_left_app. Qed.

Lemma total_overlap_nonneg diar st en s : nonneg (total_overlap diar st en s).
Proof.
  induction diar as [|d r IH] using rev_ind; [cbn; lra|].
  rewrite total_overlap_snoc. case_match; [|done].
  apply dadd_nonneg; [done|apply overlap_nonneg].
Qed.

Lemma total_overlap_pos diar st en d :
  d ∈ diar -> overlaps st en d ->
  positive (total_overlap diar st en (d_speaker d)).
Proof.
  induction diar as [|d0 r IH] using rev_ind; intros Hin Hpos.
  - by apply elem_of_nil in Hin.
  - rewrite total_overlap_snoc.
    destruct (String.eqb (d_speaker d) (d_speaker d0)
              && Py.dlt (Py.Fin 0) (overlap st en d0)) eqn:E.
    + apply andb_true_iff in E as [_ E].
      apply dadd_positive; [apply total_overlap_nonneg|].
      by apply overlap_positive.
    + apply elem_of_app in Hin as [Hin|Hin]; [by apply IH|].
      apply list_elem_of_singleton in Hin. subst d0.
      rewrite String.eqb_refl in E. unfold overlaps in Hpos.
      by rewrite Hpos in E.
Qed.

Lemma dict_get_set_eq dict k v def : dict_get (dict_set dict k v) k def = v.
Proof.
  induction dict as [|[k' v'] r IH]; simpl.
  - by rewrite String.eqb_refl.
  - destruct (String.eqb k k') eqn:E; simpl; rewrite E; [done|apply IH].
Qed.

Lemma dict_get_set_ne dict k k' v def :
  k <> k' -> dict_get (dict_set dict k v) k' def = dict_get dict k' def.
Proof.
  intros Hne. induction dict as [|[k0 v0] r IH]; simpl.
  - destruct (String.eqb k' k) eqn:E; [|done].
    apply String.eqb_eq in E. congruence.
  - destruct (String.eqb k k0) eqn:E; simpl.
    + apply String.eqb_eq in E. subst k0.
      destruct (String.eqb k' k) eqn:E'; [|done].
      apply String.eqb_eq in E'. congruence.
    + by rewrite IH.
Qed.

Lemma keys_dict_set dict k v :
  keys (dict_set dict k v) = if decide (k ∈ keys dict) then keys dict
                             else keys dict ++ [k].
Proof.
  induction dict as [|[k0 v0] r IH].
  - case_decide as H; [by apply elem_of_nil in H|done].
  - cbn [dict_set]. destruct (String.eqb k k0) eqn:E.
    + apply String.eqb_eq in E. subst k0.
      clear IH. case_decide as H; [reflexivity|]. exfalso. apply H. by left.
    + apply String.eqb_neq in E. change (keys ((k0, v0) :: dict_set r k v))
        with (k0 :: keys (dict_set r k v)). rewrite IH. clear IH.
      change (keys ((k0, v0) :: r)) with (k0 :: keys r).
      destruct (decide (k ∈ keys r)) as [Hin|Hnin].
      * rewrite decide_True; [done|by right].
      * rewrite decide_False; [done|].
        intros [?|?]%elem_of_cons; done.
Qed.

Lemma dict_get_notin dict k def : k ∉ keys dict -> dict_get dict k def = def.
Proof.
  induction dict as [|[k0 v0] r IH]; simpl; [done|].
  intros Hnin. apply not_elem_of_cons in Hnin as [Hne Hnin].
  destruct (String.eqb k k0) eqn:E; [|by apply IH].
  apply String.eqb_eq in E. done.
Qed.

Lemma dict_get_in dict k v def :
  NoDup (keys dict) -> (k, v) ∈ dict -> dict_get dict k def = v.
Proof.
  induction dict as [|[k0 v0] r IH]; simpl; intros Hnd Hin.
  - by apply elem_of_nil in Hin.
  - apply NoDup_cons in Hnd as [Hk0 Hnd].
    apply elem_of_cons in Hin as [Heq|Hin].
    + injection Heq as -> ->. by rewrite String.eqb_refl.
    + destruct (String.eqb k k0) eqn:E; [|by apply IH].
      apply String.eqb_eq in E. subst k0. exfalso. apply Hk0.
      apply list_elem_of_fmap. by exists (k, v).
Qed.

(** What the accumulation loop has established after a prefix of the
    diarization list. *)
Record loop_inv (st en : Q) diar dict : Prop := {
  inv_value : forall s,
    dict_get dict s (Py.Fin 0) = total_overlap diar st en s;
  inv_nodup : NoDup (keys dict);
  inv_seen : forall d, d ∈ diar -> overlaps st en d ->
                       d_speaker d ∈ keys dict;
  inv_order : forall ks1 k ks2, keys dict = ks1 ++ k :: ks2 ->
    exists pre d post, diar = pre ++ d :: post /\ d_speaker d = k /\
      overlaps st en d /\
      forall d', d' ∈ pre -> overlaps st en d' -> d_speaker d' ∈ ks1
}.

Lemma loop_inv_nil st en : loop_inv st en [] [].
Proof.
  split; simpl.
  - done.
  - constructor.
  - intros d Hd. by apply elem_of_nil in Hd.
  - intros ks1 k ks2 H. by destruct ks1.
Qed.

Lemma loop_inv_step st en diar dict d :
  loop_inv st en diar dict ->
  loop_inv st en (diar ++ [d]) (accumulate st en dict d).
Proof.
  intros [Hval Hnd Hseen Hord]. unfold accumulate. cbv zeta.
  destruct (Py.dlt (Py.Fin 0) (overlap st en d)) eqn:Hov.
  - split.
    + intros s. rewrite total_overlap_snoc, Hov, andb_true_r.
      destruct (String.eqb s (d_speaker d)) eqn:E.
      * apply String.eqb_eq in E. subst s.
        by rewrite dict_get_set_eq, Hval.
      * apply String.eqb_neq in E.
        rewrite dict_get_set_ne by done. apply Hval.
    + rewrite keys_dict_set. case_decide; [done|].
      apply NoDup_app. split_and!; [done| |apply NoDup_singleton].
      intros x Hx ->%list_elem_of_singleton. done.
    + intros d' [Hd'|Hd']%elem_of_app Hpos; rewrite keys_dict_set.
      * case_decide; [by apply Hseen|].
        apply elem_of_app. left. by apply Hseen.
      * apply list_elem_of_singleton in Hd'. subst d'.
        case_decide; [done|]. apply elem_of_app. right. by left.
    + intros ks1 k ks2. rewrite keys_dict_set. case_decide as Hin.
      * intros Hk. destruct (Hord _ _ _ Hk) as (pre & d0 & post & -> & ? & ? & ?).
        exists pre, d0, (post ++ [d]). by rewrite <- app_assoc.
      * intros Hk. destruct ks2 as [|k2 ks2 _] using rev_ind.
        -- apply app_inj_tail in Hk as [<- <-].
           exists diar, d, []. split_and!; [done|done|done|].
           intros d' Hd' Hpos. by apply Hseen.
        -- rewrite app_comm_cons, app_assoc in Hk.
           apply app_inj_tail in Hk as [Hk _].
           destruct (Hord _ _ _ Hk) as (pre & d0 & post & -> & ? & ? & ?).
           exists pre, d0, (post ++ [d]). by rewrite <- app_assoc.
  - split.
    + intros s. rewrite total_overlap_snoc, Hov, andb_false_r. apply Hval.
    + done.
    + intros d' [Hd'|Hd']%elem_of_app Hpos; [by apply Hseen|].
      apply list_elem_of_singleton in Hd'. subst d'.
      unfold overlaps in Hpos. congruence.
    + intros ks1 k ks2 Hk.
      destruct (Hord _ _ _ Hk) as (pre & d0 & post & -> & ? & ? & ?).
      exists pre, d0, (post ++ [d]). by rewrite <- app_assoc.
Qed.

Lemma loop_inv_fold st en diar :
  loop_inv st en diar (fold_left (accumulate st en) diar []).
Proof.
  induction diar as [|d diar IH] using rev_ind.
  - apply loop_inv_nil.
  - rewrite fold_left_app. simpl. by apply loop_inv_step.
Qed.

(** [max] returns the first entry among those with the largest value. *)
Lemma max_by_value_first pre best mid rest :
  (forall kv, kv ∈ best :: rest -> nonneg (snd kv)) ->
  (forall kv, kv ∈ pre -> Py.dlt (snd kv) (snd best) = true) ->
  (forall kv, kv ∈ mid -> Py.dle (snd kv) (snd best) = true) ->
  exists l1 v l2,
    pre ++ best :: mid ++ rest = l1 ++ (max_by_value best rest, v) :: l2 /\
    (forall kv, kv ∈ l1 -> Py.dlt (snd kv) v = true) /\
    (forall kv, kv ∈ l2 -> Py.dle (snd kv) v = true).
Proof.
  revert pre best mid.
  induction rest as [|kv r IH]; intros pre best mid Hnn Hpre Hmid; simpl.
  - exists pre, (snd best), mid. rewrite app_nil_r.
    by destruct best.
  - assert (nonneg (snd best)) as Nb by (apply Hnn; by left).
    assert (nonneg (snd kv)) as Nk by (apply Hnn; right; by left).
    destruct (Py.dlt (snd best) (snd kv)) eqn:E.
    + destruct (IH (pre ++ best :: mid) kv []) as (l1 & v & l2 & Heq & H1 & H2).
      * intros x Hx. apply Hnn. by right.
      * intros x [Hx|Hx]%elem_of_app.
        -- eapply dlt_trans; [by apply Hpre|done].
        -- apply elem_of_cons in Hx as [->|Hx]; [done|].
           eapply dle_dlt_trans; [by apply Hmid|done].
      * intros x Hx. by apply elem_of_nil in Hx.
      * exists l1, v, l2. split; [|done].
        rewrite <- Heq. simpl. by rewrite <- app_assoc.
    + destruct (IH pre best (mid ++ [kv])) as (l1 & v & l2 & Heq & H1 & H2).
      * intros x [->|Hx]%elem_of_cons; [done|]. apply Hnn. right. by right.
      * done.
      * intros x [Hx|Hx]%elem_of_app; [by apply Hmid|].
        apply list_elem_of_singleton in Hx. subst x.
        by apply not_dlt_dle.
      * exists l1, v, l2. split; [|done].
        rewrite <- Heq. by rewrite <- app_assoc.
Qed.

Lemma find_speaker_some st en diar s :
  find_speaker_for_segment diar st en = Some s ->
  dominant diar st en s /\ first_seen diar st en s.
Proof.
  unfold find_speaker_for_segment. intros Hf.
  assert (exists kv r, fold_left (accumulate st en) diar [] = kv :: r /\
                       s = max_by_value kv r) as (kv & r & Hdict & ->).
  { destruct diar; [done|].
    destruct (fold_left _ _ _) as [|kv r]; [done|].
    injection Hf as <-. by eexists _, _. }
  clear Hf. pose proof (loop_inv_fold st en diar) as [Hval Hnd Hseen Hord].
  rewrite Hdict in Hval, Hnd, Hseen, Hord.
  assert (Hget : forall k w, (k, w) ∈ kv :: r -> w = total_overlap diar st en k).
  { intros k w Hin. rewrite <- Hval. by rewrite (dict_get_in _ _ w). }
  destruct (max_by_value_first [] kv [] r) as (l1 & v & l2 & Heq & H1 & H2).
  { intros [k w] Hin. rewrite (Hget _ _ Hin). apply total_overlap_nonneg. }
  { intros x Hx. by apply elem_of_nil in Hx. }
  { intros x Hx. by apply elem_of_nil in Hx. }
  simpl in Heq. set (s := max_by_value kv r) in *.
  assert (Hs : v = total_overlap diar st en s).
  { apply Hget. rewrite Heq. apply elem_of_app. right. by left. }
  assert (Hkeys : keys (kv :: r) = keys l1 ++ s :: keys l2).
  { rewrite Heq. unfold keys. by rewrite map_app. }
  destruct (Hord _ _ _ Hkeys) as (pre & d & post & Hdiar & Hsp & Hpos & Hpre).
  assert (positive (total_overlap diar st en s)) as Hp.
  { rewrite <- Hsp. apply total_overlap_pos; [|done].
    rewrite Hdiar. apply elem_of_app. right. by left. }
  split; [split|].
  - by apply positive_dlt.
  - intros s'. destruct (decide (s' ∈ keys (kv :: r))) as [Hin|Hnin].
    + apply list_elem_of_fmap in Hin as ([k w] & -> & Hin). simpl.
      rewrite <- (Hget _ _ Hin), <- Hs.
      rewrite Heq in Hin. apply elem_of_app in Hin as [Hin|Hin].
      * apply dlt_dle. apply (H1 _ Hin).
      * apply elem_of_cons in Hin as [Hin|Hin].
        -- injection Hin as _ ->. apply dle_refl.
           rewrite Hs. by apply positive_nonneg.
        -- apply (H2 _ Hin).
    + rewrite <- (Hval s'), (dict_get_notin _ _ _ Hnin).
      by apply dlt_dle, positive_dlt.
  - exists pre, d, post. split_and!; [done|done|done|].
    intros d' Hd' Hpos'.
    specialize (Hpre _ Hd' Hpos').
    apply list_elem_of_fmap in Hpre as ([k w] & Hk & Hin). simpl in Hk. subst k.
    assert ((d_speaker d', w) ∈ kv :: r) as Hin'.
    { rewrite Heq. apply elem_of_app. by left. }
    specialize (H1 _ Hin). simpl in H1.
    by rewrite (Hget _ _ Hin'), Hs in H1.
Qed.

Lemma find_speaker_none st en diar :
  find_speaker_for_segment diar st en = None <-> no_overlap diar st en.
Proof.
  unfold find_speaker_for_segment, no_overlap. split.
  - intros Hf d Hd Hpos.
    pose proof (loop_inv_fold st en diar) as [_ _ Hseen _].
    destruct diar as [|d0 diar]; [by apply elem_of_nil in Hd|].
    destruct (fold_left _ _ _) as [|kv r]; [|done].
    specialize (Hseen _ Hd Hpos). by apply elem_of_nil in Hseen.
  - intros Hno. destruct diar as [|d0 diar]; [done|].
    pose proof (loop_inv_fold st en (d0 :: diar)) as [Hval _ _ Hord].
    destruct (fold_left _ _ _) as [|[k w] r]; [done|]. exfalso.
    destruct (Hord [] k (keys r) eq_refl) as (pre & d & post & Hd & _ & Hpos & _).
    apply (Hno d); [|done].
    rewrite Hd. apply elem_of_app. right. by left.
Qed.

(** The diarization result on which two speakers tie: [B] speaks during
    the first second, [A] during the next one. *)
Definition tie_diarization : list DSeg :=
  [ {| d_start := 0; d_end := 1; d_speaker := "B" |};
    {| d_start := 1; d_end := 2; d_speaker := "A" |} ].

(** C1, as the specification states it, fails: on the segment [[0, 2]] the
    speakers [A] and [B] both overlap for one second, the function returns
    [B] (the first one met), and [A] is the lexicographically lower label. *)
Lemma find_speaker_tie_not_lexicographic :
  find_speaker_for_segment tie_diarization 0 2 = Some "B"%string /\
  total_overlap tie_diarization 0 2 "A" = total_overlap tie_diarization 0 2 "B" /\
  String.leb "B" "A" = false /\
  ~ assignment_law_lex tie_diarization 0 2
      (find_speaker_for_segment tie_diarization 0 2).
Proof.
  assert (Hr : find_speaker_for_segment tie_diarization 0 2 = Some "B"%string)
    by (by vm_compute).
  assert (Ht : total_overlap tie_diarization 0 2 "A"
               = total_overlap tie_diarization 0 2 "B") by (by vm_compute).
  split_and!; [done|done|done|].
  rewrite Hr. intros [_ Hlow]. specialize (Hlow "A"%string Ht). done.
Qed.

(** The accumulated overlap is a sum of doubles, not the exact sum: [A]
    speaks for half a second and [B] for 0.1 s and then 0.4 s.  The doubles
    0.1 and 0.4 add up to exactly 0.5, so the two speakers tie and [A], met
    first, is returned, although the exact sum of [B]'s two overlaps is the
    larger one. *)
Definition rounding_diarization : list DSeg :=
  [ {| d_start := 0; d_end := 1 # 2; d_speaker := "A" |};
    {| d_start := 0; d_end := 1 # 10; d_speaker := "B" |};
    {| d_start := 0; d_end := 4 # 10; d_speaker := "B" |} ].

Lemma find_speaker_sums_round :
  find_speaker_for_segment rounding_diarization 0 1 = Some "A"%string /\
  total_overlap rounding_diarization 0 1 "A" = Py.Fin (1 # 2) /\
  total_overlap rounding_diarization 0 1 "B" = Py.Fin (1 # 2) /\
  exact_total_overlap rounding_diarization 0 1 "A"
  < exact_total_overlap rounding_diarization 0 1 "B".
Proof. split_and!; by vm_compute. Qed.

(** C1 (amended): the speaker assigned to a segment is one whose
    accumulated overlap with [[start, end]] is positive and is the greatest
    among all speakers, the accumulated overlap of a speaker being the sum
    of the overlaps of its intervals taken in double precision in the order
    of the diarization result; among the speakers with that greatest value
    the one whose first overlapping interval comes first in the diarization
    result is chosen: every speaker that overlaps the segment earlier has a
    strictly smaller accumulated overlap; and no speaker is assigned
    exactly when no interval overlaps the segment. *)
Theorem find_speaker_assignment_law (diar : list DSeg) (st en : Q) :
  assignment_law_first diar st en (find_speaker_for_segment diar st en) /\
  (find_speaker_for_segment diar st en = None <-> no_overlap diar st en).
Proof.
  split; [|apply find_speaker_none].
  destruct (find_speaker_for_segment diar st en) as [s|] eqn:E; simpl.
  - by apply find_speaker_some.
  - by apply find_speaker_none.
Qed.

End SpeakerAssignment.

(** ** Subtitle timestamps (api/jobs.py, workers/stt_worker.py) *)

Section Timestamps.
Import Subtitles.

(** *** The fields computed by the code *)

(** The bound of the doubles considered, and some numbers below it. *)
Lemma below_bound (n : Z) : (n <= 2 ^ 52)%Z -> inject_Z n < 2 ^ 53.
Proof.
  intros H. apply Qle_lt_trans with (inject_Z (2 ^ 52)).
  - by rewrite <- Zle_Qle.
  - by vm_compute.
Qed.

Lemma hours_field (d : Q) :
  0 <= d -> d < 2 ^ 53 -> Py.int (Py.floordiv d 3600) = hours_of d.
Proof.
  intros H0 Hb. apply int_exact. by apply (floordiv_spec d 3600).
Qed.

Lemma minutes_field (d : Q) :
  0 <= d -> Py.int (Py.floordiv (Py.mod_ d 3600) 60) = minutes_of d.
Proof.
  intros H0. pose proof (mod_spec d 3600 H0 ltac:(lia)) as E.
  destruct (fmod_spec d 3600 H0 ltac:(lia)) as (E' & M1 & M2).
  change (inject_Z 3600) with 3600 in *.
  pose proof (below_bound 3600 ltac:(lia)) as B.
  change (inject_Z 3600) with 3600 in B.
  apply int_exact. etransitivity.
  - apply (floordiv_spec (Py.mod_ d 3600) 60); [lra|lra|lia].
  - unfold minutes_of. change (inject_Z 60) with 60.
    assert (Py.mod_ d 3600 / 60
            == (d - 3600 * inject_Z (Qfloor (d / 3600))) / 60) as H
      by (by rewrite E).
    by rewrite (Qfloor_comp _ _ H).
Qed.

Lemma seconds_field (d : Q) : 0 <= d -> Py.int (Py.mod_ d 60) = seconds_of d.
Proof.
  intros H0. pose proof (mod_spec d 60 H0 ltac:(lia)) as E.
  destruct (fmod_spec d 60 H0 ltac:(lia)) as (E' & M1 & M2).
  change (inject_Z 60) with 60 in *.
  rewrite (int_comp _ _ E). apply Py.int_nonneg. lra.
Qed.

Lemma millis_field (d : Q) :
  0 <= d -> Py.int (Py.fmul (Py.mod_ d 1) 1000) = millis_shown d.
Proof.
  intros H0. pose proof (mod_spec d 1 H0 ltac:(lia)) as E.
  change (inject_Z 1) with 1 in *.
  assert (Qfloor (d / 1) = Qfloor d) as F.
  { apply Qfloor_comp. field. }
  rewrite F in E. unfold millis_shown, Py.fmul. f_equal.
  apply round64_comp. rewrite E. ring.
Qed.

(** The fraction of a second times 1000 lies in [[0, 1000)]. *)
Lemma fraction_bounds (d : Q) :
  0 <= (d - inject_Z (Qfloor d)) * 1000 /\
  (d - inject_Z (Qfloor d)) * 1000 < 1000.
Proof. pose proof (Py.Qfloor_bounds d) as [H1 H2]. split; lra. Qed.

(** Rounding the product moves the milliseconds up by one at most. *)
Lemma millis_shown_bracket (d : Q) :
  (millis_of d <= millis_shown d <= millis_of d + 1)%Z.
Proof.
  unfold millis_of, millis_shown. destruct (fraction_bounds d) as [P0 P1].
  set (p := (d - inject_Z (Qfloor d)) * 1000) in *.
  pose proof (below_bound 1000 ltac:(lia)) as B.
  change (inject_Z 1000) with 1000 in B.
  assert (Qabs p < 2 ^ 53) as Hp by (apply Qabs_Qlt_condition; lra).
  pose proof (Py.Qfloor_bounds p) as [F1 F2].
  pose proof (round64_int_ge p (Qfloor p) Hp F1) as R1.
  pose proof (round64_int_le p (Qfloor p + 1) Hp) as R2.
  rewrite inject_Z_plus in R2. change (inject_Z 1) with 1 in R2.
  specialize (R2 ltac:(lra)).
  pose proof (Py.Qfloor_nonneg p P0) as Fp.
  assert (0 <= Py.round64 p) as R0 by (by apply round64_nonneg).
  rewrite (Py.int_nonneg _ R0). split.
  - apply Qfloor_resp_le in R1. by rewrite Qfloor_Z in R1.
  - assert (Py.round64 p <= inject_Z (Qfloor p + 1)) as R3.
    { rewrite inject_Z_plus. change (inject_Z 1) with 1. lra. }
    apply Qfloor_resp_le in R3. by rewrite Qfloor_Z in R3.
Qed.

(** A double of one half or more is a multiple of [2^-53]. *)
Lemma double_grid (t : Q) :
  0 <= t -> 1 # 2 < Py.round64 t ->
  exists M : Z, Py.round64 t * 9007199254740992 == inject_Z M.
Proof.
  intros H0 Hd.
  assert (~ t == 0) as E.
  { intros E. rewrite (round64_zero t E) in Hd. lra. }
  assert (1 # 2 <= t) as Ht.
  { destruct (Qlt_le_dec t (1 # 2)) as [Hlt|]; [exfalso|done].
    pose proof (round64_grid_le t 1 (-1)) as G.
    change (inject_Z 1 * 2 ^ (-1)) with (1 * (1 # 2)) in G.
    assert (Py.round64 t <= 1 * (1 # 2)); [|lra]. apply G; [|lra].
    intros _. assert (Py.ulp_exp t <= -1 - 53)%Z; [|lia].
    apply ulp_exp_below; [lia|done|].
    change (2 ^ (-1)) with (1 # 2). apply Qabs_Qlt_condition. lra. }
  assert (-1 - 52 <= Py.ulp_exp t)%Z as Hc.
  { apply ulp_exp_above. change (2 ^ (-1)) with (1 # 2).
    apply Qabs_ge. exact Ht. }
  pose proof (round64_eq t E) as R.
  set (c := Py.ulp_exp t) in *. set (N := Py.rne _) in *.
  exists (N * 2 ^ (c + 53))%Z.
  rewrite R, inject_Z_mult, <- pow2_inject, pow2_add by lia.
  change (2 ^ 53) with 9007199254740992. ring.
Qed.

(** The milliseconds of a double take three digits. *)
Lemma millis_shown_range (t : Q) :
  0 <= t -> (0 <= millis_shown (Py.round64 t) <= 999)%Z.
Proof.
  intros H0. pose proof (round64_nonneg t H0) as D0.
  set (d := Py.round64 t) in *. unfold millis_shown.
  destruct (fraction_bounds d) as [P0 P1].
  set (f := d - inject_Z (Qfloor d)) in *. set (p := f * 1000) in *.
  pose proof (below_bound 1000 ltac:(lia)) as B.
  change (inject_Z 1000) with 1000 in B.
  assert (Qabs p < 2 ^ 53) as Hp by (apply Qabs_Qlt_condition; lra).
  assert (0 <= Py.round64 p) as R0 by (by apply round64_nonneg).
  rewrite (Py.int_nonneg _ R0). split; [by apply Py.Qfloor_nonneg|].
  assert (Py.round64 p < 1000) as R1; [|apply Py.Qfloor_lt in R1; lia].
  destruct (Qlt_le_dec p 512) as [Hlt|Hge].
  { pose proof (round64_int_le p 512 Hp) as R.
    change (inject_Z 512) with 512 in R. lra. }
  assert (~ p == 0) as E by lra.
  pose proof (Py.Qfloor_bounds d) as [F1 F2].
  assert (0 <= inject_Z (Qfloor d)) as F0.
  { change 0 with (inject_Z 0). rewrite <- Zle_Qle.
    by apply Py.Qfloor_nonneg. }
  destruct (double_grid t H0) as (M & HM); [fold d; unfold p, f in Hge; lra|].
  fold d in HM.
  assert (f * 9007199254740992
          == inject_Z (M - Qfloor d * 9007199254740992)) as HF.
  { unfold f, Z.sub. rewrite inject_Z_plus, inject_Z_opp, inject_Z_mult, <- HM.
    change (inject_Z 9007199254740992) with 9007199254740992. ring. }
  assert (M - Qfloor d * 9007199254740992 < 9007199254740992)%Z as HZ.
  { rewrite Zlt_Qlt, <- HF.
    change (inject_Z 9007199254740992) with 9007199254740992.
    unfold f. lra. }
  assert (f * 9007199254740992 <= 9007199254740991) as Hf.
  { rewrite HF. change 9007199254740991 with (inject_Z 9007199254740991).
    rewrite <- Zle_Qle. lia. }
  assert (Py.ulp_exp p = (-43)%Z) as Hc.
  { unfold Py.ulp_exp.
    assert (Qabs p == p) as Ha by (apply Qabs_pos; lra).
    assert (9 <= Py.ilog2 (Qabs p))%Z.
    { apply ilog2_ge. change (2 ^ 9) with 512. lra. }
    assert (Py.ilog2 (Qabs p) < 10)%Z; [|lia].
    apply ilog2_lt; [lra|]. change (2 ^ 10) with 1024. lra. }
  rewrite (round64_eq p E), Hc.
  change (2 ^ (-43)) with (1 # 8796093022208).
  set (n := Py.rne _).
  assert (n < 8796093022208000)%Z as Hn.
  { apply rne_below_half.
    change (inject_Z 8796093022208000) with 8796093022208000.
    unfold Qdiv. change (/ (1 # 8796093022208)) with 8796093022208.
    unfold p. lra. }
  assert (inject_Z n <= 8796093022207999) as Hq.
  { change 8796093022207999 with (inject_Z 8796093022207999).
    rewrite <- Zle_Qle. lia. }
  lra.
Qed.

Lemma hours_range (t : Q) : 0 <= t -> (0 <= hours_of t)%Z.
Proof.
  intros Ht. apply Py.Qfloor_nonneg. change (t / 3600) with (t * (1 # 3600)). lra.
Qed.

Lemma hours_small (t : Q) : t < 360000 -> (hours_of t < 100)%Z.
Proof.
  intros Ht. apply Py.Qfloor_lt.
  change (t / 3600) with (t * (1 # 3600)). change (inject_Z 100) with 100. lra.
Qed.

Lemma minutes_range (t : Q) : (0 <= minutes_of t < 60)%Z.
Proof.
  unfold minutes_of. pose proof (Py.Qfloor_bounds (t / 3600)) as [H1 H2].
  change (t / 3600) with (t * (1 # 3600)) in *.
  set (r := t - 3600 * inject_Z (Qfloor (t * (1 # 3600)))).
  assert (0 <= r /\ r < 3600) as [Hr1 Hr2] by (unfold r; lra).
  change (r / 60) with (r * (1 # 60)). split.
  - apply Py.Qfloor_nonneg. lra.
  - apply Py.Qfloor_lt. change (inject_Z 60) with 60. lra.
Qed.

Lemma seconds_range (t : Q) : (0 <= seconds_of t < 60)%Z.
Proof.
  unfold seconds_of. pose proof (Py.Qfloor_bounds (t / 60)) as [H1 H2].
  change (t / 60) with (t * (1 # 60)) in *. split.
  - apply Py.Qfloor_nonneg. lra.
  - apply Py.Qfloor_lt. change (inject_Z 60) with 60. lra.
Qed.

Lemma millis_range (t : Q) : (0 <= millis_of t < 1000)%Z.
Proof.
  unfold millis_of. pose proof (Py.Qfloor_bounds t) as [H1 H2]. split.
  - apply Py.Qfloor_nonneg. lra.
  - apply Py.Qfloor_lt. change (inject_Z 1000) with 1000. lra.
Qed.

(** The minutes and seconds fields are the whole minutes and the whole
    seconds of [t], reduced modulo 60. *)
Lemma minutes_of_alt (t : Q) : minutes_of t = (Qfloor (t / 60) mod 60)%Z.
Proof.
  pose proof (minutes_range t) as Hr. unfold minutes_of in *.
  set (h := Qfloor (t / 3600)) in *.
  set (m := Qfloor ((t - 3600 * inject_Z h) / 60)) in *.
  apply (Z.mod_unique_pos _ _ h); [lia|].
  assert (Qfloor (t / 60) = 60 * h + m)%Z as ->; [|lia].
  pose proof (Py.Qfloor_bounds ((t - 3600 * inject_Z h) / 60)) as [H1 H2].
  fold m in H1, H2.
  change ((t - 3600 * inject_Z h) / 60)
    with ((t - 3600 * inject_Z h) * (1 # 60)) in *.
  pose proof (Py.Qfloor_bounds (t / 60)) as [H3 H4].
  change (t / 60) with (t * (1 # 60)) in *.
  set (q := Qfloor (t * (1 # 60))) in *.
  assert (inject_Z q < inject_Z (60 * h + m) + 1) as Ha.
  { rewrite inject_Z_plus, inject_Z_mult. change (inject_Z 60) with 60. lra. }
  assert (inject_Z (60 * h + m) < inject_Z q + 1) as Hb.
  { rewrite inject_Z_plus, inject_Z_mult. change (inject_Z 60) with 60. lra. }
  change 1 with (inject_Z 1) in Ha, Hb.
  rewrite <- inject_Z_plus, <- Zlt_Qlt in Ha, Hb. lia.
Qed.

Lemma seconds_of_alt (t : Q) : seconds_of t = (Qfloor t mod 60)%Z.
Proof.
  pose proof (seconds_range t) as Hr. unfold seconds_of in *.
  set (m := Qfloor (t / 60)) in *.
  set (s := Qfloor (t - 60 * inject_Z m)) in *.
  apply (Z.mod_unique_pos _ _ m); [lia|].
  pose proof (Py.Qfloor_bounds (t - 60 * inject_Z m)) as [H1 H2].
  fold s in H1, H2.
  pose proof (Py.Qfloor_bounds t) as [H3 H4].
  set (q := Qfloor t) in *.
  assert (inject_Z q < inject_Z (60 * m + s) + 1) as Ha.
  { rewrite inject_Z_plus, inject_Z_mult. change (inject_Z 60) with 60. lra. }
  assert (inject_Z (60 * m + s) < inject_Z q + 1) as Hb.
  { rewrite inject_Z_plus, inject_Z_mult. change (inject_Z 60) with 60. lra. }
  change 1 with (inject_Z 1) in Ha, Hb.
  rewrite <- inject_Z_plus, <- Zlt_Qlt in Ha, Hb. lia.
Qed.

(** *** Decimal printing *)

Lemma string_length_app (a b : string) :
  String.length (a +:+ b) = (String.length a + String.length b)%nat.
Proof. induction a as [|c a IH]; simpl; [done|by rewrite IH]. Qed.

Lemma zeros_length (n : nat) : String.length (zeros n) = n.
Proof. induction n as [|n IH]; simpl; [done|by rewrite IH]. Qed.

Lemma all_digits_app (a b : string) :
  all_digits (a +:+ b) = all_digits a && all_digits b.
Proof.
  induction a as [|c a IH]; simpl; [done|]. by rewrite IH, andb_assoc.
Qed.

Lemma all_digits_zeros (n : nat) : all_digits (zeros n) = true.
Proof. induction n as [|n IH]; simpl; done. Qed.

Lemma all_digits_uint (d : Decimal.uint) :
  all_digits (NilEmpty.string_of_uint d) = true.
Proof. induction d; simpl; done. Qed.

Lemma decimal_value_from_app (acc : nat) (a b : string) :
  decimal_value_from acc (a +:+ b)
  = decimal_value_from (decimal_value_from acc a) b.
Proof. revert acc. induction a as [|c a IH]; intros acc; simpl; done. Qed.

Lemma decimal_value_zeros (n : nat) : decimal_value_from 0 (zeros n) = 0%nat.
Proof. induction n as [|n IH]; simpl; done. Qed.

Lemma decimal_value_uint (d : Decimal.uint) (acc : nat) :
  decimal_value_from acc (NilEmpty.string_of_uint d) = Nat.of_uint_acc d acc.
Proof.
  revert acc. induction d; intros acc; cbn [NilEmpty.string_of_uint
    decimal_value_from Nat.of_uint_acc]; [done|..];
    rewrite IHd, Nat.tail_mul_spec; f_equal; simpl; lia.
Qed.

Lemma string_of_uint_to_uint (n : nat) :
  NilZero.string_of_uint (Nat.to_uint n) = NilEmpty.string_of_uint (Nat.to_uint n).
Proof.
  unfold NilZero.string_of_uint.
  destruct (Nat.to_uint n) eqn:E; try done.
  pose proof (Unsigned.of_to n) as H. rewrite E in H. simpl in H. subst n. done.
Qed.

Lemma digits_of_nat (n : nat) :
  all_digits (digits_of (Z.of_nat n)) = true /\
  decimal_value (digits_of (Z.of_nat n)) = n.
Proof.
  unfold digits_of, decimal_value. rewrite Zabs2Nat.id, string_of_uint_to_uint.
  split; [apply all_digits_uint|].
  rewrite decimal_value_uint. apply Unsigned.of_to.
Qed.

Lemma format_0d_field (width n : nat) :
  field false width n (format_0d width (Z.of_nat n)).
Proof.
  unfold field, format_0d. destruct (digits_of_nat n) as [Hd Hv].
  assert ((Z.of_nat n <? 0)%Z = false) as -> by lia.
  rewrite all_digits_app, all_digits_zeros, Hd. split_and!; [done| |].
  - unfold decimal_value in *.
    by rewrite decimal_value_from_app, decimal_value_zeros.
  - rewrite string_length_app, zeros_length. lia.
Qed.

(** Numbers below [bound] print with at most [width] digits; checked by
    running the printer on each of them. *)
Definition short_below (width bound : nat) : bool :=
  forallb (fun n => (String.length (digits_of (Z.of_nat n)) <=? width)%nat)
          (seq 0 bound).

Lemma short_below_spec (width bound n : nat) :
  short_below width bound = true -> (n < bound)%nat ->
  (String.length (digits_of (Z.of_nat n)) <= width)%nat.
Proof.
  unfold short_below. rewrite forallb_forall. intros H Hn.
  apply Nat.leb_le, H, in_seq. lia.
Qed.

Lemma format_0d_field_exact (width bound n : nat) :
  short_below width bound = true -> (n < bound)%nat ->
  field true width n (format_0d width (Z.of_nat n)).
Proof.
  intros Hs Hn. destruct (format_0d_field width n) as (Hd & Hv & _).
  split_and!; [done|done|].
  unfold format_0d. assert ((Z.of_nat n <? 0)%Z = false) as -> by lia.
  rewrite string_length_app, zeros_length.
  pose proof (short_below_spec _ _ _ Hs Hn). lia.
Qed.

Lemma two_digits : short_below 2 100 = true.
Proof. by vm_compute. Qed.

Lemma three_digits : short_below 3 1000 = true.
Proof. by vm_compute. Qed.

Lemma timestamp_of_fields (sep : string) (h m s ms : Z) :
  (0 <= h)%Z -> (0 <= m < 60)%Z -> (0 <= s < 60)%Z -> (0 <= ms < 1000)%Z ->
  let str := format_0d 2 h +:+ ":" +:+ format_0d 2 m +:+ ":"
               +:+ format_0d 2 s +:+ sep +:+ format_0d 3 ms in
  timestamp true sep str (Z.to_nat h) (Z.to_nat m) (Z.to_nat s) (Z.to_nat ms)
  /\ ((h < 100)%Z ->
      timestamp false sep str (Z.to_nat h) (Z.to_nat m) (Z.to_nat s)
        (Z.to_nat ms)).
Proof.
  intros Hh Hm Hs Hms str.
  assert (Fm : field true 2 (Z.to_nat m) (format_0d 2 m)).
  { rewrite <- (Z2Nat.id m) at 2 by lia.
    apply (format_0d_field_exact 2 100); [apply two_digits|lia]. }
  assert (Fs : field true 2 (Z.to_nat s) (format_0d 2 s)).
  { rewrite <- (Z2Nat.id s) at 2 by lia.
    apply (format_0d_field_exact 2 100); [apply two_digits|lia]. }
  assert (Fms : field true 3 (Z.to_nat ms) (format_0d 3 ms)).
  { rewrite <- (Z2Nat.id ms) at 2 by lia.
    apply (format_0d_field_exact 3 1000); [apply three_digits|lia]. }
  split.
  - exists (format_0d 2 h), (format_0d 2 m), (format_0d 2 s), (format_0d 3 ms).
    split_and!; try done.
    rewrite <- (Z2Nat.id h) at 2 by lia. apply format_0d_field.
  - intros Hlt.
    exists (format_0d 2 h), (format_0d 2 m), (format_0d 2 s), (format_0d 3 ms).
    split_and!; try done.
    rewrite <- (Z2Nat.id h) at 2 by lia.
    apply (format_0d_field_exact 2 100); [apply two_digits|lia].
Qed.

(** The double 0.29, and one hundred hours. *)
Definition nearly_290_ms : Q := Py.round64 (29 # 100).

(** C9, as the specification states it, fails: the double 0.29 lies below
    29/100, so that [floor(frac(t) * 1000)] is 289, but its product with
    1000 rounds to the double 290 and the timestamp shows 290 milliseconds;
    and from one hundred hours on the hours field takes three digits. *)
Lemma timestamp_millis_round_up :
  nearly_290_ms < 29 # 100 /\
  millis_of nearly_290_ms = 289%Z /\
  format_srt_time nearly_290_ms = "00:00:00,290"%string /\
  format_vtt_time nearly_290_ms = "00:00:00.290"%string /\
  ~ timestamp true "," (format_srt_time nearly_290_ms) 0 0 0
      (Z.to_nat (millis_of nearly_290_ms)) /\
  format_srt_time 360000 = "100:00:00,000"%string.
Proof.
  split_and!; try (by vm_compute).
  intros (hh & mm & ss & mmm & Heq & (_ & _ & Lh) & (_ & _ & Lm)
          & (_ & _ & Ls) & (_ & Hv & Lms)).
  assert (format_srt_time nearly_290_ms = "00:00:00,290"%string) as E
    by (by vm_compute).
  rewrite E in Heq. clear E. cbn [negb] in Lh.
  pose proof (f_equal String.length Heq) as HL.
  rewrite !string_length_app, Lm, Ls, Lms in HL. cbn [String.length] in HL.
  destruct hh as [|h1 [|h2 [|h3 hh]]]; cbn [String.length] in Lh, HL; try lia.
  destruct mm as [|m1 [|m2 [|m3 mm]]]; cbn [String.length] in Lm; try lia.
  destruct ss as [|s1 [|s2 [|s3 ss]]]; cbn [String.length] in Ls; try lia.
  destruct mmm as [|x1 [|x2 [|x3 [|x4 mmm]]]];
    cbn [String.length] in Lms; try lia.
  vm_compute in Heq. injection Heq as <- <- <- <- <- <- <- <- <-.
  by vm_compute in Hv.
Qed.

(** C9 (amended): for a time of [t] seconds with [0 <= t <= 2^52], read
    as the double [d] nearest to it, the SRT timestamp reads
    [HH:MM:SS,mmm] and the VTT timestamp [HH:MM:SS.mmm]; the hours, minutes
    and seconds fields are the floors of the corresponding quotients of [d];
    the milliseconds field is the integer part of the double nearest to
    [frac(d) * 1000], which is [floor(frac(d) * 1000)] or one more and never
    exceeds 999.  Minutes and seconds take two digits and milliseconds
    three; the hours field is zero-padded to two digits, which is its exact
    width below one hundred hours. *)
Theorem timestamp_fields_of_doubles (t : Q) :
  0 <= t -> t <= 2 ^ 52 ->
  let d := Py.round64 t in
  let h := Z.to_nat (hours_of d) in
  let m := Z.to_nat (minutes_of d) in
  let s := Z.to_nat (seconds_of d) in
  let ms := Z.to_nat (millis_shown d) in
  timestamp true "," (format_srt_time t) h m s ms /\
  timestamp true "." (format_vtt_time t) h m s ms /\
  (d < 360000 ->
   timestamp false "," (format_srt_time t) h m s ms /\
   timestamp false "." (format_vtt_time t) h m s ms) /\
  hours_of d = Qfloor (d / 3600) /\
  minutes_of d = (Qfloor (d / 60) mod 60)%Z /\
  seconds_of d = (Qfloor d mod 60)%Z /\
  millis_shown d = Py.int (Py.round64 ((d - inject_Z (Qfloor d)) * 1000)) /\
  (Qfloor ((d - inject_Z (Qfloor d)) * 1000) <= millis_shown d
   <= Qfloor ((d - inject_Z (Qfloor d)) * 1000) + 1)%Z /\
  (millis_shown d <= 999)%Z.
Proof.
  intros Ht Hb d h m s ms.
  pose proof (round64_nonneg t Ht) as D0. fold d in D0.
  assert (d < 2 ^ 53) as Db.
  { assert (Qabs t < 2 ^ 53) as Ha.
    { apply Qabs_Qlt_condition.
      assert (2 ^ 52 < 2 ^ 53) by (by vm_compute). lra. }
    pose proof (round64_int_le t (2 ^ 52) Ha) as R.
    change (inject_Z (2 ^ 52)) with (2 ^ 52) in R. specialize (R Hb).
    assert (2 ^ 52 < 2 ^ 53) by (by vm_compute). unfold d. lra. }
  unfold format_srt_time, format_vtt_time. cbv zeta. fold d.
  rewrite (hours_field d D0 Db), (minutes_field d D0), (seconds_field d D0),
    (millis_field d D0).
  pose proof (hours_range d D0) as Hh.
  pose proof (minutes_range d) as Hm.
  pose proof (seconds_range d) as Hs.
  pose proof (millis_shown_range t Ht) as Hms. fold d in Hms.
  assert (0 <= millis_shown d < 1000)%Z as Hms' by lia.
  destruct (timestamp_of_fields "," _ _ _ _ Hh Hm Hs Hms') as [S1 S2].
  destruct (timestamp_of_fields "." _ _ _ _ Hh Hm Hs Hms') as [V1 V2].
  split_and!; try done.
  - intros Hlt. pose proof (hours_small d Hlt). split; [by apply S2|by apply V2].
  - apply minutes_of_alt.
  - apply seconds_of_alt.
  - apply millis_shown_bracket.
  - apply millis_shown_bracket.
  - lia.
Qed.

(** One hour, two minutes, three and a half seconds. *)
Lemma timestamp_fields_of_doubles_witness :
  format_srt_time (7447 # 2) = "01:02:03,500"%string /\
  format_vtt_time (7447 # 2) = "01:02:03.500"%string /\
  timestamp false "," (format_srt_time (7447 # 2)) 1 2 3 500.
Proof.
  split; [by vm_compute|]. split; [by vm_compute|].
  assert (H0 : 0 <= 7447 # 2) by (by vm_compute).
  assert (H1 : 7447 # 2 <= 2 ^ 52) by (by vm_compute).
  assert (H2 : Py.round64 (7447 # 2) < 360000) by (by vm_compute).
  exact (proj1 (proj1 (proj2 (proj2
           (timestamp_fields_of_doubles (7447 # 2) H0 H1))) H2)).
Defined.

End Timestamps.

(** ** Timing sync: the combine step (workers/sync_worker.py) *)

Section TimingSync.
Import SyncWorker.

Implicit Types (buf : list Q) (seg : SyncedSegment).

(** Writing one segment at a non-negative start index: the buffer keeps its
    length, the indices the segment covers inside the buffer take its
    samples, and every other index keeps its value. *)
Lemma write_samples_spec (samples : list Q) buf (a i : Z) :
  (0 <= a)%Z -> (0 <= i)%Z ->
  exists buf', write_samples buf a i samples = Py.Ret buf' /\
    length buf' = length buf /\
    forall j : nat,
      buf' !! j =
      if decide (j < length buf /\ (a + i <= Z.of_nat j)%Z)%nat
      then match samples !! Z.to_nat (Z.of_nat j - (a + i)) with
           | Some v => Some v
           | None => buf !! j
           end
      else buf !! j.
Proof.
  intros Ha. revert buf i.
  induction samples as [|s rest IH]; intros buf i Hi; cbn [write_samples].
  - exists buf. split_and!; [done|done|]. intros j. by case_decide.
  - destruct (Z.ltb_spec (a + i) (Z.of_nat (length buf))) as [Hlt|Hge].
    + assert ((0 <=? a + i)%Z = true) as -> by lia.
      destruct (IH (<[Z.to_nat (a + i) := s]> buf) (i + 1)%Z)
        as (buf' & -> & Hlen & Hlook); [lia|].
      rewrite length_insert in Hlen, Hlook.
      exists buf'. split_and!; [done|done|]. intros j. rewrite Hlook.
      destruct (decide (j = Z.to_nat (a + i))) as [->|Hne].
      * rewrite decide_False by lia. rewrite decide_True by lia.
        rewrite list_lookup_insert_eq by lia.
        by replace (Z.to_nat (Z.of_nat (Z.to_nat (a + i)) - (a + i))) with 0%nat
          by lia.
      * rewrite list_lookup_insert_ne by done.
        repeat case_decide; try lia; try done.
        replace (Z.to_nat (Z.of_nat j - (a + i)))
          with (S (Z.to_nat (Z.of_nat j - (a + (i + 1))))) by lia.
        done.
    + destruct (IH buf (i + 1)%Z) as (buf' & -> & Hlen & Hlook); [lia|].
      exists buf'. split_and!; [done|done|]. intros j. rewrite Hlook.
      repeat case_decide; try lia; done.
Qed.

(** The index of a time that is not negative is not negative, and the
    rounding of the product moves it up from the floor by one at most. *)
Lemma sample_index_nonneg (t : Q) : 0 <= t -> (0 <= sample_index t)%Z.
Proof.
  intros H. unfold sample_index, Py.fmul.
  pose proof (round64_nonneg t H) as D0.
  assert (0 <= Py.round64 (Py.round64 t * inject_Z sample_rate)) as R0.
  { apply round64_nonneg. change (inject_Z sample_rate) with 22050. lra. }
  rewrite (Py.int_nonneg _ R0). by apply Py.Qfloor_nonneg.
Qed.

Lemma sample_index_bracket (t : Q) :
  0 <= t -> t <= 2 ^ 32 ->
  (Qfloor (Py.round64 t * 22050) <= sample_index t
   <= Qfloor (Py.round64 t * 22050) + 1)%Z.
Proof.
  intros H0 Hb. unfold sample_index, Py.fmul.
  change (inject_Z sample_rate) with 22050.
  pose proof (round64_nonneg t H0) as D0.
  assert (Py.round64 t <= 2 ^ 32) as Db.
  { pose proof (round64_int_le t (2 ^ 32)) as R.
    change (inject_Z (2 ^ 32)) with (2 ^ 32) in R. apply R; [|done].
    apply Qabs_Qlt_condition.
    assert (2 ^ 32 < 2 ^ 53) by (by vm_compute). lra. }
  set (p := Py.round64 t * 22050) in *.
  assert (0 <= p) as P0 by (unfold p; lra).
  assert (Qabs p < 2 ^ 53) as Hp.
  { apply Qabs_Qlt_condition.
    assert (2 ^ 32 * 22050 < 2 ^ 53) by (by vm_compute). unfold p. lra. }
  pose proof (Py.Qfloor_bounds p) as [F1 F2].
  pose proof (round64_int_ge p (Qfloor p) Hp F1) as R1.
  pose proof (round64_int_le p (Qfloor p + 1) Hp) as R2.
  rewrite inject_Z_plus in R2. change (inject_Z 1) with 1 in R2.
  specialize (R2 ltac:(lra)).
  assert (0 <= Py.round64 p) as R0 by (by apply round64_nonneg).
  rewrite (Py.int_nonneg _ R0). split.
  - apply Qfloor_resp_le in R1. by rewrite Qfloor_Z in R1.
  - assert (Py.round64 p <= inject_Z (Qfloor p + 1)) as R3.
    { rewrite inject_Z_plus. change (inject_Z 1) with 1. lra. }
    apply Qfloor_resp_le in R3. by rewrite Qfloor_Z in R3.
Qed.

Lemma start_index_nonneg seg :
  0 <= seg_start seg -> (0 <= start_index seg)%Z.
Proof. apply sample_index_nonneg. Qed.

Lemma insert_segment_spec buf seg :
  0 <= seg_start seg ->
  (forall e, segment_samples seg <> Py.Raise e) ->
  exists buf', insert_segment buf seg = Py.Ret buf' /\
    length buf' = length buf /\
    forall j : nat,
      buf' !! j = if decide (j < length buf)%nat
                  then match sample_at seg j with
                       | Some v => Some v
                       | None => buf !! j
                       end
                  else None.
Proof.
  intros Hst Hok. unfold insert_segment, sample_at, played.
  fold (start_index seg). pose proof (start_index_nonneg seg Hst) as Ha.
  destruct (segment_samples seg) as [samples|e]; [|by destruct (Hok e)].
  destruct (write_samples_spec samples buf (start_index seg) 0 Ha)
    as (buf' & -> & Hlen & Hlook); [done|].
  exists buf'. split_and!; [done|done|]. intros j. rewrite Hlook.
  rewrite Z.add_0_r.
  destruct (decide (j < length buf)%nat) as [Hj|Hj].
  - destruct (decide (start_index seg <= Z.of_nat j)%Z).
    + by rewrite decide_True by done.
    + by rewrite decide_False by lia.
  - rewrite decide_False by lia. apply lookup_ge_None. lia.
Qed.

Lemma insert_segments_spec (segments : list SyncedSegment) buf :
  (forall seg, seg ∈ segments ->
     0 <= seg_start seg /\ forall e, segment_samples seg <> Py.Raise e) ->
  exists buf', insert_segments buf segments = Py.Ret buf' /\
    length buf' = length buf /\
    forall j : nat,
      buf' !! j = if decide (j < length buf)%nat
                  then match last_written segments j with
                       | Some v => Some v
                       | None => buf !! j
                       end
                  else None.
Proof.
  revert buf. induction segments as [|seg rest IH]; intros buf Hall; simpl.
  - exists buf. split_and!; [done|done|]. intros j.
    case_decide; [done|]. apply lookup_ge_None. lia.
  - destruct (Hall seg) as [Hst Hok]; [by left|].
    destruct (insert_segment_spec buf seg Hst Hok) as (buf1 & -> & Hlen1 & Hl1).
    destruct (IH buf1) as (buf' & -> & Hlen & Hl); [intros; apply Hall; by right|].
    exists buf'. split_and!; [done|congruence|]. intros j.
    rewrite Hl, Hlen1, Hl1.
    destruct (decide (j < length buf)%nat); [|done].
    by destruct (last_written rest j).
Qed.

Lemma segment_samples_ok seg :
  (forall wav, seg_wav seg = Some wav -> framerate wav <> 0%Z) ->
  forall e, segment_samples seg <> Py.Raise e.
Proof.
  intros H e. unfold segment_samples.
  destruct (seg_wav seg) as [wav|]; [|done].
  destruct (sampwidth wav =? 2)%Z; [|done].
  destruct (framerate wav =? sample_rate)%Z; [done|].
  destruct (Z.eqb_spec (framerate wav) 0) as [E|_]; [|done].
  by destruct (H wav).
Qed.

(** A track of a little more than a second, and a one-sample segment that
    starts 70 microseconds in. *)
Definition odd_duration : Q := 100007 # 100000.
Definition click : SyncedSegment :=
  {| seg_wav := Some {| framerate := 22050; sampwidth := 2; frames := [16384%Z] |};
     seg_start := 7 # 100000 |}.

(** C5, as the specification states it, fails: a duration of 1.00007 s
    gives 22051 samples, where [round(T * sample_rate)] is 22052; and a
    segment starting at 0.00007 s is written at index 1, where
    [round(start * sample_rate)] is 2. *)
Lemma combine_truncates_not_rounds :
  (exists out, combine_with_timing [] odd_duration = Py.Ret out /\
               Z.of_nat (length out) = 22051%Z) /\
  round (odd_duration * inject_Z sample_rate) = 22052%Z /\
  (exists buf v, combine_buffer [click] (1 # 1000) = Py.Ret buf /\
                 buf !! 1%nat = Some v /\ v == 1 # 2 /\
                 buf !! 2%nat = Some 0) /\
  round (seg_start click * inject_Z sample_rate) = 2%Z.
Proof.
  split_and!.
  - eexists. split; [reflexivity|]. by vm_compute.
  - by vm_compute.
  - eexists _, _. split_and!; [by vm_compute|by vm_compute|by vm_compute|by vm_compute].
  - by vm_compute.
Qed.

(** The product of the time and the rate is rounded before [int]
    truncates it: the double 0.06 lies below 6/100 and its product with
    22050 lies below 1323, but it rounds to the double 1323; and 15
    samples' worth of time gives the index 14. *)
Lemma sample_index_rounds_product :
  sample_index (6 # 100) = 1323%Z /\
  Qfloor (Py.round64 (6 # 100) * 22050) = 1322%Z /\
  sample_index (15 # 22050) = 14%Z /\
  Qfloor (Py.round64 (15 # 22050) * 22050) = 14%Z.
Proof. split_and!; by vm_compute. Qed.

(** C5 (amended): for a duration [T] and start times between 0 and [2^32]
    seconds and segments whose files can be read, the produced track has
    exactly [int(T * 22050)] samples, the product being rounded to a double
    and then truncated, which is [floor(T * 22050)] or one more; each
    segment is written from the sample index [int(start_i * 22050)] on,
    taken in the same way; samples that would fall past the end of the
    track are dropped; where segments overlap the one written later wins;
    and an index no segment covers is silent. *)
Theorem combine_with_timing_layout (segments : list SyncedSegment) (T : Q) :
  0 <= T -> T <= 2 ^ 32 ->
  (forall seg, seg ∈ segments -> 0 <= seg_start seg /\ seg_start seg <= 2 ^ 32) ->
  (forall seg wav, seg ∈ segments -> seg_wav seg = Some wav ->
                   framerate wav <> 0%Z) ->
  exists audio_buffer out,
    combine_buffer segments T = Py.Ret audio_buffer /\
    combine_with_timing segments T = Py.Ret out /\
    length out = Z.to_nat (sample_index T) /\
    length audio_buffer = length out /\
    (Qfloor (Py.round64 T * 22050) <= sample_index T
     <= Qfloor (Py.round64 T * 22050) + 1)%Z /\
    (forall seg, seg ∈ segments ->
       (0 <= Qfloor (Py.round64 (seg_start seg) * 22050) <= start_index seg)%Z /\
       (start_index seg
        <= Qfloor (Py.round64 (seg_start seg) * 22050) + 1)%Z) /\
    forall j : nat, (j < length audio_buffer)%nat ->
      audio_buffer !! j = Some (default 0 (last_written segments j)).
Proof.
  intros HT HTb Hst Hrate. unfold combine_with_timing, combine_buffer.
  cbv zeta. set (n := Z.to_nat (sample_index T)).
  destruct (insert_segments_spec segments (replicate n 0))
    as (buf & -> & Hlen & Hlook).
  { intros seg Hin. split; [by apply Hst|].
    apply segment_samples_ok. intros wav. by apply Hrate. }
  rewrite length_replicate in Hlen, Hlook.
  exists buf, (map (fun s => Py.int (Py.max (-1) (Py.min 1 s) * 32767)) buf).
  split; [done|]. split; [done|]. split; [by rewrite length_map|].
  split; [by rewrite length_map|].
  split; [by apply sample_index_bracket|]. split.
  - intros seg Hin. destruct (Hst seg Hin) as [H0 Hb].
    pose proof (sample_index_bracket (seg_start seg) H0 Hb) as [B1 B2].
    split; [split|]; [|done|done].
    apply Py.Qfloor_nonneg. pose proof (round64_nonneg _ H0). lra.
  - intros j Hj. rewrite Hlook, decide_True by lia.
    destruct (last_written segments j); [done|].
    simpl. apply lookup_replicate_2. lia.
Qed.

(** Two segments that overlap on a three-sample track. *)
Definition two_overlapping : list SyncedSegment :=
  [ {| seg_wav := Some {| framerate := 22050; sampwidth := 2;
                          frames := [8192; 8192]%Z |};
       seg_start := 0 |};
    {| seg_wav := Some {| framerate := 22050; sampwidth := 2;
                          frames := [16384; 16384; 16384]%Z |};
       seg_start := 1 # 22050 |} ].

Lemma combine_with_timing_layout_witness :
  exists audio_buffer out,
    combine_buffer two_overlapping (3 # 22050) = Py.Ret audio_buffer /\
    combine_with_timing two_overlapping (3 # 22050) = Py.Ret out /\
    length out = 3%nat /\ length audio_buffer = length out /\
    audio_buffer !! 1%nat = Some (default 0 (last_written two_overlapping 1)).
Proof.
  edestruct (combine_with_timing_layout two_overlapping (3 # 22050))
    as (buf & out & H1 & H2 & H3 & H4 & _ & _ & H5).
  - by vm_compute.
  - by vm_compute.
  - intros seg Hin. repeat (apply elem_of_cons in Hin as [->|Hin]);
      [by vm_compute|by vm_compute|by apply elem_of_nil in Hin].
  - intros seg wav Hin Hw.
    repeat (apply elem_of_cons in Hin as [->|Hin]);
      [injection Hw as <-; done|injection Hw as <-; done|by apply elem_of_nil in Hin].
  - assert (length out = 3%nat) as L by (rewrite H3; by vm_compute).
    exists buf, out. split_and!; [done|done|done|done|].
    apply H5. rewrite H4, L. lia.
Defined.

End TimingSync.

(** ** Queue reordering (api/queue.py) *)

Section Reorder.
Import Database Queue.

Implicit Types (m : gmap string Job) (ids : list string) (d : Db).

(** The assignment a listed job receives for the (0-based) index [i]. *)
Definition placed (i : nat) (job : Job) : Job :=
  set_queue_position (Some (Z.of_nat i + 1)%Z)
    (set_priority (Z.min (Z.of_nat i + 1) 10) job).

(** Every listed job exists and is in a reorderable status. *)
Definition all_reorderable ids d : Prop :=
  forall id, id ∈ ids ->
    exists job, jobs d !! id = Some job /\ reorderable (status job) = true.

Lemma placed_placed (i k : nat) (job : Job) :
  placed i (placed k job) = placed i job.
Proof. by destruct job. Qed.

Lemma fetch_jobs_lookup ids d id :
  fetch_jobs ids d !! id = if decide (id ∈ ids) then jobs d !! id else None.
Proof.
  unfold fetch_jobs. case_decide as Hin.
  - destruct (jobs d !! id) as [job|] eqn:E.
    + by apply map_lookup_filter_Some.
    + apply map_lookup_filter_None. by left.
  - apply map_lookup_filter_None. right. intros job _. done.
Qed.

Lemma verify_None m ids :
  verify m ids = None <->
  forall id, id ∈ ids ->
    exists job, m !! id = Some job /\ reorderable (status job) = true.
Proof.
  induction ids as [|id0 rest IH]; simpl.
  - split; [|done]. intros _ id Hin. by apply elem_of_nil in Hin.
  - destruct (m !! id0) as [job|] eqn:E.
    + destruct (reorderable (status job)) eqn:R.
      * rewrite IH. split.
        -- intros H id [->|Hin]%elem_of_cons; [by exists job|by apply H].
        -- intros H id Hin. apply H. by right.
      * split; [done|]. intros H.
        destruct (H id0) as (job' & Hj & Hr); [by left|]. congruence.
    + split; [done|]. intros H.
      destruct (H id0) as (job' & Hj & _); [by left|]. congruence.
Qed.

Lemma assign_spec ids m (pos : nat) :
  (forall id, id ∈ ids -> is_Some (m !! id)) ->
  exists m', assign m (Z.of_nat pos) ids = Some m' /\
    (forall id, id ∉ ids -> m' !! id = m !! id) /\
    (forall (i : nat) id, ids !! i = Some id -> id ∉ drop (S i) ids ->
       exists job, m !! id = Some job /\
                   m' !! id = Some (placed (pos + i) job)).
Proof.
  revert m pos. induction ids as [|id0 rest IH]; intros m pos Hall; simpl.
  - exists m. split_and!; [done|done|]. intros i id H. done.
  - destruct (Hall id0) as [job0 Hjob0]; [by left|]. rewrite Hjob0.
    set (m1 := <[id0 := _]> m).
    assert (m1 = <[id0 := placed pos job0]> m) as Hm1.
    { unfold m1, placed. by rewrite Nat.add_0_r || done. }
    destruct (IH m1 (S pos)) as (m' & Hm' & Hout & Hin).
    { intros id Hid. unfold m1.
      destruct (decide (id = id0)) as [->|Hne].
      - rewrite lookup_insert_eq. by eexists.
      - rewrite lookup_insert_ne by done. apply Hall. by right. }
    replace (Z.of_nat pos + 1)%Z with (Z.of_nat (S pos)) by lia.
    exists m'. split_and!; [done| |].
    + intros id Hid. apply not_elem_of_cons in Hid as [Hne Hid].
      rewrite (Hout id Hid). unfold m1. by rewrite lookup_insert_ne.
    + intros [|i] id Hi Hlast; simpl in Hi, Hlast.
      * injection Hi as <-. exists job0. split; [done|].
        rewrite (Hout id0 Hlast), Hm1, lookup_insert_eq.
        by rewrite Nat.add_0_r.
      * destruct (Hin i id Hi Hlast) as (job1 & Hj1 & Hj').
        rewrite Hj'. rewrite Hm1 in Hj1.
        destruct (decide (id = id0)) as [->|Hne].
        -- rewrite lookup_insert_eq in Hj1. injection Hj1 as <-.
           exists job0. split; [done|].
           rewrite placed_placed. do 2 f_equal. lia.
        -- rewrite lookup_insert_ne in Hj1 by done.
           exists job1. split; [done|]. do 2 f_equal. lia.
Qed.

Lemma batch_reorder_queue_nonempty ids d (evs : list Event) :
  ids <> [] ->
  batch_reorder_queue ids (d, evs) =
  match verify (fetch_jobs ids d) ids with
  | Some err => (inl err, (d, evs))
  | None =>
      match assign (fetch_jobs ids d) 0 ids with
      | None => (inl (Http 500 "Internal Server Error"), (d, evs))
      | Some jobs_map' =>
          (inr (length ids),
           (set_jobs (jobs_map' ∪ jobs d) d, evs ++ [QueueBatchReordered ids]))
      end
  end.
Proof. by destruct ids. Qed.

Lemma reorder_succeeds ids d (evs : list Event) :
  ids <> [] -> all_reorderable ids d ->
  exists d',
    batch_reorder_queue ids (d, evs)
      = (inr (length ids), (d', evs ++ [QueueBatchReordered ids])) /\
    (forall (i : nat) id, ids !! i = Some id -> id ∉ drop (S i) ids ->
       exists job, jobs d !! id = Some job /\
                   jobs d' !! id = Some (placed i job)) /\
    (forall id, id ∉ ids -> jobs d' !! id = jobs d !! id).
Proof.
  intros Hne Hall. rewrite batch_reorder_queue_nonempty by done.
  assert (Hver : verify (fetch_jobs ids d) ids = None).
  { apply verify_None. intros id Hin. rewrite fetch_jobs_lookup.
    rewrite decide_True by done. by apply Hall. }
  rewrite Hver.
  destruct (assign_spec ids (fetch_jobs ids d) 0) as (m' & Hm' & Hout & Hin).
  { intros id Hid. rewrite fetch_jobs_lookup, decide_True by done.
    destruct (Hall id Hid) as (job & -> & _). by eexists. }
  change (Z.of_nat 0) with 0%Z in Hm'. rewrite Hm'.
  eexists. split; [reflexivity|]. cbn [jobs set_jobs]. split.
  - intros i id Hi Hlast. destruct (Hin i id Hi Hlast) as (job & Hj & Hj').
    rewrite fetch_jobs_lookup in Hj.
    rewrite decide_True in Hj by (by eapply list_elem_of_lookup_2).
    exists job. split; [done|].
    apply lookup_union_Some_raw. by left.
  - intros id Hid. rewrite lookup_union_r; [done|].
    rewrite (Hout id Hid), fetch_jobs_lookup. by rewrite decide_False.
Qed.

Lemma reorder_rejects ids d (evs : list Event) :
  ~ all_reorderable ids d \/ ids = [] ->
  exists err, batch_reorder_queue ids (d, evs) = (inl err, (d, evs)).
Proof.
  intros [Hbad| ->]; [|by eexists].
  destruct (decide (ids = [])) as [->|Hne]; [by eexists|].
  rewrite batch_reorder_queue_nonempty by done.
  destruct (verify (fetch_jobs ids d) ids) as [err|] eqn:Hver; [by eexists|].
  exfalso. apply Hbad. intros id Hin.
  rewrite verify_None in Hver. destruct (Hver id Hin) as (job & Hj & Hr).
  rewrite fetch_jobs_lookup, decide_True in Hj by done. by exists job.
Qed.

(** C6: when every listed job exists and is queued or pending, the call
    succeeds and each listed job ends with its 1-based position in the list
    as [queue_position] and the smaller of that position and 10 as
    [priority] (for an id listed more than once, its last position), and no
    other job changes; when some listed job is missing or in another
    status, or the list is empty, the call fails and the database and the
    published messages are as before. *)
Theorem batch_reorder_queue_atomic ids d (evs : list Event) :
  (ids <> [] -> all_reorderable ids d ->
   exists d',
     batch_reorder_queue ids (d, evs)
       = (inr (length ids), (d', evs ++ [QueueBatchReordered ids])) /\
     (forall (i : nat) id, ids !! i = Some id -> id ∉ drop (S i) ids ->
        exists job, jobs d !! id = Some job /\
                    jobs d' !! id = Some (placed i job) /\
                    priority (placed i job) = Z.min (Z.of_nat i + 1) 10 /\
                    queue_position (placed i job) = Some (Z.of_nat i + 1)%Z) /\
     (forall id, id ∉ ids -> jobs d' !! id = jobs d !! id)) /\
  (~ all_reorderable ids d \/ ids = [] ->
   exists err, batch_reorder_queue ids (d, evs) = (inl err, (d, evs))).
Proof.
  split; [|apply reorder_rejects].
  intros Hne Hall.
  destruct (reorder_succeeds ids d evs Hne Hall) as (d' & Hrun & Hin & Hout).
  exists d'. split_and!; [done| |done].
  intros i id Hi Hlast. destruct (Hin i id Hi Hlast) as (job & Hj & Hj').
  by exists job.
Qed.

(** The queue of the specification's scenario: A and C queued, B running. *)
Definition queue_job (id : string) (st : JobStatus) : Job :=
  set_status st
    (Jobs.new_job id "/uploads/x.wav" "auto" None None None None
       false false true ["json"; "srt"]%string 5 1).
Definition queue_db : Db :=
  {| jobs := {[ "A"%string := queue_job "A" QUEUED;
                "B"%string := queue_job "B" PROCESSING;
                "C"%string := queue_job "C" QUEUED ]};
     batches := ∅; models := ∅; transcripts := ∅; tts_outputs := ∅ |}.

Lemma batch_reorder_queue_atomic_witness :
  (exists err,
     batch_reorder_queue ["A"; "B"; "C"]%string (queue_db, [])
     = (inl err, (queue_db, []))) /\
  (exists d',
     batch_reorder_queue ["C"; "A"]%string (queue_db, [])
     = (inr 2%nat, (d', [] ++ [QueueBatchReordered ["C"; "A"]%string])) /\
     (priority <$> jobs d' !! "C"%string) = Some 1%Z /\
     (priority <$> jobs d' !! "A"%string) = Some 2%Z /\
     jobs d' !! "B"%string = jobs queue_db !! "B"%string).
Proof.
  split.
  - apply (proj2 (batch_reorder_queue_atomic ["A"; "B"; "C"]%string queue_db [])).
    left. intros Hall. destruct (Hall "B"%string) as (job & Hj & Hr).
    { apply elem_of_cons. right. apply elem_of_cons. by left. }
    vm_compute in Hj. injection Hj as <-. by vm_compute in Hr.
  - destruct (proj1 (batch_reorder_queue_atomic ["C"; "A"]%string queue_db []))
      as (d' & Hrun & Hin & Hout).
    + done.
    + intros id Hin. repeat (apply elem_of_cons in Hin as [->|Hin]);
        [eexists; split; [by vm_compute|done]..|by apply elem_of_nil in Hin].
    + exists d'. split; [exact Hrun|].
      destruct (Hin 0%nat "C"%string eq_refl) as (jc & _ & -> & Hpc & _).
      { cbn. intros [H|H]%elem_of_cons; [done|by apply elem_of_nil in H]. }
      destruct (Hin 1%nat "A"%string eq_refl) as (ja & _ & -> & Hpa & _).
      { cbn. apply not_elem_of_nil. }
      split_and!;
        [ change (Some (priority (placed 0 jc)) = Some 1%Z); by rewrite Hpc
        | change (Some (priority (placed 1 ja)) = Some 2%Z); by rewrite Hpa
        | ].
      apply Hout. intros H. repeat (apply elem_of_cons in H as [H|H]; [done|]).
      by apply elem_of_nil in H.
Defined.

End Reorder.

(** ** Batch aggregates (api/batches.py) *)

Section BatchAggregate.
Import Database Batches.

Implicit Types (batch : JobBatch) (members : list Job).

(** Every member is completed or failed. *)
Definition all_done members : Prop :=
  forall j, j ∈ members -> status j = COMPLETED \/ status j = FAILED.

(** Every member is in a terminal status. *)
Definition all_terminal members : Prop :=
  forall j, j ∈ members -> terminal (status j) = true.

Lemma count_status_cons (s : JobStatus) (j : Job) members :
  count_status s (j :: members)
  = ((if decide (status j = s) then 1 else 0) + count_status s members)%Z.
Proof.
  unfold count_status. rewrite filter_cons.
  case_decide; simpl length; lia.
Qed.

Lemma count_done_le members :
  (0 <= count_status COMPLETED members /\ 0 <= count_status FAILED members /\
   count_status COMPLETED members + count_status FAILED members
   <= Z.of_nat (length members))%Z.
Proof.
  induction members as [|j r IH]; [done|].
  rewrite !count_status_cons. simpl length.
  repeat case_decide; try congruence; lia.
Qed.

Lemma count_done_all members :
  (count_status COMPLETED members + count_status FAILED members
   = Z.of_nat (length members))%Z <-> all_done members.
Proof.
  induction members as [|j r IH].
  - split; [|done]. intros _ j Hj. by apply elem_of_nil in Hj.
  - rewrite !count_status_cons. simpl length.
    pose proof (count_done_le r) as (H1 & H2 & H3). split.
    + intros Heq j' [->|Hin]%elem_of_cons.
      * repeat case_decide; try congruence; try lia; auto.
      * apply IH; [|done]. repeat case_decide; try congruence; lia.
    + intros Hall. assert (all_done r) as Hr by (intros ??; apply Hall; by right).
      apply IH in Hr. destruct (Hall j) as [E|E]; [by left|..];
        repeat case_decide; try congruence; lia.
Qed.

(** A batch of two files of which one job was deleted while the other
    completed, and one whose second job is cancelled. *)
Definition running_batch : JobBatch :=
  set_b_status PROCESSING (new_batch "b1" "Batch" 2).
Definition member (id : string) (s : JobStatus) : Job :=
  set_status s (new_batch_job "b1" "auto" false false (id, "/uploads/x.wav"%string)).

(** C7, as the specification states it, fails: with every remaining member
    in a terminal status the batch is still [processing], because only
    completed and failed members are counted against [total_files]. *)
Lemma batch_never_terminates_after_cancel :
  let after_delete := (recompute 7 running_batch [member "j1" COMPLETED]).1 in
  let after_cancel :=
    (recompute 7 running_batch
       [member "j1" COMPLETED; member "j2" CANCELLED]).1 in
  all_terminal [member "j1" COMPLETED] /\
  b_status after_delete = PROCESSING /\
  all_terminal [member "j1" COMPLETED; member "j2" CANCELLED] /\
  b_status after_cancel = PROCESSING /\
  ~ (terminal (b_status after_cancel) = true <->
     all_terminal [member "j1" COMPLETED; member "j2" CANCELLED]).
Proof.
  assert (A1 : all_terminal [member "j1" COMPLETED]).
  { intros j Hj. repeat (apply elem_of_cons in Hj as [->|Hj]); [done|].
    by apply elem_of_nil in Hj. }
  assert (A2 : all_terminal [member "j1" COMPLETED; member "j2" CANCELLED]).
  { intros j Hj. repeat (apply elem_of_cons in Hj as [->|Hj]); [done|done|].
    by apply elem_of_nil in Hj. }
  split_and!; [done|by vm_compute|done|by vm_compute|].
  intros [_ H]. specialize (H A2). by vm_compute in H.
Qed.

(** C7 (amended): for a batch with at most [total_files] members (it is
    created with exactly that many, and members can only be deleted), after
    the aggregate is recomputed [completed_files + failed_files <=
    total_files]; the batch reaches a terminal status exactly when equality
    holds, that is when none of its members was deleted and each one is
    completed or failed (a cancelled or deleted member keeps it from
    terminating); and that terminal status is [completed] if no member
    failed, else [failed]. *)
Theorem recompute_batch_aggregate (now : nat) batch members :
  (0 < total_files batch)%Z ->
  (Z.of_nat (length members) <= total_files batch)%Z ->
  terminal (b_status batch) = false ->
  let batch' := (recompute now batch members).1 in
  (recompute now batch members).2 = None /\
  total_files batch' = total_files batch /\
  completed_files batch' = count_status COMPLETED members /\
  failed_files batch' = count_status FAILED members /\
  (completed_files batch' + failed_files batch' <= total_files batch')%Z /\
  (terminal (b_status batch') = true <->
   (completed_files batch' + failed_files batch' = total_files batch')%Z) /\
  ((completed_files batch' + failed_files batch' = total_files batch')%Z <->
   Z.of_nat (length members) = total_files batch /\ all_done members) /\
  (terminal (b_status batch') = true ->
   b_status batch' = if (failed_files batch' =? 0)%Z then COMPLETED else FAILED).
Proof.
  intros Htot Hlen Hlive batch'.
  pose proof (count_done_le members) as (Hc & Hf & Hcf).
  pose proof (count_done_all members) as Hall.
  unfold batch', recompute.
  set (c := count_status COMPLETED members) in *.
  set (f := count_status FAILED members) in *.
  cbn [total_files set_failed_files set_completed_files set_b_progress].
  destruct (Z.eqb_spec (total_files batch) 0) as [|_]; [lia|].
  destruct (Z.leb_spec (total_files batch) (c + f)) as [Hge|Hlt].
  - cbn. split_and!; try done; try lia.
    + destruct (f =? 0)%Z; (split; [intros _; lia|done]).
    + split; [|lia]. intros _. split; [lia|]. apply Hall. lia.
  - destruct (Z.ltb_spec 0 (c + f)); cbn.
    + split_and!; try done; try lia.
      split; [lia|]. intros [E Hd]. apply Hall in Hd. lia.
    + split_and!; try done; try lia.
      * rewrite Hlive. split; [done|lia].
      * split; [lia|]. intros [E Hd]. apply Hall in Hd. lia.
      * by rewrite Hlive.
Qed.

(** A batch of two whose members both finished, one of them in failure. *)
Lemma recompute_batch_aggregate_witness :
  (recompute 7 running_batch [member "j1" COMPLETED; member "j2" FAILED]).2
    = None /\
  b_status (recompute 7 running_batch
              [member "j1" COMPLETED; member "j2" FAILED]).1 = FAILED.
Proof.
  assert (H1 : (0 < total_files running_batch)%Z) by done.
  assert (H2 : (Z.of_nat (length [member "j1" COMPLETED; member "j2" FAILED])
                <= total_files running_batch)%Z) by done.
  assert (H3 : terminal (b_status running_batch) = false) by done.
  destruct (recompute_batch_aggregate 7 running_batch
              [member "j1" COMPLETED; member "j2" FAILED] H1 H2 H3)
    as (E & _ & _ & _ & _ & Ht & _ & Hs).
  split; [exact E|]. apply Hs, Ht. by vm_compute.
Defined.

End BatchAggregate.

(** ** Model downloads (api/models.py) *)

Section Downloads.
Import Database Queue Models.

(** The number of fetches started for a model. *)
Definition fetch_count (model_id : string) (st : State) : nat :=
  length (filter (fun x => x = model_id) (fetched st)).

(** A registry with one model that is not downloaded yet. *)
Definition absent_model : Model :=
  {| m_id := "m1"; m_name := "base"; model_type := "whisper";
     engine := "faster-whisper"; m_source := "huggingface";
     m_model_id := "Systran/faster-whisper-base"; revision := None;
     download_error := None; compute_type := None; device := None;
     is_default := true; is_downloaded := false; local_path := None;
     download_progress := None |}.
Definition registry : State :=
  {| db := {| jobs := ∅; batches := ∅; models := {[ "m1"%string := absent_model ]};
              transcripts := ∅; tts_outputs := ∅ |};
     background := []; fetched := [] |}.

(** C8, as the specification states it, fails: two download requests for
    a model that is not present schedule two tasks, and two fetches run. *)
Lemma duplicate_download_fetches_twice :
  let st1 := (download_model "m1" false registry).2 in
  let st2 := (download_model "m1" false st1).2 in
  let st3 := run_background [Py.Ret "/models/base"%string;
                             Py.Ret "/models/base"%string] st2 in
  background st2 = ["m1"; "m1"]%string /\
  fetched st3 = ["m1"; "m1"]%string /\
  fetch_count "m1" st3 = 2%nat /\ fetch_count "m1" st3 <> 1%nat.
Proof. by vm_compute. Qed.

Lemma download_model_task_found (model_id : string) (fetch : Fetch) (st : State)
    (model : Model) :
  models (db st) !! model_id = Some model ->
  exists model' d',
    (download_model_task model_id fetch st).2
    = {| db := d'; background := background st;
         fetched := fetched st ++ [model_id] |} /\
    models d' !! model_id = Some model'.
Proof.
  intros Hm. unfold download_model_task. rewrite Hm.
  destruct fetch; eexists _, _; (split; [reflexivity|]); cbn;
    by rewrite lookup_insert_eq.
Qed.

Lemma run_background_cons (model_id : string) (rest : list string)
    (fetch : Fetch) (fetches : list Fetch) (d : Db) (log : list string) :
  run_background (fetch :: fetches)
    {| db := d; background := model_id :: rest; fetched := log |}
  = run_background fetches
      (download_model_task model_id fetch
         {| db := d; background := rest; fetched := log |}).2.
Proof. done. Qed.

(** C8 (amended): there is no in-flight de-duplication.  A download request
    for a registered model that is not downloaded (or with [force]) always
    schedules a task of its own, whether or not one is already pending, and
    every task starts its own fetch: two requests for a model that is not
    yet present lead to two fetches.  Only a request for a model that is
    already downloaded, without [force], schedules nothing. *)
Theorem download_requests_each_fetch (st : State) (model_id : string)
    (model : Model) (force1 force2 : bool) (fetch1 fetch2 : Fetch) :
  models (db st) !! model_id = Some model ->
  background st = [] ->
  (is_downloaded model = false ->
   let r1 := download_model model_id force1 st in
   let r2 := download_model model_id force2 r1.2 in
   let st' := run_background [fetch1; fetch2] r2.2 in
   r1.1 = inr "Download started"%string /\
   r2.1 = inr "Download started"%string /\
   background r2.2 = [model_id; model_id] /\
   fetched st' = fetched st ++ [model_id; model_id] /\
   background st' = []) /\
  (is_downloaded model = true ->
   download_model model_id false st = (inr "Model already downloaded"%string, st)).
Proof.
  intros Hm Hbg. split.
  - intros Hnd. unfold download_model. rewrite Hm, Hnd. cbn [andb fst snd db].
    rewrite Hm, Hnd, Hbg. cbn [andb fst snd db background fetched app].
    split_and!; [done|done|done|..];
      rewrite run_background_cons;
      destruct (download_model_task_found model_id fetch1
        {| db := db st; background := [model_id]; fetched := fetched st |} model Hm)
        as (model1 & d1 & -> & Hm1); cbn [background fetched];
      rewrite run_background_cons;
      destruct (download_model_task_found model_id fetch2
        {| db := d1; background := []; fetched := fetched st ++ [model_id] |}
        model1 Hm1) as (model2 & d2 & -> & Hm2); cbn.
    + by rewrite <- app_assoc.
    + done.
  - intros Hd. unfold download_model. by rewrite Hm, Hd.
Qed.

Lemma download_requests_each_fetch_witness :
  let r1 := download_model "m1" false registry in
  let r2 := download_model "m1" true r1.2 in
  fetched (run_background [Py.Ret "/models/base"%string; Py.Raise "timeout"%string] r2.2)
  = [] ++ ["m1"; "m1"]%string.
Proof.
  assert (Hm : models (db registry) !! "m1"%string = Some absent_model)
    by (by vm_compute).
  exact (proj1 (proj2 (proj2 (proj2 (proj1
    (download_requests_each_fetch registry "m1" absent_model false true
       (Py.Ret "/models/base"%string) (Py.Raise "timeout"%string) Hm eq_refl)
    eq_refl))))).
Defined.

End Downloads.

(** ** The pipeline runner (services/background_tasks.py) *)

Section Runner.
Import Database Queue Pipeline.

Implicit Types (s : PState) (o : Engines) (evs : list Event).

(** Rewrites the session into an explicit record everywhere. *)
Ltac explicit :=
  cbv [with_db with_job with_batch with_transcript with_tts_output
       with_events with_history with_clock
       ps_db ps_job ps_batch ps_transcript ps_tts_output ps_events
       ps_history ps_clock] in *.

(** Uses an equation between two explicit sessions. *)
Ltac same_session :=
  match goal with
  | H : Build_PState _ _ _ _ _ _ _ _ = Build_PState _ _ _ _ _ _ _ _ |- _ =>
      inversion H; subst; clear H
  end.

(** Unfolds the runner's control structure in the hypotheses and splits on
    every branch the run can take. *)
Ltac run :=
  repeat first
    [ progress
        (cbv [bind ret raise gets modify call lift assign_job try_except
              utcnow commit refresh_job broadcast_progress stage_model
              default_model load_transcript update_batch_progress
              batch_step
              with_db with_job with_batch with_transcript with_tts_output
              with_events with_history with_clock
              ps_db ps_job ps_batch ps_transcript ps_tts_output ps_events
              ps_history ps_clock] in *)
    | same_session
    | progress simplify_eq
    | case_match ].

(** Reads the fields of explicit session and job records. *)
Ltac fields :=
  cbn [ps_db ps_job ps_batch ps_transcript ps_tts_output ps_events
       ps_history ps_clock
       job_id batch_id status progress error_message enable_diarization
       enable_tts priority queue_position
       set_priority set_queue_position set_status set_progress
       set_error_message set_detected_language set_duration
       set_transcript_path set_tts_audio_path set_started_at
       set_completed_at] in *.

(** *** Published progress *)

(** The messages published since [base] carry, for the job [id], progress
    values that never decrease and stay at or below [b]. *)
Definition climbing (id : string) (base : list Event) (b : Q) evs : Prop :=
  exists new, evs = base ++ new /\
    nondecreasing (published_progress id new) /\
    Forall (fun p => p <= b) (published_progress id new).

Lemma nondecreasing_snoc (l : list Q) (p : Q) :
  nondecreasing l -> Forall (fun x => x <= p) l -> nondecreasing (l ++ [p]).
Proof.
  induction l as [|a [|b r] IH]; intros Hn Hf; simpl; [done|..].
  - split; [|done]. by apply Forall_inv in Hf.
  - destruct Hn as [Hab Hn]. split; [done|].
    apply IH; [done|]. by apply Forall_inv_tail in Hf.
Qed.

Lemma published_progress_snoc (id : string) evs (ev : Event) :
  published_progress id (evs ++ [ev])
  = published_progress id evs ++ published_progress id [ev].
Proof. unfold published_progress. by rewrite omap_app. Qed.

Lemma climbing_start (id : string) (base : list Event) (b : Q) :
  climbing id base b base.
Proof. exists []. by rewrite app_nil_r. Qed.

Lemma climbing_weaken (id : string) base (a b : Q) evs :
  climbing id base a evs -> a <= b -> climbing id base b evs.
Proof.
  intros (new & -> & Hn & Hf) Hab. exists new. split_and!; [done|done|].
  eapply Forall_impl; [exact Hf|]. intros x Hx. simpl in Hx. lra.
Qed.

Lemma climbing_snoc (id : string) base (a p : Q) evs (stage msg : string) :
  climbing id base a evs -> a <= p ->
  climbing id base p (evs ++ [JobProgress id stage p msg]).
Proof.
  intros (new & -> & Hn & Hf) Hap.
  exists (new ++ [JobProgress id stage p msg]).
  rewrite published_progress_snoc. simpl. rewrite String.eqb_refl. simpl.
  assert (Forall (fun x => x <= p) (published_progress id new)) as Hf'.
  { eapply Forall_impl; [exact Hf|]. intros x Hx. simpl in Hx. lra. }
  split_and!; [by rewrite app_assoc|by apply nondecreasing_snoc|].
  apply Forall_app. split; [done|]. constructor; [lra|done].
Qed.

(** Chains [climbing_snoc] along the messages a path has published. *)
Ltac climb :=
  first [ eassumption
        | eapply climbing_snoc; [climb | first [by vm_compute | lra]]
        | eapply climbing_weaken; [eassumption | first [by vm_compute | lra]] ].

(** The session works on the job [id] and has published in order so far. *)
Definition on_track (id : string) base (b : Q) s : Prop :=
  job_id (ps_job s) = id /\ climbing id base b (ps_events s).

Lemma start_job_progress (id : string) s s' (u : unit) :
  job_id (ps_job s) = id ->
  start_job id s = (Py.Ret u, s') -> on_track id (ps_events s) 5 s'.
Proof.
  destruct s as [d job batch tr tts evs hist clock].
  intros Hid Hrun. fields. unfold start_job in Hrun. run.
  split; fields; [done|].
  pose proof (climbing_start (job_id job) evs 0). climb.
Qed.

(** The message a progress callback publishes for a segment. *)
Definition callback_event (id : string) (dur : Q) (seg : RawSegment) : Event :=
  JobProgress id "transcribing" (10 + segment_progress dur seg * (1 # 2))
    ("Transcribing: " +:+ Py.str_int (Py.int (segment_progress dur seg)) +:+ "%").

Lemma collect_segments_run (id : string) (dur : Q) (iter : list RawSegment) s :
  collect_segments id dur iter s
  = (Py.Ret (map to_dict iter),
     with_events (ps_events s ++ map (callback_event id dur) iter) s).
Proof.
  revert s. induction iter as [|seg rest IH]; intros s.
  - cbn. rewrite app_nil_r. by destruct s.
  - cbn [collect_segments]. unfold bind at 1.
    unfold progress_cb, broadcast_progress, modify.
    unfold bind. rewrite IH. cbn. by rewrite <- app_assoc.
Qed.

(** Progress of a segment that ends at [e]. *)
Definition progress_at (dur e : Q) : Q :=
  Py.min (e / (if Qeq_bool dur 0 then 1 else dur) * 100) 100.

Lemma progress_at_bounds (dur e : Q) :
  0 <= dur -> 0 <= e -> 0 <= progress_at dur e /\ progress_at dur e <= 100.
Proof.
  intros Hd He. unfold progress_at.
  set (d := if Qeq_bool dur 0 then 1 else dur).
  assert (0 < d) as Hpos.
  { unfold d. destruct (Qeq_bool dur 0) eqn:E; [lra|].
    apply Qeq_bool_neq in E. lra. }
  assert (0 <= e / d) as Hq.
  { apply Qle_shift_div_l; [done|lra]. }
  destruct (Py.min_spec (e / d * 100) 100) as [[H ->]|[H ->]]; lra.
Qed.

Lemma progress_at_mono (dur e1 e2 : Q) :
  0 <= dur -> e1 <= e2 -> progress_at dur e1 <= progress_at dur e2.
Proof.
  intros Hd He. unfold progress_at.
  set (d := if Qeq_bool dur 0 then 1 else dur).
  assert (0 < d) as Hpos.
  { unfold d. destruct (Qeq_bool dur 0) eqn:E; [lra|].
    apply Qeq_bool_neq in E. lra. }
  assert (e1 / d <= e2 / d) as Hq.
  { unfold Qdiv. apply Qmult_le_compat_r; [done|].
    apply Qlt_le_weak, Qinv_lt_0_compat. done. }
  destruct (Py.min_spec (e1 / d * 100) 100) as [[H1 ->]|[H1 ->]];
  destruct (Py.min_spec (e2 / d * 100) 100) as [[H2 ->]|[H2 ->]]; lra.
Qed.

Lemma segment_progress_le_100 (dur : Q) (seg : RawSegment) :
  segment_progress dur seg <= 100.
Proof.
  unfold segment_progress.
  destruct (Py.min_spec
    (raw_end seg / (if Qeq_bool dur 0 then 1 else dur) * 100) 100)
    as [[H ->]|[H ->]]; lra.
Qed.

Lemma nondecreasing_lower_head (a b : Q) (l : list Q) :
  nondecreasing (a :: l) -> b <= a -> nondecreasing (b :: l).
Proof. destruct l as [|c r]; [done|]. intros [H1 H2] Hb. split; [lra|done]. Qed.

Lemma nondecreasing_callbacks (dur : Q) (l : list Q) :
  0 <= dur -> nondecreasing l ->
  nondecreasing (map (fun e => 10 + progress_at dur e * (1 # 2)) l).
Proof.
  intros Hd. induction l as [|a [|b r] IH]; intros Hn; [done|done|].
  destruct Hn as [Hab Hn]. split; [|by apply IH].
  pose proof (progress_at_mono dur a b Hd Hab). lra.
Qed.

(** The engine reports segments whose end times are not negative and do
    not decrease, for a duration that is not negative. *)
Definition steady o : Prop :=
  0 <= whisper_duration o /\
  nondecreasing (0 :: map raw_end (whisper_segments o)).

Lemma climbing_callbacks (id : string) base (dur : Q) (iter : list RawSegment)
    (a : Q) evs :
  climbing id base a evs ->
  nondecreasing (a :: map (fun seg => 10 + segment_progress dur seg * (1 # 2)) iter) ->
  a <= 60 ->
  Forall (fun seg => segment_progress dur seg <= 100) iter ->
  climbing id base 60 (evs ++ map (callback_event id dur) iter).
Proof.
  revert a evs. induction iter as [|seg rest IH]; intros a evs Hc Hn Ha Hf.
  - rewrite app_nil_r. by eapply climbing_weaken.
  - cbn [map] in *. destruct Hn as [Hav Hn].
    apply Forall_cons in Hf as [Hseg Hf].
    rewrite (cons_middle _ evs), app_assoc.
    eapply IH; [|exact Hn|lra|done].
    unfold callback_event. by eapply climbing_snoc.
Qed.

Lemma run_transcription_progress (id : string) base o s s' (u : unit) :
  steady o -> on_track id base 5 s ->
  run_transcription o s = (Py.Ret u, s') -> on_track id base 60 s'.
Proof.
  destruct s as [d job batch tr tts evs hist clock].
  intros [Hdur Hends] [Hid Hc] Hrun. fields.
  assert (climbing id base 60
            (evs ++ map (callback_event id (whisper_duration o))
                        (whisper_segments o))) as Hcb.
  { eapply climbing_callbacks; [exact Hc| |lra|].
    - apply (nondecreasing_callbacks _ _ Hdur) in Hends. cbn [map] in Hends.
      rewrite map_map in Hends.
      eapply nondecreasing_lower_head; [exact Hends|].
      pose proof (progress_at_bounds (whisper_duration o) 0 Hdur). lra.
    - apply Forall_forall. intros seg _. apply segment_progress_le_100. }
  unfold run_transcription, transcribe_faster_whisper in Hrun. run;
    rewrite collect_segments_run in *; run;
    (split; fields; [done|]); done.
Qed.

Lemma diarization_step_progress (id : string) base o s s' (u : unit) :
  on_track id base 60 s ->
  diarization_step o id s = (Py.Ret u, s') -> on_track id base 75 s'.
Proof.
  destruct s as [d job batch tr tts evs hist clock].
  intros [Hid Hc] Hrun. fields.
  unfold diarization_step, run_diarization in Hrun. run;
    fields; subst; (split; fields; [done|]); climb.
Qed.

Lemma tts_step_progress (id : string) base o s s' (u : unit) :
  on_track id base 75 s ->
  tts_step o id s = (Py.Ret u, s') -> on_track id base 95 s'.
Proof.
  destruct s as [d job batch tr tts evs hist clock].
  intros [Hid Hc] Hrun. fields.
  unfold tts_step, run_tts in Hrun. run;
    fields; subst; (split; fields; [done|]); climb.
Qed.

Lemma complete_job_progress (id : string) base s s' (r : Result) :
  climbing id base 95 (ps_events s) ->
  complete_job id s = (Py.Ret r, s') -> climbing id base 100 (ps_events s').
Proof.
  destruct s as [d job batch tr tts evs hist clock].
  intros Hc Hrun. fields.
  unfold complete_job in Hrun. run; fields; climb.
Qed.

Lemma fail_job_raises (id e : string) s (r : Result) s' :
  fail_job id e s <> (Py.Ret r, s').
Proof.
  destruct s as [d job batch tr tts evs hist clock].
  intros Hrun. unfold fail_job in Hrun. by run.
Qed.

(** A normal return of the whole run is a normal return of every stage. *)
Lemma stages_return (id : string) o s (r : Result) s' :
  try_except (stages o id) (fail_job id) s = (Py.Ret r, s') ->
  exists s1 s2 s3 s4,
    start_job id s = (Py.Ret (), s1) /\
    run_transcription o s1 = (Py.Ret (), s2) /\
    diarization_step o id s2 = (Py.Ret (), s3) /\
    tts_step o id s3 = (Py.Ret (), s4) /\
    complete_job id s4 = (Py.Ret r, s').
Proof.
  unfold try_except, stages, bind. intros H.
  destruct (start_job id s) as [[[]|e1] s1] eqn:E1;
    [|by apply fail_job_raises in H].
  destruct (run_transcription o s1) as [[[]|e2] s2] eqn:E2;
    [|by apply fail_job_raises in H].
  destruct (diarization_step o id s2) as [[[]|e3] s3] eqn:E3;
    [|by apply fail_job_raises in H].
  destruct (tts_step o id s3) as [[[]|e4] s4] eqn:E4;
    [|by apply fail_job_raises in H].
  destruct (complete_job id s4) as [[r'|e5] s5] eqn:E5;
    [|by apply fail_job_raises in H].
  simplify_eq. by exists s1, s2, s3, s4.
Qed.

(** *** What holds of the session while the job is running *)

(** A row of a job that has not finished. *)
Definition live_row (j : Job) : Prop :=
  terminal (status j) = false /\ ~ progress j == 100.

(** Every batch has at least one file. *)
Definition batches_ok (d : Db) : Prop :=
  forall bid b, batches d !! bid = Some b -> total_files b <> 0%Z.

Record running (id : string) s : Prop := {
  run_id : job_id (ps_job s) = id;
  run_row : exists row, jobs (ps_db s) !! id = Some row /\
                        job_id row = id /\ live_row row;
  run_job : live_row (ps_job s);
  run_history : Forall live_row (ps_history s);
  run_batch : ps_batch s = None;
  run_batches : batches_ok (ps_db s)
}.

(** [m] keeps [I]: it holds of the session [m] leaves, whether [m] returns
    or raises. *)
Definition keeps {A} (I : PState -> Prop) (m : M A) : Prop :=
  forall s, I s -> I (m s).2.

Lemma keeps_bind {A B} (I : PState -> Prop) (m : M A) (k : A -> M B) :
  keeps I m -> (forall a, keeps I (k a)) -> keeps I (bind m k).
Proof.
  intros Hm Hk s Hs. unfold bind. specialize (Hm s Hs).
  destruct (m s) as [[a|e] s1]; [by apply Hk|done].
Qed.

Lemma keeps_ret {A} (I : PState -> Prop) (a : A) : keeps I (ret a).
Proof. by intros s Hs. Qed.

Lemma keeps_raise {A} (I : PState -> Prop) (e : string) : keeps I (@raise A e).
Proof. by intros s Hs. Qed.

Lemma keeps_gets {A} (I : PState -> Prop) (f : PState -> A) : keeps I (gets f).
Proof. by intros s Hs. Qed.

Lemma keeps_call (I : PState -> Prop) (failure : option string) :
  keeps I (call failure).
Proof. by destruct failure as [e|]; intros s Hs. Qed.

Lemma keeps_lift {A} (I : PState -> Prop) (r : Py.outcome A) : keeps I (lift r).
Proof. by destruct r as [a|e]; intros s Hs. Qed.

Lemma keeps_default_model (I : PState -> Prop) (ty : string) :
  keeps I (default_model ty).
Proof. intros s Hs. unfold default_model. by repeat case_match. Qed.

Lemma keeps_stage_model (I : PState -> Prop) (named : option string)
    (ty : string) : keeps I (stage_model named ty).
Proof.
  apply keeps_bind; [apply keeps_gets|]. intros [m|];
    [apply keeps_ret|apply keeps_default_model].
Qed.

Lemma flush_jobs s :
  jobs (flush s) = <[job_id (ps_job s) := ps_job s]> (jobs (ps_db s)).
Proof. unfold flush. by repeat case_match. Qed.

Lemma flush_batches s :
  batches (flush s) = match ps_batch s with
                      | Some b => <[b_id b := b]> (batches (ps_db s))
                      | None => batches (ps_db s)
                      end.
Proof. unfold flush. by repeat case_match. Qed.

Lemma flush_transcripts s :
  transcripts (flush s)
  = match ps_transcript s with
    | Some t => <[t_job_id t := t]> (transcripts (ps_db s))
    | None => transcripts (ps_db s)
    end.
Proof. unfold flush. by repeat case_match. Qed.

Lemma keeps_running_assign (id : string) (f : Job -> Job) :
  (forall j, job_id (f j) = job_id j) ->
  (forall j, live_row j -> live_row (f j)) ->
  keeps (running id) (assign_job f).
Proof.
  intros Hid Hlive s [H1 H2 H3 H4 H5 H6]. split; cbn; try done.
  - by rewrite Hid.
  - by apply Hlive.
Qed.

Lemma keeps_running_commit (id : string) : keeps (running id) commit.
Proof.
  intros s [H1 H2 H3 H4 H5 H6]. split; cbn; try done.
  - rewrite flush_jobs, H1. exists (ps_job s). by rewrite lookup_insert_eq.
  - apply Forall_app. split; [done|]. by constructor.
  - intros bid b. rewrite flush_batches, H5. apply H6.
Qed.

Lemma keeps_running_broadcast (id j : string) (p : Q) (stage msg : string) :
  keeps (running id) (broadcast_progress j p stage msg).
Proof. by intros s []. Qed.

Lemma keeps_running_utcnow (id : string) : keeps (running id) utcnow.
Proof. by intros s []. Qed.

Lemma keeps_running_transcript (id : string) (t : option Transcript) :
  keeps (running id) (modify (with_transcript t)).
Proof. by intros s []. Qed.

Lemma keeps_running_tts_output (id : string) (t : option TTSOutput) :
  keeps (running id) (modify (with_tts_output t)).
Proof. by intros s []. Qed.

Lemma keeps_running_load_transcript (id : string) :
  keeps (running id) load_transcript.
Proof. intros s Hs. unfold load_transcript. case_match; [done|]. by destruct Hs. Qed.

Lemma keeps_collect_segments (I : PState -> Prop) (id : string) (dur : Q)
    (iter : list RawSegment) :
  (forall p stage msg, keeps I (broadcast_progress id p stage msg)) ->
  keeps I (collect_segments id dur iter).
Proof.
  intros Hb. induction iter as [|seg rest IH]; [apply keeps_ret|].
  cbn [collect_segments]. apply keeps_bind; [apply Hb|]. intros _.
  apply keeps_bind; [done|]. intros ?. apply keeps_ret.
Qed.

(** Applies the rules for [keeps] along the structure of a computation. *)
Ltac keep :=
  repeat first
    [ apply keeps_ret | apply keeps_raise | apply keeps_gets
    | apply keeps_call | apply keeps_lift | apply keeps_stage_model
    | apply keeps_running_commit | apply keeps_running_broadcast
    | apply keeps_running_utcnow | apply keeps_running_transcript
    | apply keeps_running_tts_output | apply keeps_running_load_transcript
    | apply keeps_collect_segments; intros
    | apply keeps_running_assign;
        [ by intros [] | intros [] [? ?]; split; cbn in *; [done|lra || done] ]
    | apply keeps_bind; [|intros ?]
    | match goal with
      | |- keeps _ (match ?x with _ => _ end) => destruct x
      | |- keeps _ (let ' (_, _) := ?x in _) => destruct x
      end ].

Lemma keeps_running_start (id : string) : keeps (running id) (start_job id).
Proof. unfold start_job. keep. Qed.

Lemma keeps_running_transcription (id : string) o :
  keeps (running id) (run_transcription o).
Proof. unfold run_transcription, transcribe_faster_whisper. keep. Qed.

Lemma keeps_running_diarization (id : string) o :
  keeps (running id) (diarization_step o id).
Proof. unfold diarization_step, run_diarization. keep. Qed.

Lemma keeps_running_tts (id : string) o :
  keeps (running id) (tts_step o id).
Proof. unfold tts_step, run_tts. keep. Qed.

(** *** How a run ends *)

(** The session after the job reached the terminal status [st]: the rows
    committed before are live, the rows committed since all carry [st], and
    progress 100 goes with [completed] only. *)
Definition settled (id : string) (st : JobStatus) s : Prop :=
  exists pre tail row,
    ps_history s = pre ++ tail /\ Forall live_row pre /\
    last tail = Some row /\ jobs (ps_db s) !! id = Some row /\
    Forall (fun r => status r = st /\ error_message r = error_message row /\
                     (progress r == 100 <-> st = COMPLETED)) tail.

Lemma recompute_no_error (now : nat) (b : JobBatch) (members : list Job) :
  total_files b <> 0%Z -> (Batches.recompute now b members).2 = None.
Proof.
  intros H. unfold Batches.recompute. cbn [total_files set_failed_files
    set_completed_files set_b_progress].
  destruct (Z.eqb_spec (total_files b) 0); [done|]. by repeat case_match.
Qed.

(** A batch with files never makes the aggregate computation raise. *)
Ltac batch_cannot_raise :=
  match goal with
  | Hr : Batches.recompute ?n ?b ?ms = (_, Some _),
    Hb : batches (flush _) !! _ = Some ?b,
    Hok : batches_ok _ |- _ =>
      exfalso; rewrite flush_batches in Hb; cbn [ps_batch ps_db] in Hb;
      apply Hok in Hb;
      pose proof (recompute_no_error n b ms Hb) as Hno;
      rewrite Hr in Hno; discriminate Hno
  end.

(** Proves [settled] of an explicit session whose history ends with the
    rows of the terminal commits. *)
Ltac settle hist Hrid :=
  unfold settled; fields;
  eexists hist, _, _; split_and!;
  [ rewrite <- ?app_assoc; reflexivity
  | done
  | reflexivity
  | rewrite !flush_jobs; fields; rewrite ?Hrid; apply lookup_insert_eq
  | repeat constructor; fields; try done ].

Lemma complete_job_settles (id : string) s :
  running id s ->
  exists r s', complete_job id s = (Py.Ret r, s') /\
               settled id COMPLETED s' /\
               last (ps_events s')
               = Some (JobProgress id "completed" 100 "Job completed!").
Proof.
  destruct s as [d job batch tr tts evs hist clock].
  intros [Hid (row & Hrow & Hrid & Hlive) Hjob Hhist Hbatch Hok]. fields.
  subst batch id.
  destruct (complete_job (job_id job) _) as [res s'] eqn:Hrun.
  unfold complete_job in Hrun. run; try batch_cannot_raise;
    (eexists _, _; split; [reflexivity|]); (split; [|by rewrite last_snoc]);
    settle ps_history0 Hrid.
Qed.

Lemma fail_job_settles (id e : string) s :
  running id s ->
  exists s', fail_job id e s = (Py.Raise e, s') /\
             settled id FAILED s' /\
             (exists row, jobs (ps_db s') !! id = Some row /\
                          error_message row = Some e) /\
             last (ps_events s') = Some (JobProgress id "failed" 0 e).
Proof.
  destruct s as [d job batch tr tts evs hist clock].
  intros [Hid (row & Hrow & Hrid & Hlive) Hjob Hhist Hbatch Hok]. fields.
  subst batch id.
  destruct (fail_job (job_id job) e _) as [res s'] eqn:Hrun.
  unfold fail_job in Hrun. run; try batch_cannot_raise;
    (eexists; split; [reflexivity|]);
    (split_and!;
     [ settle ps_history0 Hrid; intros Hp; by destruct Hlive as [_ []]
     | eexists; split;
       [rewrite !flush_jobs; fields; rewrite ?Hrid; apply lookup_insert_eq|done]
     | by rewrite last_snoc ]).
Qed.

(** Every run ends in one of two ways: all stages return and the job is
    completed, or a stage raises and the job is failed by the handler. *)
Lemma run_ends o (id : string) (d : Db) (evs : list Event) (clock : nat)
    (job : Job) :
  jobs d !! id = Some job -> job_id job = id -> live_row job ->
  batches_ok d ->
  let s0 := open_session d evs clock job in
  let r := try_except (stages o id) (fail_job id) s0 in
  (exists res, r.1 = Py.Ret res /\ settled id COMPLETED r.2 /\
     last (ps_events r.2)
     = Some (JobProgress id "completed" 100 "Job completed!")) \/
  (exists e s1, stages o id s0 = (Py.Raise e, s1) /\
     r.1 = Py.Raise e /\ settled id FAILED r.2 /\
     (exists row, jobs (ps_db r.2) !! id = Some row /\
                  error_message row = Some e) /\
     last (ps_events r.2) = Some (JobProgress id "failed" 0 e)).
Proof.
  intros Hjob Hid Hlive Hok s0 r.
  assert (running id s0) as H0.
  { split; cbn; try done. by exists job. }
  unfold r, try_except, stages, bind.
  pose proof (keeps_running_start id s0 H0) as H1.
  destruct (start_job id s0) as [[[]|e1] s1]; cbn [snd] in H1.
  2: { right. destruct (fail_job_settles id e1 s1 H1) as (s' & -> & ?).
       by exists e1, s1. }
  pose proof (keeps_running_transcription id o s1 H1) as H2.
  destruct (run_transcription o s1) as [[[]|e2] s2]; cbn [snd] in H2.
  2: { right. destruct (fail_job_settles id e2 s2 H2) as (s' & -> & ?).
       by exists e2, s2. }
  pose proof (keeps_running_diarization id o s2 H2) as H3.
  destruct (diarization_step o id s2) as [[[]|e3] s3]; cbn [snd] in H3.
  2: { right. destruct (fail_job_settles id e3 s3 H3) as (s' & -> & ?).
       by exists e3, s3. }
  pose proof (keeps_running_tts id o s3 H3) as H4.
  destruct (tts_step o id s3) as [[[]|e4] s4]; cbn [snd] in H4.
  2: { right. destruct (fail_job_settles id e4 s4 H4) as (s' & -> & ?).
       by exists e4, s4. }
  destruct (complete_job_settles id s4 H4) as (res & s' & -> & ?).
  left. by exists res.
Qed.

Lemma process_job_async_found o (id : string) (d : Db) (evs : list Event)
    (clock : nat) (job : Job) :
  jobs d !! id = Some job ->
  process_job_async o id d evs clock
  = ((try_except (stages o id) (fail_job id) (open_session d evs clock job)).1,
     Some (try_except (stages o id) (fail_job id)
             (open_session d evs clock job)).2).
Proof. intros H. unfold process_job_async. by rewrite H. Qed.

Lemma settled_rows (id : string) (st : JobStatus) s (job : Job) :
  terminal st = true -> live_row job -> settled id st s ->
  (forall r, r ∈ job :: ps_history s ->
     (progress r == 100 <-> status r = COMPLETED)) /\
  (forall before r after, job :: ps_history s = before ++ r :: after ->
     terminal (status r) = true ->
     forall r', r' ∈ after -> status r' = status r).
Proof.
  intros Hst Hjob (pre & tail & row & Hh & Hpre & _ & _ & Htail).
  assert (Hlive : Forall live_row (job :: pre)) by (by constructor).
  rewrite Hh, app_comm_cons. clear Hh Hpre.
  rewrite Forall_forall in Hlive. rewrite Forall_forall in Htail. split.
  - intros r [Hr|Hr]%elem_of_app.
    + destruct (Hlive r Hr) as [Hterm Hprog]. split; [done|].
      intros E. by rewrite E in Hterm.
    + destruct (Htail r Hr) as (Hs & _ & Hp). rewrite Hs.
      split; [intros H; by apply Hp|]. intros ->. by apply Hp.
  - intros before r after Heq Hterm r' Hr'.
    apply app_eq_inv in Heq as [(k & Hk & Hafter)|(k & Hk & Htl)].
    + destruct k as [|r0 k].
      * simpl in Hafter. rewrite app_nil_r in Hk. subst before.
        destruct tail as [|t0 tail]; [done|]. injection Hafter as <- <-.
        destruct (Htail r) as (-> & _); [by left|].
        destruct (Htail r') as (-> & _); [by right|]. done.
      * simpl in Hafter. injection Hafter as -> ->. exfalso.
        destruct (Hlive r0) as [Hl _].
        { rewrite Hk. apply elem_of_app. right. by left. }
        by rewrite Hl in Hterm.
    + assert (r ∈ tail) as Hr.
      { rewrite Htl. apply elem_of_app. right. by left. }
      assert (r' ∈ tail) as Hr2.
      { rewrite Htl. apply elem_of_app. right. by right. }
      destruct (Htail r Hr) as (-> & _). by destruct (Htail r' Hr2) as (-> & _).
Qed.

(** *** Example runs *)

(** Engines that hear two segments and never fail. *)
Definition sound_engines : Engines :=
  {| extract_audio := Py.Ret "/uploads/a.wav"%string;
     whisper_load := None;
     whisper_segments :=
       [ {| raw_start := 0; raw_end := 2; raw_text := " hello  world " |};
         {| raw_start := 2; raw_end := 4; raw_text := "again" |} ];
     whisper_iter_error := None;
     whisper_language := Some "en"%string;
     whisper_duration := 4;
     write_outputs := None;
     diar_audio := Py.Ret "/uploads/a.wav"%string;
     pyannote := Py.Ret [ {| Diarization.d_start := 0; Diarization.d_end := 3;
                             Diarization.d_speaker := "SPEAKER_00" |} ];
     tts_mkdir := None;
     xtts := Py.Ret ["outputs/j1/segment_0000.wav"%string];
     ffmpeg_concat := None;
     wave_info := Some (4, 22050%Z) |}.

(** The same engines with a diarization engine that fails. *)
Definition deaf_engines : Engines :=
  {| extract_audio := extract_audio sound_engines;
     whisper_load := None;
     whisper_segments := whisper_segments sound_engines;
     whisper_iter_error := None;
     whisper_language := Some "en"%string;
     whisper_duration := 4;
     write_outputs := None;
     diar_audio := diar_audio sound_engines;
     pyannote := Py.Raise "CUDA out of memory";
     tts_mkdir := None;
     xtts := xtts sound_engines;
     ffmpeg_concat := None;
     wave_info := wave_info sound_engines |}.

Definition a_model (id ty : string) : Model :=
  {| m_id := id; m_name := id; model_type := ty; engine := "builtin";
     m_source := "huggingface"; m_model_id := id; revision := None;
     download_error := None; compute_type := None; device := None;
     is_default := true; is_downloaded := true; local_path := Some id;
     download_progress := Some 100 |}.

(** A queued job with diarization enabled. *)
Definition a_job : Job :=
  Jobs.new_job "j1" "/uploads/a.wav" "auto" None None None None
    true false true ["json"; "srt"]%string 5 1.

(** A database with that job and no model, and one with the STT and
    diarization models downloaded. *)
Definition bare_db : Db :=
  {| jobs := {[ "j1"%string := a_job ]}; batches := ∅; models := ∅;
     transcripts := ∅; tts_outputs := ∅ |}.
Definition ready_db : Db :=
  {| jobs := {[ "j1"%string := a_job ]}; batches := ∅;
     models := {[ "w"%string := a_model "w" "whisper";
                  "d"%string := a_model "d" "diarization" ]};
     transcripts := ∅; tts_outputs := ∅ |}.

(** What a run leaves in the session: the messages, and the status,
    progress and error message of each row it committed. *)
Definition events_of (r : Py.outcome Result * option PState) : list Event :=
  match r.2 with Some s => ps_events s | None => [] end.
Definition rows_of (r : Py.outcome Result * option PState)
  : list (JobStatus * Q * option string) :=
  match r.2 with
  | Some s => map (fun j => (status j, progress j, error_message j)) (ps_history s)
  | None => []
  end.

(** C4, as the specification states it, fails on the failure path: a job
    for which no STT model is registered publishes the progress values 0, 5
    and then 0 again with the failure message. *)
Lemma progress_drops_on_failure :
  published_progress "j1"
    (events_of (process_job_async sound_engines "j1" bare_db [] 0))
  = [0; 5; 0] /\
  ~ nondecreasing
      (published_progress "j1"
         (events_of (process_job_async sound_engines "j1" bare_db [] 0))).
Proof.
  assert (E : published_progress "j1"
    (events_of (process_job_async sound_engines "j1" bare_db [] 0)) = [0; 5; 0])
    by (by vm_compute).
  split; [done|]. rewrite E. simpl. intros [_ [H _]]. by vm_compute in H.
Qed.

(** C4 (amended): when the run returns normally, and the STT engine
    reports segments with end times that are not negative and do not
    decrease (the progress callbacks being delivered in order), the progress
    values published for the job never decrease.  On the failure path the
    last message carries progress 0. *)
Theorem progress_nondecreasing_on_success o (id : string) (d : Db)
    (evs : list Event) (clock : nat) (job : Job) (r : Result) s' :
  jobs d !! id = Some job -> job_id job = id -> steady o ->
  process_job_async o id d evs clock = (Py.Ret r, Some s') ->
  exists new, ps_events s' = evs ++ new /\
              nondecreasing (published_progress id new).
Proof.
  intros Hjob Hid Hsteady Hrun. unfold process_job_async in Hrun.
  rewrite Hjob in Hrun. cbn zeta in Hrun.
  destruct (try_except _ _ _) as [res s''] eqn:Htry. cbn in Hrun.
  simplify_eq.
  apply stages_return in Htry as (s1 & s2 & s3 & s4 & H1 & H2 & H3 & H4 & H5).
  apply start_job_progress in H1; [|done]. cbn [open_session ps_events] in H1.
  apply (run_transcription_progress _ _ _ _ _ _ Hsteady H1) in H2.
  apply (diarization_step_progress _ _ _ _ _ _ H2) in H3.
  apply (tts_step_progress _ _ _ _ _ _ H3) in H4.
  destruct H4 as [_ H4].
  apply (complete_job_progress _ _ _ _ _ H4) in H5.
  destruct H5 as (new & Hnew & Hn & _). by exists new.
Qed.

Lemma progress_nondecreasing_on_success_witness :
  exists new,
    events_of (process_job_async sound_engines "j1" ready_db [] 0) = [] ++ new /\
    nondecreasing (published_progress "j1" new).
Proof.
  destruct (process_job_async sound_engines "j1" ready_db [] 0)
    as [[r|e] [s'|]] eqn:E; try (by vm_compute in E).
  unfold events_of. cbn [snd].
  apply (progress_nondecreasing_on_success sound_engines "j1" ready_db [] 0
           a_job r s').
  - by vm_compute.
  - done.
  - split; [by vm_compute|]. cbn. split_and!; by vm_compute.
  - exact E.
Defined.

(** The row a job is created with is live. *)
Lemma queued_is_live (job : Job) :
  status job = QUEUED -> progress job == 0 -> live_row job.
Proof. intros Hs Hp. split; [by rewrite Hs|]. rewrite Hp. by vm_compute. Qed.

(** C2: along a run of the pipeline on a freshly queued job, in every row
    the job's row goes through, progress is 100 exactly when the status is
    [completed]; once a row has a terminal status every later row has the
    same status; and the queue and job operations leave a terminal job's
    status alone: changing its priority, moving it or reordering a list
    that names it is refused without effect, and deleting it does not mark
    it cancelled. *)
Theorem job_status_invariants o (id : string) (d : Db) (evs : list Event)
    (clock : nat) (job : Job) :
  jobs d !! id = Some job -> job_id job = id ->
  status job = QUEUED -> progress job == 0 -> batches_ok d ->
  (exists s', (process_job_async o id d evs clock).2 = Some s' /\
     (forall r, r ∈ job :: ps_history s' ->
        (progress r == 100 <-> status r = COMPLETED)) /\
     (forall before r after, job :: ps_history s' = before ++ r :: after ->
        terminal (status r) = true ->
        forall r', r' ∈ after -> status r' = status r) /\
     (exists row, jobs (ps_db s') !! id = Some row /\
                  terminal (status row) = true)) /\
  (forall (d' : Db) (evs' : list Event) (row : Job),
     jobs d' !! id = Some row -> terminal (status row) = true ->
     status (Jobs.cancel_if_live row) = status row /\
     (forall p, (update_job_priority id p (d', evs')).2 = (d', evs')) /\
     (forall pos, (move_job_in_queue id pos (d', evs')).2 = (d', evs')) /\
     (forall ids, id ∈ ids ->
        (batch_reorder_queue ids (d', evs')).2 = (d', evs'))).
Proof.
  intros Hjob Hid Hst Hp Hok. pose proof (queued_is_live job Hst Hp) as Hlive.
  split.
  - rewrite (process_job_async_found _ _ _ _ _ _ Hjob). eexists.
    split; [reflexivity|].
    destruct (run_ends o id d evs clock job Hjob Hid Hlive Hok)
      as [(res & _ & Hs & _)|(e & s1 & _ & _ & Hs & _)].
    + destruct (settled_rows id COMPLETED _ job eq_refl Hlive Hs) as [H1 H2].
      split_and!; [done|done|].
      destruct Hs as (pre & tail & row & _ & _ & Hlast & Hrow & Htail).
      exists row. split; [done|]. rewrite Forall_forall in Htail.
      destruct (Htail row) as (-> & _); [by apply last_Some_elem_of|done].
    + destruct (settled_rows id FAILED _ job eq_refl Hlive Hs) as [H1 H2].
      split_and!; [done|done|].
      destruct Hs as (pre & tail & row & _ & _ & Hlast & Hrow & Htail).
      exists row. split; [done|]. rewrite Forall_forall in Htail.
      destruct (Htail row) as (-> & _); [by apply last_Some_elem_of|done].
  - intros d' evs' row Hrow Hterm. split_and!.
    + unfold Jobs.cancel_if_live. revert Hterm.
      by destruct (status row) eqn:E.
    + intros p. unfold update_job_priority. rewrite Hrow.
      destruct ((p <? 1)%Z || (10 <? p)%Z); [done|].
      revert Hterm. by destruct (status row).
    + intros pos. unfold move_job_in_queue. rewrite Hrow.
      revert Hterm. by destruct (status row).
    + intros ids Hin.
      destruct (reorder_rejects ids d' evs') as [err ->]; [|done].
      left. intros Hall. destruct (Hall id Hin) as (row' & Hr' & Hre).
      rewrite Hrow in Hr'. injection Hr' as <-.
      revert Hterm Hre. by destruct (status row).
Qed.

Lemma job_status_invariants_witness :
  exists s', (process_job_async sound_engines "j1" ready_db [] 0).2 = Some s' /\
    (forall r, r ∈ a_job :: ps_history s' ->
       (progress r == 100 <-> status r = COMPLETED)) /\
    exists row, jobs (ps_db s') !! "j1"%string = Some row /\
                terminal (status row) = true.
Proof.
  assert (Hj : jobs ready_db !! "j1"%string = Some a_job) by (by vm_compute).
  assert (Hp : progress a_job == 0) by (by vm_compute).
  assert (Hok : batches_ok ready_db).
  { intros bid b Hb. by vm_compute in Hb. }
  destruct (job_status_invariants sound_engines "j1" ready_db [] 0 a_job
              Hj eq_refl eq_refl Hp Hok) as [(s' & E & H1 & _ & H3) _].
  by exists s'.
Defined.

(** C3, as the specification states it, fails for the Diarize stage: the
    diarization engine raises, the runner reports it in a progress message
    and goes on, and the job ends [completed] with no error message. *)
Lemma diarization_failure_is_swallowed :
  pyannote deaf_engines = Py.Raise "CUDA out of memory" /\
  (process_job_async deaf_engines "j1" ready_db [] 0).1
    = Py.Ret (Completed "j1") /\
  last (rows_of (process_job_async deaf_engines "j1" ready_db [] 0))
    = Some (COMPLETED, 100, None) /\
  events_of (process_job_async deaf_engines "j1" ready_db [] 0)
    !! 6%nat
    = Some (JobProgress "j1" "diarizing" 75
              "Diarization failed: CUDA out of memory") /\
  last (events_of (process_job_async deaf_engines "j1" ready_db [] 0))
    = Some (JobProgress "j1" "completed" 100 "Job completed!").
Proof. split_and!; by vm_compute. Qed.

(** *** Exceptions that escape a stage *)

(** The status change, the commit and the message with which the runner
    enters the Diarize and the Synthesize stage. *)
Definition enter_diarization (id : string) : M unit :=
  bind (assign_job (set_status DIARIZING)) (fun _ =>
  bind commit (fun _ =>
  broadcast_progress id 60 "diarizing" "Identifying speakers...")).

Definition enter_tts (id : string) : M unit :=
  bind (assign_job (set_status SYNTHESIZING)) (fun _ =>
  bind commit (fun _ =>
  broadcast_progress id 80 "generating_tts" "Synthesizing speech...")).

(** The run of the job [id] fails with [e] from the session [s1] on: the
    runner raises [e]; the job's row is [failed] with [e] as its error
    message; and after [s1] nothing is published but the failure message
    and nothing is committed but rows that are [failed] with that message,
    at least one. *)
Definition fails_with o (id : string) (d : Db) evs (clock : nat)
    (e : string) s1 : Prop :=
  exists s',
    process_job_async o id d evs clock = (Py.Raise e, Some s') /\
    (exists row, jobs (ps_db s') !! id = Some row /\ status row = FAILED /\
                 error_message row = Some e) /\
    ps_events s' = ps_events s1 ++ [JobProgress id "failed" 0 e] /\
    exists tail, ps_history s' = ps_history s1 ++ tail /\ tail <> [] /\
      Forall (fun r => status r = FAILED /\ error_message r = Some e) tail.

Lemma fail_job_effect (id e : string) s :
  running id s ->
  exists s',
    fail_job id e s = (Py.Raise e, s') /\
    (exists row, jobs (ps_db s') !! id = Some row /\ status row = FAILED /\
                 error_message row = Some e) /\
    ps_events s' = ps_events s ++ [JobProgress id "failed" 0 e] /\
    exists tail, ps_history s' = ps_history s ++ tail /\ tail <> [] /\
      Forall (fun r => status r = FAILED /\ error_message r = Some e) tail.
Proof.
  destruct s as [d job batch tr tts evs hist clock].
  intros [Hid (row & Hrow & Hrid & Hlive) Hjob Hhist Hbatch Hok]. fields.
  subst batch id.
  destruct (fail_job (job_id job) e _) as [res s'] eqn:Hrun.
  unfold fail_job in Hrun. run; try batch_cannot_raise;
    (eexists; split; [reflexivity|]); fields;
    (split_and!;
     [ eexists; split;
       [rewrite !flush_jobs; fields; rewrite ?Hrid; apply lookup_insert_eq|done]
     | reflexivity
     | eexists; split_and!;
       [ rewrite <- ?app_assoc; reflexivity | done | by repeat constructor ] ]).
Qed.

(** A session in which a stage has raised is still that of a running
    job. *)
Lemma stages_raise_running o (id e : string) s s1 :
  running id s -> stages o id s = (Py.Raise e, s1) -> running id s1.
Proof.
  intros H0. unfold stages, bind.
  pose proof (keeps_running_start id s H0) as H1.
  destruct (start_job id s) as [[[]|e1] sa]; cbn [snd] in H1;
    [|by intros [= _ <-]].
  pose proof (keeps_running_transcription id o sa H1) as H2.
  destruct (run_transcription o sa) as [[[]|e2] sb]; cbn [snd] in H2;
    [|by intros [= _ <-]].
  pose proof (keeps_running_diarization id o sb H2) as H3.
  destruct (diarization_step o id sb) as [[[]|e3] sc]; cbn [snd] in H3;
    [|by intros [= _ <-]].
  pose proof (keeps_running_tts id o sc H3) as H4.
  destruct (tts_step o id sc) as [[[]|e4] sd]; cbn [snd] in H4;
    [|by intros [= _ <-]].
  destruct (complete_job_settles id sd H4) as (res & s' & -> & _). done.
Qed.

Lemma enter_diarization_returns (id : string) s :
  enter_diarization id s = (Py.Ret (), (enter_diarization id s).2).
Proof. by destruct s. Qed.

Lemma enter_tts_returns (id : string) s :
  enter_tts id s = (Py.Ret (), (enter_tts id s).2).
Proof. by destruct s. Qed.

Lemma diarization_step_enabled o (id : string) s :
  enable_diarization (ps_job s) = true ->
  diarization_step o id s = run_diarization o (enter_diarization id s).2.
Proof. intros H. unfold diarization_step, bind, gets. by rewrite H. Qed.

Lemma tts_step_enabled o (id : string) s :
  enable_tts (ps_job s) = true ->
  tts_step o id s = run_tts o (enter_tts id s).2.
Proof. intros H. unfold tts_step, bind, gets. by rewrite H. Qed.

(** C3 (amended): when an exception escapes a stage function
    ([run_transcription], [run_diarization] or [run_tts]) it escapes the
    [try] block of the runner, and then the runner re-raises it after it
    has marked the job [failed] with the exception's message as
    [error_message] and published the failure message; from the point of
    the exception on it publishes nothing else and commits nothing but that
    failed row, so no later stage is attempted.  An exception raised by the
    diarization engine or by the TTS engine does not escape its stage: the
    stage publishes a progress message that carries the first 50 characters
    of the exception's message and returns, leaving the database and the
    job as they were. *)
Theorem escaping_exception_fails_job o (id : string) (d : Db)
    (evs : list Event) (clock : nat) (job : Job) :
  jobs d !! id = Some job -> job_id job = id ->
  status job = QUEUED -> progress job == 0 -> batches_ok d ->
  let s0 := open_session d evs clock job in
  (forall e s1, stages o id s0 = (Py.Raise e, s1) ->
     fails_with o id d evs clock e s1) /\
  (forall sa e s1,
     start_job id s0 = (Py.Ret (), sa) ->
     run_transcription o sa = (Py.Raise e, s1) ->
     stages o id s0 = (Py.Raise e, s1)) /\
  (forall sa sb e s1,
     start_job id s0 = (Py.Ret (), sa) ->
     run_transcription o sa = (Py.Ret (), sb) ->
     enable_diarization (ps_job sb) = true ->
     run_diarization o (enter_diarization id sb).2 = (Py.Raise e, s1) ->
     stages o id s0 = (Py.Raise e, s1)) /\
  (forall sa sb sc e s1,
     start_job id s0 = (Py.Ret (), sa) ->
     run_transcription o sa = (Py.Ret (), sb) ->
     diarization_step o id sb = (Py.Ret (), sc) ->
     enable_tts (ps_job sc) = true ->
     run_tts o (enter_tts id sc).2 = (Py.Raise e, s1) ->
     stages o id s0 = (Py.Raise e, s1)) /\
  (forall e s (model : Model) (audio : string),
     stage_model (diarization_model_id (ps_job s)) "diarization" s
       = (Py.Ret (Some model), s) ->
     is_downloaded model = true ->
     diar_audio o = Py.Ret audio -> pyannote o = Py.Raise e ->
     run_diarization o s
     = (Py.Ret (),
        with_events
          (ps_events s
           ++ [JobProgress (job_id (ps_job s)) "diarizing" 62
                 "Running pyannote diarization...";
               JobProgress (job_id (ps_job s)) "diarizing" 75
                 ("Diarization failed: " +:+ Py.take 50 e)]) s)) /\
  (forall e s (model : Model) (t : Transcript),
     stage_model (tts_model_id (ps_job s)) "tts" s
       = (Py.Ret (Some model), s) ->
     is_downloaded model = true ->
     ps_transcript s = Some t -> tts_mkdir o = None ->
     xtts o = Py.Raise e ->
     run_tts o s
     = (Py.Ret (),
        with_events
          (ps_events s
           ++ [JobProgress (job_id (ps_job s)) "generating_tts" 82
                 "Loading TTS model...";
               JobProgress (job_id (ps_job s)) "generating_tts" 85
                 ("Synthesizing "
                  +:+ Py.str_int (Z.of_nat (length (segments t)))
                  +:+ " segments...");
               JobProgress (job_id (ps_job s)) "generating_tts" 95
                 ("TTS failed: " +:+ Py.take 50 e)]) s)).
Proof.
  intros Hjob Hid Hst Hp Hok s0.
  pose proof (queued_is_live job Hst Hp) as Hlive.
  assert (running id s0) as H0.
  { split; cbn; try done. by exists job. }
  split_and!.
  - intros e s1 Hstages.
    pose proof (stages_raise_running o id e s0 s1 H0 Hstages) as H1.
    destruct (fail_job_effect id e s1 H1) as (s' & Hfail & Hrow & Hev & Hh).
    exists s'. split; [|done].
    rewrite (process_job_async_found _ _ _ _ _ _ Hjob).
    fold s0. unfold try_except. by rewrite Hstages, Hfail.
  - intros sa e s1 H1 H2. unfold stages, bind. by rewrite H1, H2.
  - intros sa sb e s1 H1 H2 Hen H3. unfold stages, bind.
    by rewrite H1, H2, (diarization_step_enabled _ _ _ Hen), H3.
  - intros sa sb sc e s1 H1 H2 H3 Hen H4. unfold stages, bind.
    by rewrite H1, H2, H3, (tts_step_enabled _ _ _ Hen), H4.
  - intros e s model audio Hsel Hdl Haudio He.
    unfold run_diarization. unfold bind at 1, gets at 1.
    unfold bind at 1. rewrite Hsel, Hdl. cbn [negb].
    rewrite Haudio, He. destruct s as [d0 j0 b0 t0 o0 ev0 h0 c0].
    cbv [bind ret gets modify lift broadcast_progress
         with_events ps_events ps_job ps_db ps_batch ps_transcript
         ps_tts_output ps_history ps_clock].
    by rewrite <- app_assoc.
  - intros e s model t Hsel Hdl Ht Hmk He.
    unfold run_tts. unfold bind at 1, gets at 1.
    unfold bind at 1. rewrite Hsel, Hdl. cbn [negb].
    rewrite Hmk, He. destruct s as [d0 j0 b0 t0 o0 ev0 h0 c0].
    cbn [ps_transcript] in Ht. subst t0.
    cbv [bind ret gets modify lift call broadcast_progress load_transcript
         with_events ps_events ps_job ps_db ps_batch ps_transcript
         ps_tts_output ps_history ps_clock].
    by rewrite <- !app_assoc.
Qed.

(** A job whose input cannot be decoded. *)
Definition broken_input : Engines :=
  {| extract_audio := Py.Raise "ffmpeg exited with status 1";
     whisper_load := None; whisper_segments := [];
     whisper_iter_error := None; whisper_language := None;
     whisper_duration := 0; write_outputs := None;
     diar_audio := diar_audio sound_engines; pyannote := pyannote sound_engines;
     tts_mkdir := None; xtts := xtts sound_engines; ffmpeg_concat := None;
     wave_info := None |}.

Lemma escaping_exception_fails_job_witness :
  exists s',
    process_job_async broken_input "j1" ready_db [] 0
      = (Py.Raise "ffmpeg exited with status 1", Some s') /\
    (exists row, jobs (ps_db s') !! "j1"%string = Some row /\
                 status row = FAILED /\
                 error_message row = Some "ffmpeg exited with status 1"%string) /\
    last (ps_events s')
      = Some (JobProgress "j1" "failed" 0 "ffmpeg exited with status 1").
Proof.
  assert (Hj : jobs ready_db !! "j1"%string = Some a_job) by (by vm_compute).
  assert (Hp : progress a_job == 0) by (by vm_compute).
  assert (Hok : batches_ok ready_db).
  { intros bid b Hb. by vm_compute in Hb. }
  destruct (escaping_exception_fails_job broken_input "j1" ready_db [] 0 a_job
              Hj eq_refl eq_refl Hp Hok) as (Hfail & Htr & _).
  set (s0 := open_session ready_db [] 0 a_job) in *.
  set (sa := (start_job "j1" s0).2).
  set (s1 := (run_transcription broken_input sa).2).
  assert (start_job "j1" s0 = (Py.Ret (), sa)) as H1 by (by vm_compute).
  assert (run_transcription broken_input sa
          = (Py.Raise "ffmpeg exited with status 1", s1)) as H2
    by (by vm_compute).
  destruct (Hfail _ _ (Htr _ _ _ H1 H2)) as (s' & Hrun & Hrow & Hev & _).
  exists s'. split_and!; [done|done|]. by rewrite Hev, last_snoc.
Defined.

(** *** The stored transcript *)

Lemma string_app_assoc (a b c : string) : (a +:+ b) +:+ c = a +:+ (b +:+ c).
Proof.
  induction a as [|x a IH]; [done|].
  change (String x ((a +:+ b) +:+ c) = String x (a +:+ b +:+ c)).
  by rewrite IH.
Qed.

Lemma split_from_length (cur s : string) :
  length (Py.split_from cur s)
  = match cur with
    | EmptyString => token_starts true s
    | _ => S (token_starts false s)
    end.
Proof.
  revert cur. induction s as [|c r IH]; intros cur; simpl.
  - by destruct cur.
  - destruct (Py.is_space c); simpl.
    + destruct cur; simpl; by rewrite IH.
    + rewrite IH. destruct cur; simpl; lia.
Qed.

Lemma split_length (s : string) : length (Py.split s) = count_tokens s.
Proof. apply (split_from_length EmptyString). Qed.

Lemma join_spaces (texts : list string) :
  Py.join " " texts = joined_by_spaces texts.
Proof.
  destruct texts as [|t rest]; [done|]. unfold Py.join.
  revert t. induction rest as [|u rest IH]; intros t; [done|].
  cbn [fold_left]. rewrite IH. cbn [joined_by_spaces].
  destruct rest as [|v rest]; [done|by rewrite !string_app_assoc].
Qed.

Lemma word_count_sum (segments : list SegDict) :
  word_count_of segments
  = sum_list (map (fun seg => count_tokens (sd_text seg)) segments).
Proof.
  unfold word_count_of.
  assert (forall acc,
    fold_left (fun acc seg => (acc + length (Py.split (sd_text seg)))%nat)
              segments acc
    = (acc + sum_list (map (fun seg => count_tokens (sd_text seg)) segments))%nat)
    as H; [|by rewrite H].
  induction segments as [|seg rest IH]; intros acc; simpl; [lia|].
  rewrite IH, split_length. lia.
Qed.

Lemma map_imap {A B C} (g : B -> C) (f : nat -> A -> B) (l : list A) :
  map g (imap f l) = imap (fun i x => g (f i x)) l.
Proof.
  revert f. induction l as [|x l IH]; intros f; simpl; [done|].
  f_equal. apply IH.
Qed.

Lemma imap_ignore {A B} (h : A -> B) (l : list A) :
  imap (fun _ x => h x) l = map h l.
Proof. induction l as [|x l IH]; simpl; [done|]. f_equal. apply IH. Qed.

Lemma imap_index {A} (n : nat) (l : list A) :
  imap (fun i _ => (n + i)%nat) l = seq n (length l).
Proof.
  revert n. induction l as [|x l IH]; intros n; simpl; [done|].
  f_equal; [lia|]. rewrite <- IH. apply imap_ext. intros i y _. simpl. lia.
Qed.

(** The texts of the segments the engine produced, stripped as
    [transcribe_faster_whisper] strips them. *)
Definition produced_texts o : list string :=
  map (fun seg => Py.strip (raw_text seg)) (whisper_segments o).

(** C10: after the Transcribe stage has returned, the stored transcript's
    [full_text] is the segment texts joined in segment order by single
    spaces and its [word_count] is the sum over the segments of the number
    of whitespace-separated tokens of the segment's text; the segment rows
    carry the same texts under the indices 0, 1, 2, ... *)
Theorem transcript_text_and_word_count o s s' :
  run_transcription o s = (Py.Ret (), s') ->
  exists t,
    transcripts (ps_db s') !! job_id (ps_job s) = Some t /\
    full_text t = joined_by_spaces (produced_texts o) /\
    word_count t = sum_list (map count_tokens (produced_texts o)) /\
    map text (segments t) = produced_texts o /\
    map segment_index (segments t) = seq 0 (length (produced_texts o)).
Proof.
  destruct s as [d job batch tr tts evs hist clock]. intros Hrun. fields.
  unfold run_transcription, transcribe_faster_whisper in Hrun. run;
    rewrite collect_segments_run in *; run;
    (eexists; split;
     [ rewrite flush_transcripts; cbn [ps_transcript set_segments t_job_id];
       apply lookup_insert_eq |]);
    cbn [full_text word_count segments set_segments];
    unfold full_text_of, produced_texts, segment_rows;
    rewrite join_spaces, word_count_sum, !map_map;
    (split_and!; [done|done| |]).
  all: rewrite map_imap; cbn [text segment_index].
  all: clear -o.
  1,3,5: exact (eq_trans (imap_ignore sd_text _) (map_map _ _ _)).
  all: rewrite (imap_index 0), !length_map; reflexivity.
Qed.

Lemma transcript_text_and_word_count_witness :
  exists s' t,
    run_transcription sound_engines (open_session ready_db [] 0 a_job)
      = (Py.Ret (), s') /\
    transcripts (ps_db s') !! "j1"%string = Some t /\
    full_text t = "hello  world again"%string /\ word_count t = 3%nat.
Proof.
  destruct (run_transcription sound_engines (open_session ready_db [] 0 a_job))
    as [[[]|e] s'] eqn:E; [|by vm_compute in E].
  destruct (transcript_text_and_word_count sound_engines _ s' E)
    as (t & Ht & Hfull & Hcount & _).
  exists s', t. split_and!.
  - reflexivity.
  - exact Ht.
  - rewrite Hfull. by vm_compute.
  - rewrite Hcount. by vm_compute.
Defined.

(** *** The range of the published progress *)

Lemma start_job_events (id : string) s s1 :
  start_job id s = (Py.Ret (), s1) ->
  ps_events s1
  = ps_events s ++ [JobProgress id "processing" 0 "Starting job...";
                    JobProgress id "transcribing" 5 "Transcribing audio..."] /\
  job_id (ps_job s1) = job_id (ps_job s).
Proof.
  destruct s as [d job batch tr tts evs hist clock].
  intros Hrun. unfold start_job in Hrun. run. fields.
  by rewrite <- app_assoc.
Qed.

Lemma complete_job_last (id : string) s (r : Result) s' :
  complete_job id s = (Py.Ret r, s') ->
  exists before,
    ps_events s' = before ++ [JobProgress id "completed" 100 "Job completed!"].
Proof.
  destruct s as [d job batch tr tts evs hist clock].
  intros Hrun. unfold complete_job in Hrun. run; fields; by eexists.
Qed.

Lemma nondecreasing_above (a : Q) (l : list Q) :
  nondecreasing (a :: l) -> Forall (fun p => a <= p) l.
Proof.
  revert a. induction l as [|b l IH]; intros a H; [constructor|].
  destruct H as [Hab Hl]. constructor; [done|].
  eapply Forall_impl; [by apply IH|]. intros p Hp. cbn in Hp. lra.
Qed.

(** X21: when the run returns normally and the STT engine reports
    segment ends that are not negative and do not decrease, the progress
    values published for the job start at 0, end at 100 and all lie
    between 0 and 100. *)
Theorem progress_range_on_success o (id : string) (d : Db)
    (evs : list Event) (clock : nat) (job : Job) (r : Result) s' :
  jobs d !! id = Some job -> job_id job = id -> steady o ->
  process_job_async o id d evs clock = (Py.Ret r, Some s') ->
  exists new, ps_events s' = evs ++ new /\
    head (published_progress id new) = Some 0 /\
    last (published_progress id new) = Some 100 /\
    Forall (fun p => 0 <= p <= 100) (published_progress id new).
Proof.
  intros Hjob Hid Hsteady Hrun. unfold process_job_async in Hrun.
  rewrite Hjob in Hrun. cbn zeta in Hrun.
  destruct (try_except _ _ _) as [res s''] eqn:Htry. cbn in Hrun.
  simplify_eq.
  apply stages_return in Htry as (s1 & s2 & s3 & s4 & H1 & H2 & H3 & H4 & H5).
  destruct (start_job_events _ _ _ H1) as [Hev1 Hid1].
  cbn [open_session ps_events ps_job] in Hev1, Hid1.
  destruct (complete_job_last _ _ _ _ H5) as (before & Hlast).
  (* the messages since the start of the run *)
  pose proof H1 as G1. apply start_job_progress in G1; [|done].
  cbn [open_session ps_events] in G1.
  pose proof H2 as G2.
  apply (run_transcription_progress _ _ _ _ _ _ Hsteady G1) in G2.
  pose proof H3 as G3. apply (diarization_step_progress _ _ _ _ _ _ G2) in G3.
  pose proof H4 as G4. apply (tts_step_progress _ _ _ _ _ _ G3) in G4.
  destruct G4 as [_ G4].
  pose proof H5 as G5. apply (complete_job_progress _ _ _ _ _ G4) in G5.
  destruct G5 as (new & Hnew & Hn & Hle).
  (* the messages since the first stage *)
  assert (on_track (job_id job) (ps_events s1) 5 s1) as K1.
  { split; [done|]. apply climbing_start. }
  apply (run_transcription_progress _ _ _ _ _ _ Hsteady K1) in H2.
  apply (diarization_step_progress _ _ _ _ _ _ H2) in H3.
  apply (tts_step_progress _ _ _ _ _ _ H3) in H4.
  destruct H4 as [_ H4].
  apply (complete_job_progress _ _ _ _ _ H4) in H5.
  destruct H5 as (new2 & Hnew2 & _ & _).
  rewrite Hev1, <- app_assoc in Hnew2. rewrite Hnew in Hnew2.
  apply app_inv_head in Hnew2. subst new.
  exists (([JobProgress (job_id job) "processing" 0 "Starting job...";
            JobProgress (job_id job) "transcribing" 5 "Transcribing audio..."]
           ++ new2)).
  split; [done|].
  assert (published_progress (job_id job)
            ([JobProgress (job_id job) "processing" 0 "Starting job...";
              JobProgress (job_id job) "transcribing" 5
                "Transcribing audio..."] ++ new2)
          = 0 :: 5 :: published_progress (job_id job) new2) as Hpp.
  { unfold published_progress. cbn. by rewrite String.eqb_refl. }
  rewrite Hpp in *. split; [done|]. split.
  - destruct new2 as [|x new2 _] using rev_ind.
    + exfalso. rewrite app_nil_r in Hnew.
      change [JobProgress (job_id job) "processing" 0 "Starting job...";
              JobProgress (job_id job) "transcribing" 5
                "Transcribing audio..."]
        with ([JobProgress (job_id job) "processing" 0 "Starting job..."]
              ++ [JobProgress (job_id job) "transcribing" 5
                    "Transcribing audio..."]) in Hnew.
      rewrite Hlast, app_assoc in Hnew.
      apply app_inj_tail in Hnew as [_ Hnew]. discriminate Hnew.
    + rewrite Hlast in Hnew.
      change (evs ++ [JobProgress (job_id job) "processing" 0 "Starting job...";
              JobProgress (job_id job) "transcribing" 5
                "Transcribing audio..."] ++ new2 ++ [x])
        with (evs ++ ([JobProgress (job_id job) "processing" 0 "Starting job...";
              JobProgress (job_id job) "transcribing" 5
                "Transcribing audio..."] ++ new2) ++ [x]) in Hnew.
      rewrite app_assoc in Hnew. apply app_inj_tail in Hnew as [_ <-].
      rewrite published_progress_snoc. unfold published_progress at 2.
      cbn. rewrite String.eqb_refl.
      change (5 :: published_progress (job_id job) new2 ++ [100])
        with ((5 :: published_progress (job_id job) new2) ++ [100]).
      apply last_snoc.
  - apply nondecreasing_above in Hn.
    apply Forall_cons. split; [lra|].
    rewrite Forall_forall in Hn, Hle. apply Forall_forall. intros p Hp.
    split; [by apply Hn|]. apply Hle. by right.
Qed.

Lemma progress_range_on_success_witness :
  exists new,
    events_of (process_job_async sound_engines "j1" ready_db [] 0) = [] ++ new /\
    head (published_progress "j1" new) = Some 0 /\
    last (published_progress "j1" new) = Some 100.
Proof.
  destruct (process_job_async sound_engines "j1" ready_db [] 0)
    as [[r|e] [s'|]] eqn:E; try (by vm_compute in E).
  unfold events_of. cbn [snd].
  destruct (progress_range_on_success sound_engines "j1" ready_db [] 0
              a_job r s') as (new & Hnew & Hhead & Hlast' & _).
  - by vm_compute.
  - done.
  - split; [by vm_compute|]. cbn. split_and!; by vm_compute.
  - exact E.
  - by exists new.
Defined.

(** *** The order of the stages *)

(** The place of a status in the pipeline. *)
Definition stage_rank (st : JobStatus) : nat :=
  match st with
  | PENDING | QUEUED => 0
  | PROCESSING => 1
  | TRANSCRIBING => 2
  | DIARIZING => 3
  | SYNTHESIZING => 4
  | SYNCING => 5
  | COMPLETED | FAILED | CANCELLED => 6
  end.

(** The statuses the runner writes. *)
Definition runner_status (st : JobStatus) : bool :=
  match st with
  | PROCESSING | TRANSCRIBING | DIARIZING | SYNTHESIZING | COMPLETED
  | FAILED => true
  | _ => false
  end.

(** Rows whose statuses follow the order of the stages. *)
Definition in_stage_order (rows : list Job) : Prop :=
  forall (i j : nat) ri rj,
    (i <= j)%nat -> rows !! i = Some ri -> rows !! j = Some rj ->
    (stage_rank (status ri) <= stage_rank (status rj))%nat.

Definition orderly (rows : list Job) : Prop :=
  in_stage_order rows /\
  Forall (fun r => runner_status (status r) = true) rows.

(** The session of a job that is at the stage with status [X]. *)
Definition at_stage (X : JobStatus) s : Prop :=
  status (ps_job s) = X /\ runner_status X = true /\
  orderly (ps_history s) /\
  Forall (fun r => (stage_rank (status r) <= stage_rank X)%nat) (ps_history s).

(** The job has come to the stage of rank [b] at most. *)
Definition upto (b : nat) s : Prop :=
  exists X, (stage_rank X <= b)%nat /\ at_stage X s.

Lemma stage_rank_max (st : JobStatus) : (stage_rank st <= 6)%nat.
Proof. destruct st; cbn; lia. Qed.

Lemma in_stage_order_snoc (rows : list Job) (r : Job) :
  in_stage_order rows ->
  Forall (fun r' => (stage_rank (status r') <= stage_rank (status r))%nat)
         rows ->
  in_stage_order (rows ++ [r]).
Proof.
  intros Hord Hle i j ri rj Hij Hi Hj.
  destruct (decide (j < length rows)%nat) as [Hlt|Hge].
  - rewrite lookup_app_l in Hi, Hj by lia. by apply (Hord i j).
  - assert (rj = r) as ->.
    { rewrite lookup_app_r in Hj by lia.
      apply list_lookup_singleton_Some in Hj as [_ ->]. done. }
    destruct (decide (i < length rows)%nat) as [Hi'|Hi'].
    + rewrite lookup_app_l in Hi by lia. rewrite Forall_forall in Hle.
      apply Hle. by eapply list_elem_of_lookup_2.
    + rewrite lookup_app_r in Hi by lia.
      apply list_lookup_singleton_Some in Hi as [_ ->]. done.
Qed.

Lemma orderly_snoc (rows : list Job) (r : Job) :
  orderly rows -> runner_status (status r) = true ->
  Forall (fun r' => (stage_rank (status r') <= stage_rank (status r))%nat)
         rows ->
  orderly (rows ++ [r]).
Proof.
  intros [Hord Hall] Hr Hle. split.
  - by apply in_stage_order_snoc.
  - apply Forall_app. split; [done|]. by constructor.
Qed.

(** A row with a final status can follow any rows. *)
Lemma orderly_final (rows : list Job) (r : Job) :
  orderly rows -> stage_rank (status r) = 6%nat ->
  runner_status (status r) = true -> orderly (rows ++ [r]).
Proof.
  intros Ho Hr Hs. apply orderly_snoc; [done|done|].
  apply Forall_forall. intros r' _. rewrite Hr. apply stage_rank_max.
Qed.

Lemma keeps_at_stage_quiet {A} (X : JobStatus) (m : M A) :
  (forall s, status (ps_job (m s).2) = status (ps_job s) /\
             ps_history (m s).2 = ps_history s) ->
  keeps (at_stage X) m.
Proof.
  intros Hq s (H1 & H2 & H3 & H4). destruct (Hq s) as [Es Eh].
  unfold at_stage. by rewrite Es, Eh.
Qed.

Lemma keeps_at_stage_assign (X : JobStatus) (f : Job -> Job) :
  (forall j, status (f j) = status j) -> keeps (at_stage X) (assign_job f).
Proof. intros Hf. apply keeps_at_stage_quiet. intros s. cbn. by rewrite Hf. Qed.

Lemma keeps_at_stage_commit (X : JobStatus) : keeps (at_stage X) commit.
Proof.
  intros s (H1 & H2 & H3 & H4). unfold at_stage. cbn.
  split_and!; [done|done| |].
  - apply orderly_snoc; [done|by rewrite H1|by rewrite H1].
  - apply Forall_app. split; [done|]. constructor; [|done]. by rewrite H1.
Qed.

Lemma keeps_at_stage_load_transcript (X : JobStatus) :
  keeps (at_stage X) load_transcript.
Proof.
  apply keeps_at_stage_quiet. intros s. unfold load_transcript.
  by destruct (ps_transcript s).
Qed.

(** Applies the rules for [keeps] to a stage that stays at its status. *)
Ltac keep_stage :=
  repeat first
    [ apply keeps_ret | apply keeps_raise | apply keeps_gets
    | apply keeps_call | apply keeps_lift | apply keeps_stage_model
    | apply keeps_at_stage_commit | apply keeps_at_stage_load_transcript
    | apply keeps_at_stage_assign; by intros []
    | apply keeps_at_stage_quiet; by intros []
    | apply keeps_collect_segments; intros
    | apply keeps_bind; [|intros ?]
    | match goal with
      | |- keeps _ (match ?x with _ => _ end) => destruct x
      | |- keeps _ (let ' (_, _) := ?x in _) => destruct x
      end ].

Lemma keeps_at_stage_transcription (X : JobStatus) o :
  keeps (at_stage X) (run_transcription o).
Proof. unfold run_transcription, transcribe_faster_whisper. keep_stage. Qed.

Lemma keeps_at_stage_diarization (X : JobStatus) o :
  keeps (at_stage X) (run_diarization o).
Proof. unfold run_diarization. keep_stage. Qed.

Lemma keeps_at_stage_tts (X : JobStatus) o :
  keeps (at_stage X) (run_tts o).
Proof. unfold run_tts. keep_stage. Qed.

Lemma upto_weaken (a b : nat) s : (a <= b)%nat -> upto a s -> upto b s.
Proof. intros Hab (X & HX & Hs). exists X. split; [lia|done]. Qed.

(** Entering the stage with status [Y] and running it. *)
Lemma enter_stage {A} (Y : JobStatus) (b : nat) (m : M A) s :
  runner_status Y = true -> (b <= stage_rank Y)%nat ->
  keeps (at_stage Y) m -> upto b s ->
  upto (stage_rank Y)
       (bind (assign_job (set_status Y)) (fun _ => bind commit (fun _ => m))
             s).2.
Proof.
  intros HY Hb Hm (X & HX & H1 & H2 & H3 & H4).
  exists Y. split; [done|].
  assert (at_stage Y (with_job (set_status Y (ps_job s)) s)) as Hs1.
  { unfold at_stage. cbn. split_and!; [by destruct (ps_job s)|done|done|].
    eapply Forall_impl; [exact H4|]. intros r Hr. cbn in Hr. lia. }
  unfold bind at 1. cbn.
  apply (keeps_bind (at_stage Y) commit (fun _ => m));
    [apply keeps_at_stage_commit|by intros _|exact Hs1].
Qed.

Lemma diarization_step_upto o (id : string) s :
  upto 2 s -> upto 3 (diarization_step o id s).2.
Proof.
  intros Hs. unfold diarization_step. unfold bind at 1, gets.
  destruct (enable_diarization (ps_job s)).
  - apply (enter_stage DIARIZING 2); [done|cbn; lia| |done].
    apply keeps_bind; [by apply keeps_at_stage_quiet; intros []|].
    intros _. apply keeps_at_stage_diarization.
  - cbn. by apply (upto_weaken 2 3); [lia|].
Qed.

Lemma tts_step_upto o (id : string) s :
  upto 3 s -> upto 4 (tts_step o id s).2.
Proof.
  intros Hs. unfold tts_step. unfold bind at 1, gets.
  destruct (enable_tts (ps_job s)).
  - apply (enter_stage SYNTHESIZING 3); [done|cbn; lia| |done].
    apply keeps_bind; [by apply keeps_at_stage_quiet; intros []|].
    intros _. apply keeps_at_stage_tts.
  - cbn. by apply (upto_weaken 3 4); [lia|].
Qed.

Lemma upto_orderly (b : nat) s : upto b s -> orderly (ps_history s).
Proof. by intros (X & _ & _ & _ & H & _). Qed.

Lemma start_job_at_stage (id : string) s :
  ps_history s = [] ->
  exists s1, start_job id s = (Py.Ret (), s1) /\ at_stage TRANSCRIBING s1.
Proof.
  destruct s as [d job batch tr tts evs hist clock]. cbn. intros ->.
  eexists. split; [reflexivity|]. unfold at_stage. cbn.
  split_and!; [by destruct job|done| |].
  - split.
    + intros [|[|i]] [|[|j]] ri rj Hij Hi Hj; simplify_eq/=;
        try lia; destruct job; cbn; lia.
    + repeat constructor; by destruct job.
  - repeat constructor; destruct job; cbn; lia.
Qed.

(** The two ways a run ends append rows with a final status. *)
Lemma complete_job_orderly (id : string) s (res : Py.outcome Result) s' :
  complete_job id s = (res, s') ->
  orderly (ps_history s) -> orderly (ps_history s').
Proof.
  destruct s as [d job batch tr tts evs hist clock]. intros Hrun Ho.
  fields. unfold complete_job in Hrun. run; fields;
    repeat (apply orderly_final; [|by fields|by fields]); done.
Qed.

Lemma fail_job_orderly (id e : string) s (res : Py.outcome Result) s' :
  fail_job id e s = (res, s') ->
  orderly (ps_history s) -> orderly (ps_history s').
Proof.
  destruct s as [d job batch tr tts evs hist clock]. intros Hrun Ho.
  fields. unfold fail_job in Hrun. run; fields;
    repeat (apply orderly_final; [|by fields|by fields]); done.
Qed.

(** X22: the rows a run commits carry statuses in the order of the
    stages: processing, transcribing, diarizing, synthesizing, and then
    completed or failed; a later row never has an earlier status.  The
    runner never writes the status [syncing] (it has no timing-sync stage),
    nor [pending], [queued] or [cancelled]. *)
Theorem run_follows_stage_order o (id : string) (d : Db) (evs : list Event)
    (clock : nat) (job : Job) s' :
  jobs d !! id = Some job ->
  (process_job_async o id d evs clock).2 = Some s' ->
  in_stage_order (ps_history s') /\
  Forall (fun r => status r ∈ [PROCESSING; TRANSCRIBING; DIARIZING;
                              SYNTHESIZING; COMPLETED; FAILED])
         (ps_history s').
Proof.
  intros Hjob Hrun.
  assert (orderly (ps_history s')) as [Hord Hall].
  { rewrite (process_job_async_found o id d evs clock job Hjob) in Hrun.
    cbn [snd] in Hrun. injection Hrun as <-.
    set (s0 := open_session d evs clock job).
    unfold try_except, stages, bind.
    destruct (start_job_at_stage id s0 eq_refl) as (s1 & -> & H1).
    assert (upto 2 s1) as U1 by (exists TRANSCRIBING; by split).
    pose proof (keeps_at_stage_transcription TRANSCRIBING o s1 H1) as H2.
    destruct (run_transcription o s1) as [[[]|e2] s2]; cbn [snd] in H2.
    2: { destruct (fail_job id e2 s2) as [r' s''] eqn:F.
         apply (fail_job_orderly _ _ _ _ _ F).
         by destruct H2 as (_ & _ & ? & _). }
    assert (upto 2 s2) as U2 by (exists TRANSCRIBING; by split).
    pose proof (diarization_step_upto o id s2 U2) as U3.
    destruct (diarization_step o id s2) as [[[]|e3] s3]; cbn [snd] in U3.
    2: { destruct (fail_job id e3 s3) as [r' s''] eqn:F.
         apply (fail_job_orderly _ _ _ _ _ F). by eapply upto_orderly. }
    pose proof (tts_step_upto o id s3 U3) as U4.
    destruct (tts_step o id s3) as [[[]|e4] s4]; cbn [snd] in U4.
    2: { destruct (fail_job id e4 s4) as [r' s''] eqn:F.
         apply (fail_job_orderly _ _ _ _ _ F). by eapply upto_orderly. }
    destruct (complete_job id s4) as [[res|e5] s5] eqn:C.
    - apply (complete_job_orderly _ _ _ _ C). by eapply upto_orderly.
    - destruct (fail_job id e5 s5) as [r' s''] eqn:F.
      apply (fail_job_orderly _ _ _ _ _ F).
      apply (complete_job_orderly _ _ _ _ C). by eapply upto_orderly. }
  split; [done|]. eapply Forall_impl; [exact Hall|].
  intros r Hr. cbn in Hr. destruct (status r); try done;
    repeat first [by left | right].
Qed.

Lemma run_follows_stage_order_witness :
  exists s',
    (process_job_async sound_engines "j1" ready_db [] 0).2 = Some s' /\
    map status (ps_history s')
    = [PROCESSING; TRANSCRIBING; TRANSCRIBING; TRANSCRIBING; DIARIZING;
       DIARIZING; COMPLETED] /\
    in_stage_order (ps_history s').
Proof.
  destruct (process_job_async sound_engines "j1" ready_db [] 0).2
    as [s'|] eqn:E; [|by vm_compute in E].
  exists s'. split; [done|]. split.
  - revert E. by vm_compute; intros [= <-].
  - by destruct (run_follows_stage_order sound_engines "j1" ready_db [] 0
                   a_job s' eq_refl E).
Defined.

(** *** The stored word count and the stored text *)

Lemma token_starts_sep (b : bool) (a rest : string) :
  token_starts b (a +:+ String " " rest)
  = (token_starts b a + token_starts true rest)%nat.
Proof.
  revert b. induction a as [|c a IH]; intros b.
  - change ("" +:+ String " " rest) with (String " " rest).
    cbn [token_starts]. change (Py.is_space " ") with true.
    by rewrite andb_false_r.
  - change (String c a +:+ String " " rest)
      with (String c (a +:+ String " " rest)).
    cbn [token_starts]. rewrite IH. lia.
Qed.

Lemma count_tokens_joined (texts : list string) :
  count_tokens (joined_by_spaces texts) = sum_list (map count_tokens texts).
Proof.
  induction texts as [|t [|u rest] IH]; [done| |].
  - change (count_tokens t = (count_tokens t + 0)%nat). lia.
  - change (joined_by_spaces (t :: u :: rest))
      with (t +:+ String " " (joined_by_spaces (u :: rest))).
    unfold count_tokens at 1. rewrite token_starts_sep.
    change (token_starts true (joined_by_spaces (u :: rest)))
      with (count_tokens (joined_by_spaces (u :: rest))).
    rewrite IH. reflexivity.
Qed.

(** X23: the word count [run_transcription] stores is the number of
    whitespace-separated words of the text it stores: joining the segment
    texts with spaces neither merges nor splits a word. *)
Theorem stored_word_count_counts_full_text o s s' :
  run_transcription o s = (Py.Ret (), s') ->
  exists t,
    transcripts (ps_db s') !! job_id (ps_job s) = Some t /\
    word_count t = length (Py.split (full_text t)).
Proof.
  destruct s as [d job batch tr tts evs hist clock]. intros Hrun. fields.
  unfold run_transcription, transcribe_faster_whisper in Hrun. run;
    rewrite collect_segments_run in *; run;
    (eexists; split;
     [ rewrite flush_transcripts; cbn [ps_transcript set_segments t_job_id];
       apply lookup_insert_eq |]);
    cbn [full_text word_count segments set_segments];
    unfold full_text_of;
    rewrite split_length, join_spaces, word_count_sum, count_tokens_joined;
    by rewrite !map_map.
Qed.

Lemma stored_word_count_counts_full_text_witness :
  exists s' t,
    run_transcription sound_engines (open_session ready_db [] 0 a_job)
      = (Py.Ret (), s') /\
    transcripts (ps_db s') !! "j1"%string = Some t /\
    word_count t = length (Py.split (full_text t)).
Proof.
  destruct (run_transcription sound_engines (open_session ready_db [] 0 a_job))
    as [[[]|e] s'] eqn:E; [|by vm_compute in E].
  destruct (stored_word_count_counts_full_text sound_engines _ s' E)
    as (t & Ht & Hcount).
  by exists s', t.
Defined.
End Runner.


(** ** The connection manager (api/queue.py) *)

Section Broadcast.
Import Connections.

Implicit Types (send : WebSocket -> bool) (conns : list WebSocket).

Lemma send_all_spec send conns :
  send_all send conns
  = (filter (fun c => send c = true) conns,
     filter (fun c => send c = false) conns).
Proof.
  induction conns as [|c rest IH]; [done|]. simpl. rewrite IH.
  rewrite !filter_cons. destruct (send c); by repeat case_decide.
Qed.

Lemma remove_middle (x : WebSocket) pre rest :
  x ∉ pre -> remove x (pre ++ x :: rest) = pre ++ rest.
Proof.
  induction pre as [|y pre IH]; intros Hx; simpl.
  - by rewrite decide_True.
  - apply not_elem_of_cons in Hx as [Hne Hx].
    rewrite decide_False by done. by rewrite IH.
Qed.

(** Dropping the connections whose send raised, one [disconnect] after the
    other, leaves the connections whose send returned, in their order. *)
Lemma prune_spec send pre rest :
  Forall (fun c => send c = true) pre ->
  foldl (fun conns conn => disconnect conn conns) (pre ++ rest)
        (filter (fun c => send c = false) rest)
  = pre ++ filter (fun c => send c = true) rest.
Proof.
  revert pre. induction rest as [|c rest IH]; intros pre Hpre; [done|].
  rewrite !filter_cons. destruct (send c) eqn:Hc.
  - rewrite decide_False, decide_True by done.
    rewrite (cons_middle c pre rest), app_assoc. rewrite IH.
    + by rewrite <- app_assoc.
    + apply Forall_app. split; [done|]. by constructor.
  - rewrite decide_True, decide_False by done. cbn [foldl].
    unfold disconnect at 2. rewrite decide_True.
    2: { apply elem_of_app. right. by left. }
    rewrite remove_middle; [by apply IH|].
    intros Hin. rewrite Forall_forall in Hpre. specialize (Hpre c Hin).
    congruence.
Qed.

(** X1: after a broadcast the connections that remain are exactly the
    ones that received the message, in the order they had; every
    connection whose send raised is gone, however often it was listed. *)
Theorem broadcast_keeps_receivers send conns :
  broadcast send conns
  = (filter (fun c => send c = true) conns,
     filter (fun c => send c = true) conns).
Proof.
  unfold broadcast. rewrite send_all_spec. f_equal.
  by apply (prune_spec send []).
Qed.

End Broadcast.

(** ** Priorities and positions (api/queue.py) *)

Section QueueOrder.
Import Database Queue.

Implicit Types (m : gmap string Job) (ids : list string) (d : Db)
  (evs : list Event).

Lemma last_occurrence ids (id : string) :
  id ∈ ids -> exists i : nat, ids !! i = Some id /\ id ∉ drop (S i) ids.
Proof.
  induction ids as [|x rest IH]; intros Hin; [by apply elem_of_nil in Hin|].
  destruct (decide (id ∈ rest)) as [Hrest|Hrest].
  - destruct (IH Hrest) as (i & Hi & Hlast). by exists (S i).
  - apply elem_of_cons in Hin as [->|Hin]; [|done]. by exists 0%nat.
Qed.

Lemma set_jobs_set_jobs (js js' : gmap string Job) d :
  set_jobs js (set_jobs js' d) = set_jobs js d.
Proof. done. Qed.

(** The job table a successful reorder leaves. *)
Lemma reorder_table ids d evs :
  ids <> [] -> all_reorderable ids d ->
  exists js,
    batch_reorder_queue ids (d, evs)
      = (inr (length ids), (set_jobs js d, evs ++ [QueueBatchReordered ids])) /\
    (forall (i : nat) id, ids !! i = Some id -> id ∉ drop (S i) ids ->
       exists job, jobs d !! id = Some job /\ js !! id = Some (placed i job)) /\
    (forall id, id ∉ ids -> js !! id = jobs d !! id).
Proof.
  intros Hne Hall. rewrite batch_reorder_queue_nonempty by done.
  assert (Hver : verify (fetch_jobs ids d) ids = None).
  { apply verify_None. intros id Hin. rewrite fetch_jobs_lookup.
    rewrite decide_True by done. by apply Hall. }
  rewrite Hver.
  destruct (assign_spec ids (fetch_jobs ids d) 0) as (m' & Hm' & Hout & Hin).
  { intros id Hid. rewrite fetch_jobs_lookup, decide_True by done.
    destruct (Hall id Hid) as (job & -> & _). by eexists. }
  change (Z.of_nat 0) with 0%Z in Hm'. rewrite Hm'.
  eexists. split; [reflexivity|]. split.
  - intros i id Hi Hlast. destruct (Hin i id Hi Hlast) as (job & Hj & Hj').
    rewrite fetch_jobs_lookup in Hj.
    rewrite decide_True in Hj by (by eapply list_elem_of_lookup_2).
    exists job. split; [done|].
    apply lookup_union_Some_raw. by left.
  - intros id Hid. rewrite lookup_union_r; [done|].
    rewrite (Hout id Hid), fetch_jobs_lookup. by rewrite decide_False.
Qed.

(** Two databases that differ only in the priority and the position of
    listed jobs are reordered into the same job table. *)
Lemma reorder_determined ids d1 d2 evs1 evs2 js1 js2 :
  batch_reorder_queue ids (d1, evs1)
    = (inr (length ids), (set_jobs js1 d1, evs1 ++ [QueueBatchReordered ids])) ->
  batch_reorder_queue ids (d2, evs2)
    = (inr (length ids), (set_jobs js2 d2, evs2 ++ [QueueBatchReordered ids])) ->
  (forall id, id ∈ ids ->
     exists j1 j2, jobs d1 !! id = Some j1 /\ jobs d2 !! id = Some j2 /\
                   reorderable (status j1) = true /\
                   forall i, placed i j1 = placed i j2) ->
  (forall id, id ∉ ids -> jobs d1 !! id = jobs d2 !! id) ->
  js1 = js2.
Proof.
  intros E1 E2 Hin Hout.
  assert (ids <> []) as Hne.
  { intros ->. done. }
  assert (all_reorderable ids d1) as H1.
  { intros id Hid. destruct (Hin id Hid) as (j1 & j2 & ? & ? & ? & ?).
    by exists j1. }
  assert (all_reorderable ids d2) as H2.
  { intros id Hid. destruct (Hin id Hid) as (j1 & j2 & ? & ? & Hr & Hp).
    exists j2. split; [done|].
    assert (status j2 = status j1) as ->; [|done].
    specialize (Hp 0%nat). by destruct j1, j2; simplify_eq/=. }
  destruct (reorder_table ids d1 evs1 Hne H1) as (k1 & F1 & In1 & Out1).
  destruct (reorder_table ids d2 evs2 Hne H2) as (k2 & F2 & In2 & Out2).
  rewrite E1 in F1. rewrite E2 in F2.
  assert (js1 = k1) as -> by (by simplify_eq/=).
  assert (js2 = k2) as -> by (by simplify_eq/=).
  apply map_eq. intros id. destruct (decide (id ∈ ids)) as [Hid|Hid].
  - destruct (last_occurrence ids id Hid) as (i & Hi & Hlast).
    destruct (In1 i id Hi Hlast) as (a & Ha & ->).
    destruct (In2 i id Hi Hlast) as (b & Hb & ->).
    destruct (Hin id Hid) as (j1 & j2 & Hj1 & Hj2 & _ & Hp).
    rewrite Hj1 in Ha. rewrite Hj2 in Hb. simplify_eq. by rewrite Hp.
  - rewrite (Out1 id Hid), (Out2 id Hid). by apply Hout.
Qed.

(** X2: a priority outside 1..10 is refused before the job is looked up;
    the request succeeds exactly when the priority is in range and the job
    exists in a pending or queued status; a refused request changes
    nothing and publishes nothing; an accepted one changes the priority of
    that job only and publishes one message. *)
Theorem update_job_priority_outcomes (id : string) (p : Z) d evs :
  let r := update_job_priority id p (d, evs) in
  ((p < 1 \/ 10 < p)%Z ->
   r.1 = inl (Http 400 "Priority must be between 1 and 10")) /\
  (r.1 = inr () <->
   (1 <= p <= 10)%Z /\
   exists job, jobs d !! id = Some job /\ reorderable (status job) = true) /\
  (r.1 <> inr () -> r.2 = (d, evs)) /\
  (r.1 = inr () ->
   exists job, jobs d !! id = Some job /\
     r.2 = (set_jobs (<[id := set_priority p job]> (jobs d)) d,
            evs ++ [PriorityChanged id p]) /\
     status (set_priority p job) = status job /\
     queue_position (set_priority p job) = queue_position job /\
     forall id', id' <> id -> jobs r.2.1 !! id' = jobs d !! id').
Proof.
  intros r. unfold r, update_job_priority.
  destruct (Z.ltb_spec p 1) as [Hlo|Hlo]; simpl.
  { split_and!; [done| |done|done]. split; [done|lia]. }
  destruct (Z.ltb_spec 10 p) as [Hhi|Hhi]; simpl.
  { split_and!; [done| |done|done]. split; [done|lia]. }
  destruct (jobs d !! id) as [job|] eqn:Hjob; simpl.
  2: { split_and!; [lia| |done|done].
       split; [done|]. by intros (_ & job & ? & _). }
  destruct (reorderable (status job)) eqn:Hr; simpl.
  - split_and!; [lia| |done|].
    + split; [|done]. intros _. split; [lia|]. by exists job.
    + intros _. exists job. split_and!; [done|done|by destruct job
        |by destruct job|].
      intros id' Hne. by rewrite lookup_insert_ne.
  - split_and!; [lia| |done|done].
    split; [done|]. intros (_ & job' & ? & ?). congruence.
Qed.

(** Two uploads that wait: one queued, one pending. *)
Definition waiting (id : string) (st : JobStatus) (pos : Z) : Job :=
  set_status st
    (Jobs.new_job id ("/uploads/" +:+ id +:+ ".wav") "auto" None None None None
       false false true ["json"; "srt"]%string 5 pos).
Definition waiting_room : Db :=
  {| jobs := {[ "early"%string := waiting "early" QUEUED 1;
                "late"%string := waiting "late" PENDING 2 ]};
     batches := ∅; models := ∅; transcripts := ∅; tts_outputs := ∅ |}.

(** X3: a move checks the new position against nothing but the width of
    the column: every position a signed 32-bit integer holds, zero and
    negative numbers included, is stored as given and no other job is
    renumbered, so that two jobs can hold the same position, and the job's
    priority stays what it was; a position outside that range makes the
    commit fail: the request is answered with status 500, and the database
    and the messages stay as they were. *)
Theorem move_job_in_queue_unchecked (id other : string) (pos : Z) d evs
    (job job2 : Job) :
  jobs d !! id = Some job -> reorderable (status job) = true ->
  jobs d !! other = Some job2 -> other <> id ->
  let r := move_job_in_queue id pos (d, evs) in
  ((- 2 ^ 31 <= pos < 2 ^ 31)%Z ->
   r.1 = inr () /\
   (exists row, jobs r.2.1 !! id = Some row /\
                queue_position row = Some pos /\
                priority row = priority job /\ status row = status job) /\
   jobs r.2.1 !! other = Some job2 /\
   r.2.2 = evs ++ [QueueReordered id pos]) /\
  (~ (- 2 ^ 31 <= pos < 2 ^ 31)%Z ->
   r = (inl (Http 500 "Internal Server Error"), (d, evs))).
Proof.
  intros Hjob Hr Hother Hne r. unfold r, move_job_in_queue.
  rewrite Hjob, Hr. cbn [negb]. unfold fits_integer.
  destruct (Z.leb_spec (- 2 ^ 31) pos) as [Hlo|Hlo];
    destruct (Z.ltb_spec pos (2 ^ 31)) as [Hhi|Hhi]; cbn [andb negb];
    (split; [|intros Hout; first [lia | done]]); intros Hin; try lia.
  cbn [fst snd jobs set_jobs].
  split_and!; [done| |by rewrite lookup_insert_ne|done].
  eexists. rewrite lookup_insert_eq. split; [done|].
  by destruct job.
Qed.

Lemma move_job_in_queue_unchecked_witness :
  let r := move_job_in_queue "late" (-3) (waiting_room, []) in
  r.1 = inr () /\
  (exists row, jobs r.2.1 !! "late"%string = Some row /\
               queue_position row = Some (-3)%Z /\
               priority row = 5%Z /\ status row = PENDING) /\
  jobs r.2.1 !! "early"%string = Some (waiting "early" QUEUED 1) /\
  r.2.2 = [] ++ [QueueReordered "late" (-3)].
Proof.
  apply (move_job_in_queue_unchecked "late" "early" (-3) waiting_room []
           (waiting "late" PENDING 2) (waiting "early" QUEUED 1));
    first [lia | by vm_compute].
Defined.

(** X4: reordering is idempotent on the database: a second request with
    the same list succeeds and leaves every table as the first one did. *)
Theorem batch_reorder_queue_idempotent ids d evs :
  ids <> [] -> all_reorderable ids d ->
  exists d' evs',
    batch_reorder_queue ids (d, evs) = (inr (length ids), (d', evs')) /\
    batch_reorder_queue ids (d', evs')
      = (inr (length ids), (d', evs' ++ [QueueBatchReordered ids])).
Proof.
  intros Hne Hall.
  destruct (reorder_table ids d evs Hne Hall) as (js & E1 & Hin & Hout).
  exists (set_jobs js d), (evs ++ [QueueBatchReordered ids]).
  split; [done|].
  assert (all_reorderable ids (set_jobs js d)) as Hall'.
  { intros id Hid. destruct (last_occurrence ids id Hid) as (i & Hi & Hlast).
    destruct (Hin i id Hi Hlast) as (job & Hj & Hjs).
    exists (placed i job). split; [done|].
    destruct (Hall id Hid) as (job' & Hj' & Hr). rewrite Hj in Hj'.
    simplify_eq. by destruct job'. }
  destruct (reorder_table ids (set_jobs js d)
              (evs ++ [QueueBatchReordered ids]) Hne Hall')
    as (js2 & E2 & _).
  rewrite E2. rewrite set_jobs_set_jobs. do 3 f_equal.
  symmetry. eapply (reorder_determined ids d (set_jobs js d)); [done|done| |].
  - intros id Hid. destruct (last_occurrence ids id Hid) as (i & Hi & Hlast).
    destruct (Hin i id Hi Hlast) as (job & Hj & Hjs).
    destruct (Hall id Hid) as (job' & Hj' & Hr). rewrite Hj in Hj'.
    simplify_eq. exists job', (placed i job'). split_and!; [done|done|done|].
    intros k. by rewrite placed_placed.
  - intros id Hid. cbn [jobs set_jobs]. by rewrite Hout.
Qed.

Lemma batch_reorder_queue_idempotent_witness :
  exists d' evs',
    batch_reorder_queue ["late"; "early"]%string (waiting_room, [])
      = (inr 2%nat, (d', evs')) /\
    batch_reorder_queue ["late"; "early"]%string (d', evs')
      = (inr 2%nat,
         (d', evs' ++ [QueueBatchReordered ["late"; "early"]%string])).
Proof.
  apply (batch_reorder_queue_idempotent ["late"; "early"]%string
           waiting_room []).
  - done.
  - intros id Hid.
    apply elem_of_cons in Hid as [->|Hid]; [by eexists|].
    apply elem_of_cons in Hid as [->|Hid]; [by eexists|].
    by apply elem_of_nil in Hid.
Defined.

(** A listed job whose priority or position was touched is reordered as
    if it had not been. *)
Lemma reorder_after_touch ids d evs evs2 (f : Job -> Job) (id : string)
    (job : Job) :
  id ∈ ids -> all_reorderable ids d -> jobs d !! id = Some job ->
  status (f job) = status job -> (forall i, placed i (f job) = placed i job) ->
  (batch_reorder_queue ids (set_jobs (<[id := f job]> (jobs d)) d, evs2)).2.1
  = (batch_reorder_queue ids (d, evs)).2.1.
Proof.
  intros Hid Hall Hjob Hst Hpl.
  assert (ids <> []) as Hne.
  { intros ->. by apply elem_of_nil in Hid. }
  set (d2 := set_jobs (<[id := f job]> (jobs d)) d).
  assert (all_reorderable ids d2) as Hall2.
  { intros k Hk. unfold d2. cbn [jobs set_jobs].
    destruct (decide (k = id)) as [->|Hk'].
    - rewrite lookup_insert_eq. exists (f job). split; [done|].
      rewrite Hst. destruct (Hall id Hid) as (j & Hj & Hr). by simplify_eq.
    - rewrite lookup_insert_ne by done. by apply Hall. }
  destruct (reorder_table ids d evs Hne Hall) as (js1 & E1 & _).
  destruct (reorder_table ids d2 evs2 Hne Hall2) as (js2 & E2 & _).
  rewrite E1, E2. cbn [fst snd]. unfold d2 at 1. rewrite set_jobs_set_jobs.
  f_equal. symmetry.
  eapply (reorder_determined ids d d2); [done|done| |].
  - intros k Hk. destruct (Hall k Hk) as (j & Hj & Hr). unfold d2.
    cbn [jobs set_jobs]. destruct (decide (k = id)) as [->|Hk'].
    + rewrite lookup_insert_eq. simplify_eq.
      exists job, (f job). split_and!; [done|done|done|]. intros i.
      by rewrite Hpl.
    + rewrite lookup_insert_ne by done. by exists j, j.
  - intros k Hk. unfold d2. cbn [jobs set_jobs].
    rewrite lookup_insert_ne; [done|]. by intros ->.
Qed.

(** X5: a reorder overrides what [update_job_priority] and
    [move_job_in_queue] did to a listed job before: the database after the
    reorder is the same whether or not the earlier request was made. *)
Theorem batch_reorder_queue_overrides ids d evs (id : string) (p pos : Z) :
  id ∈ ids -> all_reorderable ids d ->
  (batch_reorder_queue ids (update_job_priority id p (d, evs)).2).2.1
  = (batch_reorder_queue ids (d, evs)).2.1 /\
  (batch_reorder_queue ids (move_job_in_queue id pos (d, evs)).2).2.1
  = (batch_reorder_queue ids (d, evs)).2.1.
Proof.
  intros Hid Hall. destruct (Hall id Hid) as (job & Hjob & Hr). split.
  - unfold update_job_priority.
    destruct ((p <? 1)%Z || (10 <? p)%Z); [done|]. rewrite Hjob, Hr.
    cbn [negb snd].
    apply (reorder_after_touch ids d evs _ (set_priority p) id job);
      try done; by destruct job.
  - unfold move_job_in_queue. rewrite Hjob, Hr. cbn [negb].
    destruct (fits_integer pos); cbn [negb snd]; [|done].
    apply (reorder_after_touch ids d evs _ (set_queue_position (Some pos))
             id job); try done; by destruct job.
Qed.

Lemma batch_reorder_queue_overrides_witness :
  (batch_reorder_queue ["late"; "early"]%string
     (update_job_priority "early" 9 (waiting_room, [])).2).2.1
  = (batch_reorder_queue ["late"; "early"]%string (waiting_room, [])).2.1 /\
  (batch_reorder_queue ["late"; "early"]%string
     (move_job_in_queue "early" 7 (waiting_room, [])).2).2.1
  = (batch_reorder_queue ["late"; "early"]%string (waiting_room, [])).2.1.
Proof.
  apply (batch_reorder_queue_overrides ["late"; "early"]%string
           waiting_room [] "early" 9 7).
  - apply elem_of_cons. right. by left.
  - intros id Hid.
    apply elem_of_cons in Hid as [->|Hid]; [by eexists|].
    apply elem_of_cons in Hid as [->|Hid]; [by eexists|].
    by apply elem_of_nil in Hid.
Defined.

End QueueOrder.

(** ** Speakers, subtitles and output formats (api/jobs.py) *)

Section TranscriptsApi.
Import Database Queue Subtitles Pipeline Transcripts.

Implicit Types (m : gmap string (option string)) (d : Db).

(** What the rename does to one label. *)
Definition relabel m (label : option string) : option string :=
  match label with
  | Some old => default (Some old) (m !! old)
  | None => None
  end.

(** The segment's label is a key of the map. *)
Definition named_in m (seg : TranscriptSegment) : bool :=
  match speaker seg with
  | Some old => bool_decide (is_Some (m !! old))
  | None => false
  end.

Lemma rename_speaker_spec m seg :
  rename_speaker m seg
  = (set_speaker (relabel m (speaker seg)) seg, named_in m seg).
Proof.
  unfold rename_speaker, relabel, named_in.
  destruct seg as [i st en tx [old|]]; cbn; [|done].
  by destruct (m !! old) as [new|].
Qed.

Lemma rename_all_spec m segs (n : nat) :
  rename_all m segs n
  = (map (fun seg => set_speaker (relabel m (speaker seg)) seg) segs,
     (n + length (filter (fun seg => named_in m seg = true) segs))%nat).
Proof.
  revert n. induction segs as [|seg rest IH]; intros n; simpl.
  - by rewrite Nat.add_0_r.
  - rewrite rename_speaker_spec, IH, filter_cons.
    destruct (named_in m seg); simpl; f_equal; lia.
Qed.

(** X6: for a completed job with a transcript, [update_speakers] replaces
    the label of every segment whose label is a key of the map by the
    value under that key, all at once (a value is never looked up again,
    so two labels can be swapped); it reports the number of segments whose
    label was a key; it leaves segments without a label, and the index,
    times and text of every segment, as they were; and it does not touch
    the transcript's [speaker_count].  For any other job the request is
    refused and nothing changes. *)
Theorem update_speakers_relabels (id : string) m d :
  (forall job t,
     jobs d !! id = Some job -> status job = COMPLETED ->
     transcripts d !! id = Some t ->
     exists t',
       update_speakers id m d
       = (inr (length (filter (fun seg => named_in m seg = true) (segments t))),
          set_transcripts (<[id := t']> (transcripts d)) d) /\
       length (segments t') = length (segments t) /\
       (forall (i : nat) seg, segments t !! i = Some seg ->
          exists seg', segments t' !! i = Some seg' /\
            speaker seg' = relabel m (speaker seg) /\
            segment_index seg' = segment_index seg /\
            start_time seg' = start_time seg /\
            end_time seg' = end_time seg /\ text seg' = text seg) /\
       speaker_count t' = speaker_count t /\
       full_text t' = full_text t /\ word_count t' = word_count t) /\
  ((forall job, jobs d !! id = Some job -> status job = COMPLETED ->
      transcripts d !! id = None) ->
   exists err, update_speakers id m d = (inl err, d)).
Proof.
  split.
  - intros job t Hjob Hst Ht. unfold update_speakers.
    rewrite Hjob, decide_True, Ht by done. rewrite rename_all_spec.
    eexists. split; [reflexivity|].
    cbn [segments set_segments speaker_count full_text word_count].
    split_and!; [by rewrite length_map| |done|done|done].
    intros i seg Hi. eexists. split.
    + rewrite list_lookup_fmap. unfold fmap. by rewrite Hi.
    + by destruct seg.
  - intros Hno. unfold update_speakers.
    destruct (jobs d !! id) as [job|] eqn:Hjob; [|by eexists].
    case_decide as Hst; [|by eexists].
    rewrite (Hno job eq_refl Hst). by eexists.
Qed.

(** A finished job whose two speakers are to be swapped. *)
Definition spoken (i : nat) (label : option string) : TranscriptSegment :=
  {| segment_index := i; start_time := inject_Z (Z.of_nat i);
     end_time := inject_Z (Z.of_nat i) + 1; text := "yes"; speaker := label |}.
Definition interview : Db :=
  {| jobs := {[ "j1"%string :=
                  set_status COMPLETED
                    (Jobs.new_job "j1" "/uploads/a.wav" "auto" None None None
                       None true false true ["json"]%string 5 1) ]};
     batches := ∅; models := ∅;
     transcripts := {[ "j1"%string :=
       {| t_job_id := "j1"; t_language := Some "en"%string; t_duration := 3;
          word_count := 3; speaker_count := Some 2%nat;
          full_text := "yes yes yes";
          segments := [spoken 0 (Some "A"%string); spoken 1 None;
                       spoken 2 (Some "B"%string)] |} ]};
     tts_outputs := ∅ |}.
Definition swap : gmap string (option string) :=
  {[ "A"%string := Some "B"%string; "B"%string := Some "A"%string ]}.

Lemma update_speakers_relabels_witness :
  exists t',
    update_speakers "j1" swap interview
    = (inr 2%nat, set_transcripts (<["j1"%string := t']> (transcripts interview))
                    interview) /\
    map speaker (segments t')
    = [Some "B"%string; None; Some "A"%string] /\
    speaker_count t' = Some 2%nat.
Proof.
  destruct (proj1 (update_speakers_relabels "j1" swap interview)
              (set_status COMPLETED
                 (Jobs.new_job "j1" "/uploads/a.wav" "auto" None None None
                    None true false true ["json"]%string 5 1))
              {| t_job_id := "j1"; t_language := Some "en"%string;
                 t_duration := 3; word_count := 3;
                 speaker_count := Some 2%nat; full_text := "yes yes yes";
                 segments := [spoken 0 (Some "A"%string); spoken 1 None;
                              spoken 2 (Some "B"%string)] |}
              eq_refl eq_refl eq_refl)
    as (t' & Hrun & Hlen & Hseg & Hcount & _).
  exists t'. split_and!; [exact Hrun| |exact Hcount].
  destruct (Hseg 0%nat _ eq_refl) as (s0 & H0 & L0 & _).
  destruct (Hseg 1%nat _ eq_refl) as (s1 & H1 & L1 & _).
  destruct (Hseg 2%nat _ eq_refl) as (s2 & H2 & L2 & _).
  destruct (segments t') as [|x0 [|x1 [|x2 [|]]]]; try done.
  simpl in H0, H1, H2. simplify_eq. cbn [map].
  change (relabel swap (speaker (spoken 0 (Some "A"%string))))
    with (Some "B"%string) in L0.
  change (relabel swap (speaker (spoken 1 None))) with (@None string) in L1.
  change (relabel swap (speaker (spoken 2 (Some "B"%string))))
    with (Some "A"%string) in L2.
  congruence.
Defined.

(** *** The two SRT generators *)

Lemma imap_imap {A B C} (g : nat -> B -> C) (f : nat -> A -> B) (l : list A) :
  imap g (imap f l) = imap (fun i x => g i (f i x)) l.
Proof.
  revert f g. induction l as [|x l IH]; intros f g; [done|].
  simpl. f_equal. apply IH.
Qed.

(** X7: on the rows [run_transcription] stores, which carry no speaker,
    the SRT document the API generates is the one the worker wrote to
    [subtitles.srt]. *)
Theorem generate_srt_agrees (segs : list SegDict) :
  Transcripts.generate_srt (segment_rows segs) = SttWorker.generate_srt segs.
Proof.
  unfold Transcripts.generate_srt, SttWorker.generate_srt, segment_rows.
  by rewrite imap_imap.
Qed.

(** *** The form field [output_formats] *)

Lemma append_cons (c : ascii) (a b : string) :
  String c a +:+ b = String c (a +:+ b).
Proof. done. Qed.

Lemma append_nil_l (b : string) : "" +:+ b = b.
Proof. done. Qed.

Lemma append_nil_r (a : string) : a +:+ "" = a.
Proof.
  induction a as [|c a IH]; [done|]. by rewrite append_cons, IH.
Qed.

Lemma split_on_value (cur : string) (f : OutputFormat) (rest : string) :
  split_on "," cur (value f +:+ rest) = split_on "," (cur +:+ value f) rest.
Proof.
  destruct f; unfold value; rewrite !append_cons, append_nil_l;
    cbn [split_on Ascii.eqb Bool.eqb]; by rewrite !string_app_assoc.
Qed.

Lemma formats_of_value (f : OutputFormat) (pieces : list string) :
  formats_of (value f :: pieces)
  = match formats_of pieces with
    | Py.Raise e => Py.Raise e
    | Py.Ret fmts => Py.Ret (f :: fmts)
    end.
Proof. by destruct f. Qed.

Lemma join_cons (sep x y : string) (rest : list string) :
  Py.join sep (x :: y :: rest) = x +:+ sep +:+ Py.join sep (y :: rest).
Proof.
  unfold Py.join. revert x y. induction rest as [|z rest IH]; intros x y.
  - done.
  - cbn [fold_left] in *. rewrite IH. rewrite (IH y z).
    by rewrite !string_app_assoc.
Qed.

(** X8: the form field round-trips: the values of any list of formats,
    joined by commas, are parsed back to that list; the empty field gives
    the empty list. *)
Theorem parse_output_formats_round_trip (fs : list OutputFormat) :
  parse_output_formats (Py.join "," (map value fs)) = Py.Ret fs.
Proof.
  unfold parse_output_formats.
  induction fs as [|f [|g rest] IH].
  - done.
  - cbn [map Py.join fold_left].
    rewrite <- (append_nil_r (value f)), split_on_value. cbn [split_on].
    rewrite append_nil_l, formats_of_value. done.
  - cbn [map] in *. rewrite join_cons, split_on_value.
    rewrite append_cons, append_nil_l, append_nil_l.
    cbn [split_on Ascii.eqb Bool.eqb].
    by rewrite formats_of_value, IH.
Qed.

End TranscriptsApi.

(** ** Creating a batch and its progress (api/batches.py) *)

Section BatchLife.
Import Database Queue Batches Uploads.

Implicit Types (d : Db) (files : list (string * string)).




(** *** The progress of a batch *)

(** X10: for a batch that has files and at most [total_files] members,
    the recomputed progress is the share of completed and failed members
    in [total_files], as a percentage between 0 and 100; it is 100 exactly
    when the batch then has a terminal status. *)
Theorem recompute_progress_bounds (now : nat) (batch : JobBatch)
    (members : list Job) :
  (0 < total_files batch)%Z ->
  (Z.of_nat (length members) <= total_files batch)%Z ->
  terminal (b_status batch) = false ->
  let batch' := (recompute now batch members).1 in
  b_progress batch'
  == inject_Z (count_status COMPLETED members + count_status FAILED members)
     / inject_Z (total_files batch) * 100 /\
  0 <= b_progress batch' <= 100 /\
  (b_progress batch' == 100 <-> terminal (b_status batch') = true).
Proof.
  intros Htot Hlen Hlive batch'.
  pose proof (count_done_le members) as (Hc & Hf & Hsum).
  unfold batch', recompute.
  set (c := count_status COMPLETED members) in *.
  set (f := count_status FAILED members) in *.
  assert (0 < inject_Z (total_files batch)) as Ht.
  { change 0 with (inject_Z 0). by rewrite <- Zlt_Qlt. }
  assert (0 <= inject_Z (c + f)) as Hn.
  { change 0 with (inject_Z 0). rewrite <- Zle_Qle. lia. }
  assert (inject_Z (c + f) <= inject_Z (total_files batch)) as Hle.
  { rewrite <- Zle_Qle. lia. }
  set (q := inject_Z (c + f) / inject_Z (total_files batch)).
  assert (0 <= q) as Hq0.
  { apply Qle_shift_div_l; [done|]. lra. }
  assert (q <= 1) as Hq1.
  { apply Qle_shift_div_r; [done|]. lra. }
  assert (q == 1 <-> (c + f = total_files batch)%Z) as Hq.
  { assert (inject_Z (total_files batch) * q == inject_Z (c + f)) as Hmul.
    { unfold q. apply Qmult_div_r. lra. }
    rewrite <- inject_Z_injective. split; intros E.
    - rewrite <- Hmul, E. lra.
    - rewrite <- E in Hmul.
      apply (Qmult_inj_l q 1 (inject_Z (c + f))); [|lra].
      rewrite E. lra. }
  cbn [total_files set_failed_files set_completed_files set_b_progress].
  destruct (Z.eqb_spec (total_files batch) 0) as [|_]; [lia|].
  destruct (Z.leb_spec (total_files batch) (c + f)) as [Hge|Hlt].
  - cbn. fold q. assert (q == 1) as E by (apply Hq; lia).
    split_and!; [done|lra|lra|]. split; [|lra]. by destruct (f =? 0)%Z.
  - assert (~ q == 1) as Hne by (rewrite Hq; lia).
    destruct (Z.ltb_spec 0 (c + f)); cbn; fold q.
    + split_and!; [done|lra|lra|]. split; [|done]. intros E.
      exfalso. apply Hne. lra.
    + split_and!; [done|lra|lra|]. rewrite Hlive. split; [|done]. intros E.
      exfalso. apply Hne. lra.
Qed.

(** A pending batch of two uploads of which one has completed. *)
Definition pair_batch : JobBatch := new_batch "b7" "Batch" 2.
Definition finished_member : Job :=
  set_status COMPLETED
    (new_batch_job "b7" "auto" false false ("j1", "/uploads/b7_one.wav")%string).

Lemma recompute_progress_bounds_witness :
  b_progress (recompute 7 pair_batch [finished_member]).1 == 50 /\
  b_status (recompute 7 pair_batch [finished_member]).1 = PROCESSING.
Proof.
  assert (H1 : (0 < total_files pair_batch)%Z) by done.
  assert (H2 : (Z.of_nat (length [finished_member])
                <= total_files pair_batch)%Z) by done.
  assert (H3 : terminal (b_status pair_batch) = false) by done.
  destruct (recompute_progress_bounds 7 pair_batch [finished_member]
              H1 H2 H3) as (Hp & _).
  split; [|done]. rewrite Hp. by vm_compute.
Defined.

End BatchLife.

(** ** The model registry (api/models.py) *)

Section ModelRegistry.
Import Database Queue Models Registry Pipeline.

Implicit Types (ms : gmap string Model) (d : Db) (st : State).

(** At most one model of each type is marked as the default. *)
Definition one_default ms : Prop :=
  forall i j mi mj,
    ms !! i = Some mi -> ms !! j = Some mj ->
    model_type mi = model_type mj ->
    is_default mi = true -> is_default mj = true -> i = j.

(** No two rows register the same model of the same engine. *)
Definition registered_once ms : Prop :=
  forall i j mi mj,
    ms !! i = Some mi -> ms !! j = Some mj ->
    engine mi = engine mj -> m_model_id mi = m_model_id mj -> i = j.

(** The rows the default lookup of a stage selects. *)
Definition defaults_of (ty : string) ms : gmap string Model :=
  filter (fun kv => model_type kv.2 = ty /\ is_default kv.2 = true) ms.

Lemma defaults_of_lookup (ty : string) ms (k : string) (m : Model) :
  defaults_of ty ms !! k = Some m <->
  ms !! k = Some m /\ model_type m = ty /\ is_default m = true.
Proof. unfold defaults_of. by rewrite map_lookup_filter_Some. Qed.

Lemma default_model_unfold (ty : string) s :
  default_model ty s
  = match map_to_list (defaults_of ty (models (ps_db s))) with
    | [] => (Py.Ret None, s)
    | [kv] => (Py.Ret (Some kv.2), s)
    | _ => (Py.Raise "Multiple rows were found when one or none was required",
            s)
    end.
Proof. done. Qed.

(** With at most one default per type the lookup finds the default or
    nothing. *)
Lemma default_model_found (ty : string) s :
  one_default (models (ps_db s)) ->
  (exists k m, defaults_of ty (models (ps_db s)) !! k = Some m /\
               default_model ty s = (Py.Ret (Some m), s)) \/
  (defaults_of ty (models (ps_db s)) = ∅ /\
   default_model ty s = (Py.Ret None, s)).
Proof.
  intros Hone. rewrite default_model_unfold.
  destruct (map_to_list (defaults_of ty (models (ps_db s))))
    as [|[k1 m1] [|[k2 m2] rest]] eqn:E.
  - right. split; [|done]. by apply map_to_list_empty_iff.
  - left. exists k1, m1. split; [|done].
    apply elem_of_map_to_list. rewrite E. by left.
  - exfalso.
    assert (defaults_of ty (models (ps_db s)) !! k1 = Some m1) as H1.
    { apply elem_of_map_to_list. rewrite E. by left. }
    assert (defaults_of ty (models (ps_db s)) !! k2 = Some m2) as H2.
    { apply elem_of_map_to_list. rewrite E. right. by left. }
    pose proof (NoDup_fst_map_to_list (defaults_of ty (models (ps_db s))))
      as Hnd.
    rewrite E in Hnd. cbn in Hnd. apply NoDup_cons in Hnd as [Hne _].
    apply Hne. apply defaults_of_lookup in H1 as (L1 & T1 & D1).
    apply defaults_of_lookup in H2 as (L2 & T2 & D2).
    rewrite (Hone k1 k2 m1 m2 L1 L2); [by left|congruence|done|done].
Qed.

Lemma unset_defaults_lookup (ty : string) ms (k : string) :
  unset_defaults ty ms !! k
  = (fun m => if decide (model_type m = ty /\ is_default m = true)
              then set_is_default false m else m) <$> ms !! k.
Proof. unfold unset_defaults. by rewrite lookup_fmap. Qed.

(** After the loop no row of the type is a default, rows of other types
    are as before, and a row differs from what it was in its flag at
    most. *)
Lemma unset_defaults_spec (ty : string) ms (k : string) (m' : Model) :
  unset_defaults ty ms !! k = Some m' ->
  exists m, ms !! k = Some m /\
    model_type m' = model_type m /\ engine m' = engine m /\
    m_model_id m' = m_model_id m /\
    (model_type m = ty -> is_default m' = false) /\
    (model_type m <> ty -> m' = m) /\
    (is_default m' = true -> is_default m = true).
Proof.
  rewrite unset_defaults_lookup. destruct (ms !! k) as [m|]; [|done].
  cbn. intros [= <-]. exists m. split; [done|].
  case_decide as H.
  - destruct H as [Hty Hdef]. destruct m; cbn in *.
    split_and!; first [done | by intros []].
  - split_and!; try done. intros Hty.
    destruct (is_default m) eqn:E; [|done]. exfalso. by apply H.
Qed.

Lemma unset_defaults_one_default (ty : string) ms :
  one_default ms -> one_default (unset_defaults ty ms).
Proof.
  intros Hone i j mi mj Hi Hj Hty Hdi Hdj.
  apply unset_defaults_spec in Hi as (a & Ha & Ta & _ & _ & _ & _ & Da).
  apply unset_defaults_spec in Hj as (b & Hb & Tb & _ & _ & _ & _ & Db').
  apply (Hone i j a b); auto. congruence.
Qed.

(** X11: with at most one default model per type, the default lookup of
    a pipeline stage never raises: it returns the one default of the type,
    or nothing when the type has no default. *)
Theorem default_model_never_raises (ty : string) s :
  one_default (models (ps_db s)) ->
  exists r, default_model ty s = (Py.Ret r, s) /\
    (forall m, r = Some m ->
       exists k, models (ps_db s) !! k = Some m /\ model_type m = ty /\
                 is_default m = true) /\
    (r = None ->
     forall k m, models (ps_db s) !! k = Some m -> model_type m = ty ->
                 is_default m = false).
Proof.
  intros Hone.
  destruct (default_model_found ty s Hone) as [(k & m & Hk & ->)|[He ->]].
  - exists (Some m). split_and!; [done| |done].
    intros m' [= <-]. exists k. by apply defaults_of_lookup.
  - exists None. split_and!; [done|done|]. intros _ k m Hk Hty.
    destruct (is_default m) eqn:E; [|done]. exfalso.
    assert (defaults_of ty (models (ps_db s)) !! k = Some m) as H.
    { by apply defaults_of_lookup. }
    by rewrite He in H.
Qed.

(** X12: [set_default_model] makes the model the only default of its
    type, whatever the flags were before; rows of other types are not
    touched, and no row changes in anything but its flag.  The default
    lookup of the model's type then returns the model.  For an unknown id
    the request is refused with 404 and nothing changes. *)
Theorem set_default_model_unique (id : string) d :
  (models d !! id = None ->
   set_default_model id d = (inl (Http 404 "Model not found"), d)) /\
  (forall model, models d !! id = Some model ->
   exists d',
     set_default_model id d = (inr (set_is_default true model), d') /\
     models d' !! id = Some (set_is_default true model) /\
     (forall k m, models d' !! k = Some m ->
        model_type m = model_type model -> is_default m = true -> k = id) /\
     (forall k m, models d !! k = Some m ->
        model_type m <> model_type model -> models d' !! k = Some m) /\
     (forall k, match models d' !! k, models d !! k with
                | Some m', Some m =>
                    set_is_default false m' = set_is_default false m
                | None, None => True
                | _, _ => False
                end) /\
     (one_default (models d) -> one_default (models d')) /\
     forall s, ps_db s = d' ->
       default_model (model_type model) s
       = (Py.Ret (Some (set_is_default true model)), s)).
Proof.
  split.
  - intros Hno. unfold set_default_model. by rewrite Hno.
  - intros model Hm. unfold set_default_model. rewrite Hm.
    set (ty := model_type model).
    set (ms' := <[id := set_is_default true model]>
                  (unset_defaults ty (models d))).
    assert (forall k m, ms' !! k = Some m -> model_type m = ty ->
                        is_default m = true -> k = id) as Honly.
    { intros k m Hk Hty Hdef. destruct (decide (k = id)) as [->|Hne]; [done|].
      unfold ms' in Hk. rewrite lookup_insert_ne in Hk by done.
      apply unset_defaults_spec in Hk as (m0 & _ & T0 & _ & _ & Hoff & _).
      assert (is_default m = false) as Hf by (apply Hoff; by rewrite <- T0).
      by rewrite Hf in Hdef. }
    eexists. split; [reflexivity|]. cbn [models set_models]. fold ty ms'.
    split_and!.
    + apply lookup_insert_eq.
    + exact Honly.
    + intros k m Hk Hty. unfold ms'.
      destruct (decide (k = id)) as [->|Hne].
      { rewrite Hm in Hk. injection Hk as <-. done. }
      rewrite lookup_insert_ne, unset_defaults_lookup, Hk by done. cbn.
      rewrite decide_False; [done|]. by intros [].
    + intros k. unfold ms'.
      destruct (decide (k = id)) as [->|Hne].
      * rewrite lookup_insert_eq, Hm. by destruct model.
      * rewrite lookup_insert_ne, unset_defaults_lookup by done.
        destruct (models d !! k) as [m|]; [|done]. cbn.
        case_decide; [by destruct m|done].
    + intros Hone i j mi mj Hi Hj Hty Hdi Hdj.
      destruct (decide (model_type mi = ty)) as [Ti|Ti].
      * rewrite (Honly i mi Hi Ti Hdi).
        symmetry. apply (Honly j mj Hj); [congruence|done].
      * assert (i <> id) as Ni.
        { intros ->. unfold ms' in Hi. rewrite lookup_insert_eq in Hi.
          injection Hi as <-. by destruct model. }
        assert (j <> id) as Nj.
        { intros ->. unfold ms' in Hj. rewrite lookup_insert_eq in Hj.
          injection Hj as <-. apply Ti. rewrite Hty. by destruct model. }
        unfold ms' in Hi, Hj. rewrite lookup_insert_ne in Hi, Hj by done.
        by apply (unset_defaults_one_default ty (models d) Hone i j mi mj).
    + intros s Hs. rewrite default_model_unfold, Hs. cbn [models set_models].
      fold ty ms'.
      assert (defaults_of ty ms' = {[ id := set_is_default true model ]})
        as ->.
      { apply map_eq. intros k. destruct (decide (k = id)) as [->|Hne].
        - rewrite lookup_singleton_eq. apply defaults_of_lookup.
          split_and!; [apply lookup_insert_eq|by destruct model
                      |by destruct model].
        - rewrite lookup_singleton_ne by done.
          destruct (defaults_of ty ms' !! k) as [m|] eqn:E; [|done].
          apply defaults_of_lookup in E as (Hk & Hty & Hdef).
          by specialize (Honly k m Hk Hty Hdef). }
      by rewrite map_to_list_singleton.
Qed.

(** A registry with a downloaded default model for transcription and a
    second transcription model. *)
Definition whisper_model (id name : string) (default downloaded : bool)
  : Model :=
  {| m_id := id; m_name := name; model_type := "whisper";
     engine := "faster-whisper"; m_source := "huggingface";
     m_model_id := name; revision := None; download_error := None;
     compute_type := None; device := None; is_default := default;
     is_downloaded := downloaded;
     local_path := if downloaded then Some ("/models/" +:+ name) else None;
     download_progress := if downloaded then Some 100 else None |}.
Definition shelf : gmap string Model :=
  {[ "m1"%string := whisper_model "m1" "base" true true;
     "m2"%string := whisper_model "m2" "large-v3" false false ]}.
Definition shelf_db : Db :=
  {| jobs := ∅; batches := ∅; models := shelf; transcripts := ∅;
     tts_outputs := ∅ |}.
Definition shelf_session : PState :=
  open_session shelf_db [] 0
    (Jobs.new_job "j1" "/uploads/a.wav" "auto" None None None None
       false false true ["json"]%string 5 1).

Lemma shelf_lookup (k : string) (m : Model) :
  shelf !! k = Some m ->
  (k = "m1"%string /\ m = whisper_model "m1" "base" true true) \/
  (k = "m2"%string /\ m = whisper_model "m2" "large-v3" false false).
Proof.
  unfold shelf. intros H.
  apply lookup_insert_Some in H as [[<- <-]|[Hne H]]; [by left|].
  apply lookup_singleton_Some in H as [<- <-]. by right.
Qed.

Lemma shelf_one_default : one_default shelf.
Proof.
  intros i j mi mj Hi Hj _ Di Dj.
  apply shelf_lookup in Hi as [[-> ->]|[-> ->]]; [|done].
  apply shelf_lookup in Hj as [[-> ->]|[-> ->]]; done.
Qed.

Lemma shelf_registered_once : registered_once shelf.
Proof.
  intros i j mi mj Hi Hj _ Hid.
  apply shelf_lookup in Hi as [[-> ->]|[-> ->]];
    apply shelf_lookup in Hj as [[-> ->]|[-> ->]]; done.
Qed.

Lemma default_model_never_raises_witness :
  exists r, default_model "whisper" shelf_session = (Py.Ret r, shelf_session) /\
            r = Some (whisper_model "m1" "base" true true).
Proof.
  destruct (default_model_never_raises "whisper" shelf_session
              shelf_one_default) as (r & Hrun & Hsome & Hnone).
  exists r. split; [done|]. destruct r as [m|].
  - destruct (Hsome m eq_refl) as (k & Hk & _ & Hdef).
    apply shelf_lookup in Hk as [[-> ->]|[-> ->]]; done.
  - specialize (Hnone eq_refl "m1"%string _ eq_refl eq_refl). done.
Defined.

Lemma set_default_model_unique_witness :
  exists d',
    set_default_model "m2" shelf_db
    = (inr (whisper_model "m2" "large-v3" true false), d') /\
    (is_default <$> models d' !! "m1"%string) = Some false /\
    default_model "whisper" (with_db d' shelf_session)
    = (Py.Ret (Some (whisper_model "m2" "large-v3" true false)),
       with_db d' shelf_session).
Proof.
  destruct (proj2 (set_default_model_unique "m2" shelf_db)
              (whisper_model "m2" "large-v3" false false) eq_refl)
    as (d' & Hrun & Hrow & Honly & _ & Hflags & _ & Hdefault).
  exists d'. split_and!; [exact Hrun| |by apply Hdefault].
  specialize (Hflags "m1"%string).
  destruct (models d' !! "m1"%string) as [m|] eqn:E; [|done]. cbn.
  change (models shelf_db !! "m1"%string)
    with (Some (whisper_model "m1" "base" true true)) in Hflags.
  destruct (is_default m) eqn:D; [|done]. exfalso.
  assert (model_type m = "whisper"%string) as Hty.
  { by destruct m; simplify_eq/=. }
  by specialize (Honly _ _ E Hty D).
Defined.

(** *** Registering a model *)

Lemma at_most_one_row {A} (fm : gmap string A) :
  (forall i j a b, fm !! i = Some a -> fm !! j = Some b -> i = j) ->
  fm = ∅ \/ exists k a, fm !! k = Some a /\ map_to_list fm = [(k, a)].
Proof.
  intros Hone.
  destruct (map_to_list fm) as [|[k1 a1] [|[k2 a2] rest]] eqn:E.
  - left. by apply map_to_list_empty_iff.
  - right. exists k1, a1. split; [|done].
    apply elem_of_map_to_list. rewrite E. by left.
  - exfalso.
    assert (fm !! k1 = Some a1) as H1.
    { apply elem_of_map_to_list. rewrite E. by left. }
    assert (fm !! k2 = Some a2) as H2.
    { apply elem_of_map_to_list. rewrite E. right. by left. }
    pose proof (NoDup_fst_map_to_list fm) as Hnd.
    rewrite E in Hnd. cbn in Hnd. apply NoDup_cons in Hnd as [Hne _].
    apply Hne. rewrite (Hone k1 k2 a1 a2 H1 H2). by left.
Qed.

(** X13: in a registry that holds each model of an engine once and has one
    default per type at most, registering a model that is already there is
    refused with 400 and changes nothing.  Otherwise the new row is stored
    as not downloaded, a download is scheduled exactly for the sources
    [huggingface] and [url], the other rows change in their default flag
    at most, and the two properties of the registry still hold. *)
Theorem register_model_outcomes (new_id : string) (model : ModelCreate) st :
  models (db st) !! new_id = None ->
  one_default (models (db st)) -> registered_once (models (db st)) ->
  ((exists k m, models (db st) !! k = Some m /\
                engine m = c_engine model /\ m_model_id m = c_model_id model) ->
   register_model new_id model st
   = (inl (Http 400 ("Model " +:+ c_model_id model +:+ " for engine "
                     +:+ c_engine model +:+ " already registered")), st)) /\
  ((forall k m, models (db st) !! k = Some m ->
      ~ (engine m = c_engine model /\ m_model_id m = c_model_id model)) ->
   exists row st',
     register_model new_id model st = (inr row, st') /\
     models (db st') !! new_id = Some row /\
     is_downloaded row = false /\ local_path row = None /\
     download_progress row = None /\
     is_default row = c_is_default model /\
     model_type row = c_model_type model /\
     background st'
       = (if decide (c_source model = "huggingface"%string
                     \/ c_source model = "url"%string)
          then background st ++ [new_id] else background st) /\
     fetched st' = fetched st /\
     (forall k m', k <> new_id -> models (db st') !! k = Some m' ->
        exists m, models (db st) !! k = Some m /\
                  set_is_default false m' = set_is_default false m) /\
     one_default (models (db st')) /\ registered_once (models (db st'))).
Proof.
  intros Hfresh Hone Honce.
  set (same := filter (fun kv : string * Model =>
                         engine kv.2 = c_engine model
                         /\ m_model_id kv.2 = c_model_id model)
                      (models (db st))).
  assert (forall k m, same !! k = Some m <->
            models (db st) !! k = Some m /\ engine m = c_engine model
            /\ m_model_id m = c_model_id model) as Hsame.
  { intros k m. unfold same. by rewrite map_lookup_filter_Some. }
  destruct (at_most_one_row same) as [Hnone|(k0 & m0 & Hk0 & Hlist)].
  { intros i j a b Hi Hj. apply Hsame in Hi as (Hi & Ei & Ii).
    apply Hsame in Hj as (Hj & Ej & Ij).
    apply (Honce i j a b); congruence. }
  - split.
    + intros (k & m & Hk & He & Hi). exfalso.
      assert (same !! k = Some m) as H by (by apply Hsame).
      by rewrite Hnone in H.
    + intros _. unfold register_model. fold same. rewrite Hnone.
      rewrite map_to_list_empty.
      set (ms0 := if c_is_default model
                  then unset_defaults (c_model_type model) (models (db st))
                  else models (db st)).
      assert (forall k m', ms0 !! k = Some m' ->
                exists m, models (db st) !! k = Some m /\
                  engine m' = engine m /\ m_model_id m' = m_model_id m /\
                  set_is_default false m' = set_is_default false m /\
                  (c_is_default model = true ->
                   model_type m' = c_model_type model ->
                   is_default m' = false)) as Hold.
      { intros k m' Hk. unfold ms0 in Hk.
        destruct (c_is_default model) eqn:Hd.
        - rewrite unset_defaults_lookup in Hk.
          destruct (models (db st) !! k) as [m|]; [|done]. cbn in Hk.
          injection Hk as <-. exists m. split; [done|].
          case_decide as Hc.
          + destruct Hc as [Hty Hdef]. by destruct m.
          + split_and!; try done. intros _ Hty.
            destruct (is_default m) eqn:E; [|done]. exfalso. by apply Hc.
        - exists m'. split_and!; try done. }
      assert (one_default ms0) as Hone0.
      { unfold ms0. destruct (c_is_default model); [|done].
        by apply unset_defaults_one_default. }
      eexists _, _. split; [reflexivity|].
      cbn [db models set_models background fetched is_downloaded local_path
           download_progress is_default model_type]. fold ms0.
      split_and!; try done.
      * apply lookup_insert_eq.
      * intros k m' Hne Hk. rewrite lookup_insert_ne in Hk by done.
        destruct (Hold k m' Hk) as (m & Hm & _ & _ & Hflag & _).
        by exists m.
      * intros i j mi mj Hi Hj Hty Di Dj.
        destruct (decide (i = new_id)) as [->|Ni];
          destruct (decide (j = new_id)) as [->|Nj]; [done|..].
        -- exfalso. rewrite lookup_insert_eq in Hi. injection Hi as <-.
           rewrite lookup_insert_ne in Hj by done. cbn in Hty, Di.
           destruct (Hold j mj Hj) as (_ & _ & _ & _ & _ & Hoff).
           rewrite Hoff in Dj; [done|done|congruence].
        -- exfalso. rewrite lookup_insert_eq in Hj. injection Hj as <-.
           rewrite lookup_insert_ne in Hi by done. cbn in Hty, Dj.
           destruct (Hold i mi Hi) as (_ & _ & _ & _ & _ & Hoff).
           rewrite Hoff in Di; [done|done|congruence].
        -- rewrite lookup_insert_ne in Hi, Hj by done.
           by apply (Hone0 i j mi mj).
      * intros i j mi mj Hi Hj He Hm.
        destruct (decide (i = new_id)) as [->|Ni];
          destruct (decide (j = new_id)) as [->|Nj]; [done|..].
        -- exfalso. rewrite lookup_insert_eq in Hi. injection Hi as <-.
           rewrite lookup_insert_ne in Hj by done. cbn in He, Hm.
           destruct (Hold j mj Hj) as (m & Hmj & E1 & E2 & _).
           assert (same !! j = Some m) as H.
           { apply Hsame. split_and!; [done|congruence|congruence]. }
           by rewrite Hnone in H.
        -- exfalso. rewrite lookup_insert_eq in Hj. injection Hj as <-.
           rewrite lookup_insert_ne in Hi by done. cbn in He, Hm.
           destruct (Hold i mi Hi) as (m & Hmi & E1 & E2 & _).
           assert (same !! i = Some m) as H.
           { apply Hsame. split_and!; [done|congruence|congruence]. }
           by rewrite Hnone in H.
        -- rewrite lookup_insert_ne in Hi, Hj by done.
           destruct (Hold i mi Hi) as (a & Ha & A1 & A2 & _).
           destruct (Hold j mj Hj) as (b & Hb & B1 & B2 & _).
           apply (Honce i j a b); congruence.
  - split.
    + intros _. unfold register_model. fold same. by rewrite Hlist.
    + intros Hno. exfalso. apply Hsame in Hk0 as (Hk & He & Hi).
      by apply (Hno k0 m0).
Qed.

(** A diarization model offered by the hub, to be the default. *)
Definition pyannote_upload : ModelCreate :=
  {| c_name := "Pyannote 3.1"; c_model_type := "diarization";
     c_engine := "pyannote"; c_source := "huggingface";
     c_model_id := "pyannote/speaker-diarization-3.1";
     c_revision := None; c_compute_type := None; c_device := None;
     c_is_default := true |}.
Definition shelf_state : State :=
  {| db := shelf_db; background := []; fetched := [] |}.

Lemma register_model_outcomes_witness :
  exists row st',
    register_model "m3" pyannote_upload shelf_state = (inr row, st') /\
    is_downloaded row = false /\ background st' = ["m3"%string] /\
    one_default (models (db st')).
Proof.
  assert (models (db shelf_state) !! "m3"%string = None) as Hfresh
    by (by vm_compute).
  destruct (proj2 (register_model_outcomes "m3" pyannote_upload shelf_state
                     Hfresh shelf_one_default shelf_registered_once))
    as (row & st' & Hrun & _ & Hdl & _ & _ & _ & _ & Hbg & _ & _ & Hone & _).
  - intros k m Hk [He _].
    apply shelf_lookup in Hk as [[_ ->]|[_ ->]]; discriminate He.
  - exists row, st'. split_and!; [exact Hrun|exact Hdl| |exact Hone].
    rewrite Hbg. reflexivity.
Defined.

End ModelRegistry.

(** ** What a download leaves in the registry (api/models.py) *)

Section DownloadOutcomes.
Import Database Queue Models.

Implicit Types (st : State) (fetch : Fetch).

(** X14: the task of a model that is not registered does nothing and
    fetches nothing.  For a registered model it starts one fetch and
    touches no other row; when the fetch returns, the model is marked
    downloaded at the returned path with progress 100, and an error
    recorded by an earlier attempt stays recorded; when the fetch raises,
    the task raises the same exception, progress is cleared and the error
    is recorded, while [is_downloaded] and [local_path] keep their old
    values, so that a model whose forced re-download failed is still marked
    downloaded. *)
Theorem download_model_task_outcomes (id : string) fetch st :
  (models (db st) !! id = None ->
   download_model_task id fetch st = (Py.Ret (), st)) /\
  (forall model, models (db st) !! id = Some model ->
   let r := download_model_task id fetch st in
   exists model',
     models (db r.2) !! id = Some model' /\
     fetched r.2 = fetched st ++ [id] /\
     background r.2 = background st /\
     (forall k, k <> id -> models (db r.2) !! k = models (db st) !! k) /\
     is_default model' = is_default model /\
     model_type model' = model_type model /\
     match fetch with
     | Py.Ret path =>
         r.1 = Py.Ret () /\ is_downloaded model' = true /\
         local_path model' = Some path /\
         download_progress model' = Some 100 /\
         download_error model' = download_error model
     | Py.Raise e =>
         r.1 = Py.Raise e /\ is_downloaded model' = is_downloaded model /\
         local_path model' = local_path model /\
         download_progress model' = None /\
         download_error model' = Some e
     end).
Proof.
  split.
  - intros Hno. unfold download_model_task. by rewrite Hno.
  - intros model Hm r. unfold r, download_model_task. rewrite Hm.
    destruct fetch as [path|e]; cbn [fst snd db fetched background];
      unfold put_model; cbn [models set_models];
      (eexists; split; [apply lookup_insert_eq|]);
      (split_and!; try done;
       [ intros k Hk; by rewrite !lookup_insert_ne
       | by destruct model.. ]).
Qed.

(** A model that was never downloaded, alone in the registry. *)
Definition fresh_model : Model :=
  {| m_id := "m1"; m_name := "Whisper base"; model_type := "whisper";
     engine := "faster-whisper"; m_source := "huggingface";
     m_model_id := "base"; revision := None; download_error := None;
     compute_type := None; device := None; is_default := true;
     is_downloaded := false; local_path := None; download_progress := None |}.
Definition one_model : State :=
  {| db := {| jobs := ∅; batches := ∅;
              models := {[ "m1"%string := fresh_model ]};
              transcripts := ∅; tts_outputs := ∅ |};
     background := []; fetched := [] |}.

(** X15: a failed download followed by one that succeeds leaves the
    model downloaded, at progress 100, with the error of the failed attempt
    still recorded; the two attempts are two fetches. *)
Theorem download_error_outlives_retry (id e path : string) st (model : Model) :
  models (db st) !! id = Some model ->
  let st1 := (download_model_task id (Py.Raise e) st).2 in
  let r2 := download_model_task id (Py.Ret path) st1 in
  r2.1 = Py.Ret () /\
  exists model',
    models (db r2.2) !! id = Some model' /\
    is_downloaded model' = true /\ local_path model' = Some path /\
    download_progress model' = Some 100 /\
    download_error model' = Some e /\
    fetched r2.2 = fetched st ++ [id; id].
Proof.
  intros Hm st1 r2.
  assert (exists m1, models (db st1) !! id = Some m1 /\
                     download_error m1 = Some e /\
                     fetched st1 = fetched st ++ [id]) as (m1 & Hm1 & He & Hf).
  { unfold st1, download_model_task. rewrite Hm. cbn. unfold put_model.
    cbn. eexists. split; [apply lookup_insert_eq|]. done. }
  unfold r2, download_model_task. rewrite Hm1. cbn. unfold put_model. cbn.
  split; [done|]. eexists. split; [apply lookup_insert_eq|].
  cbn. rewrite Hf, <- app_assoc. by destruct m1.
Qed.

Lemma download_error_outlives_retry_witness :
  let st1 := (download_model_task "m1" (Py.Raise "connection reset") one_model).2 in
  let r2 := download_model_task "m1" (Py.Ret "/models/base") st1 in
  r2.1 = Py.Ret () /\
  exists model',
    models (db r2.2) !! "m1"%string = Some model' /\
    is_downloaded model' = true /\
    local_path model' = Some "/models/base"%string /\
    download_progress model' = Some 100 /\
    download_error model' = Some "connection reset"%string /\
    fetched r2.2 = [] ++ ["m1"; "m1"]%string.
Proof.
  apply (download_error_outlives_retry "m1" "connection reset" "/models/base"
           one_model fresh_model).
  done.
Defined.

End DownloadOutcomes.

(** ** The frames the combine step writes (workers/sync_worker.py) *)

Section OutputFrames.
Import SyncWorker.

(** [int(max(-1, min(1, s)) * 32767)] *)
Definition to_int16 (s : Q) : Z := Py.int (Py.max (-1) (Py.min 1 s) * 32767).

(** One step toward zero. *)
Definition toward_zero (z : Z) : Z := (z - Z.sgn z)%Z.

Lemma clamp_bounds (s : Q) :
  -1 <= Py.max (-1) (Py.min 1 s) <= 1.
Proof.
  destruct (Py.max_spec (-1) (Py.min 1 s)) as [[H ->]|[H ->]];
    destruct (Py.min_spec 1 s) as [[H' E]|[H' E]]; rewrite ?E in *; lra.
Qed.

Lemma clamp_inside (s : Q) :
  -1 <= s <= 1 -> Py.max (-1) (Py.min 1 s) == s.
Proof.
  intros Hs.
  destruct (Py.max_spec (-1) (Py.min 1 s)) as [[H ->]|[H ->]];
    destruct (Py.min_spec 1 s) as [[H' E]|[H' E]]; rewrite ?E in *; lra.
Qed.

(** Truncation of a number between two integers stays between them. *)
Lemma int_between (x : Q) (lo hi : Z) :
  (lo <= 0 <= hi)%Z -> inject_Z lo <= x <= inject_Z hi ->
  (lo <= Py.int x <= hi)%Z.
Proof.
  intros Hz [Hlo Hhi]. unfold Py.int.
  destruct (Qle_bool 0 x) eqn:E.
  - apply Qle_bool_iff in E. split.
    + pose proof (Py.Qfloor_nonneg x E). lia.
    + rewrite Zle_Qle. pose proof (Qfloor_le x). lra.
  - assert (x < 0) as Hneg.
    { destruct (Qlt_le_dec x 0) as [|Hge]; [done|].
      apply Qle_bool_iff in Hge. congruence. }
    split.
    + rewrite Zle_Qle. pose proof (Qle_ceiling x). lra.
    + assert (Qceiling x <= 0)%Z; [|lia].
      change 0%Z with (Qceiling 0). apply Qceiling_resp_le. lra.
Qed.

(** Truncation of a number strictly between two neighbouring integers. *)
Lemma int_open (x : Q) (n : Z) :
  inject_Z n < x < inject_Z n + 1 ->
  Py.int x = if (0 <=? n)%Z then n else (n + 1)%Z.
Proof.
  intros [Hlo Hhi]. unfold Py.int.
  destruct (Z.leb_spec 0%Z n) as [Hn|Hn].
  - assert (0 <= x) as Hx.
    { assert (inject_Z 0 <= inject_Z n) by (by rewrite <- Zle_Qle).
      change (inject_Z 0) with 0 in *. lra. }
    apply Qle_bool_iff in Hx. rewrite Hx.
    pose proof (Py.Qfloor_bounds x) as [F1 F2].
    assert (Qfloor x < n + 1)%Z.
    { rewrite Zlt_Qlt, inject_Z_plus. change (inject_Z 1) with 1. lra. }
    assert (n < Qfloor x + 1)%Z.
    { rewrite Zlt_Qlt, inject_Z_plus. change (inject_Z 1) with 1. lra. }
    lia.
  - assert (x < 0) as Hx.
    { assert (inject_Z (n + 1) <= inject_Z 0) by (rewrite <- Zle_Qle; lia).
      rewrite inject_Z_plus in *. change (inject_Z 1) with 1 in *.
      change (inject_Z 0) with 0 in *. lra. }
    destruct (Qle_bool 0 x) eqn:E.
    { apply Qle_bool_iff in E. lra. }
    pose proof (Qle_ceiling x) as C1. pose proof (Qceiling_lt x) as C2.
    assert (n < Qceiling x)%Z.
    { rewrite Zlt_Qlt. lra. }
    assert (Qceiling x - 1 < n + 1)%Z.
    { rewrite Zlt_Qlt, inject_Z_plus. change (inject_Z 1) with 1.
      replace (Qceiling x - 1)%Z with (Qceiling x + -1)%Z in * by lia.
      lra. }
    lia.
Qed.

(** A 16-bit frame that was normalised comes back one step nearer to
    zero: the scale going in is 32768 and the scale going out 32767. *)
Lemma to_int16_normalized (v : Q) (z : Z) :
  v == inject_Z z / 32768 -> (-32768 <= z < 32768)%Z ->
  to_int16 v = toward_zero z.
Proof.
  intros Hv [Hlo' Hhi]. unfold to_int16, toward_zero.
  change (inject_Z z / 32768) with (inject_Z z * (1 # 32768)) in Hv.
  destruct (Z.eq_dec z (-32768)%Z) as [->|Hmin].
  { apply int_exact. change (inject_Z (-32768)) with (-32768) in Hv.
    assert (Py.max (-1) (Py.min 1 v) == v) as Hc by (apply clamp_inside; lra).
    rewrite Hc, Hv. reflexivity. }
  assert (-32768 < z)%Z as Hlo by lia.
  assert (inject_Z (-32768) < inject_Z z) as Qlo by (by rewrite <- Zlt_Qlt).
  assert (inject_Z z < inject_Z 32768) as Qhi by (by rewrite <- Zlt_Qlt).
  change (inject_Z (-32768)) with (-32768) in Qlo.
  change (inject_Z 32768) with 32768 in Qhi.
  assert (Py.max (-1) (Py.min 1 v) == v) as Hc by (apply clamp_inside; lra).
  destruct (Z.eq_dec z 0%Z) as [->|Hnz].
  - change (inject_Z 0) with 0 in *.
    pose proof (int_between (Py.max (-1) (Py.min 1 v) * 32767) 0 0) as H.
    change (inject_Z 0) with 0 in H. cbn. lapply H; [|lia]. intros H'.
    lapply H'; [lia|]. lra.
  - destruct (Z.lt_ge_cases 0%Z z) as [Hpos|Hneg].
    + rewrite Z.sgn_pos by done.
      rewrite (int_open _ (z - 1)%Z).
      * destruct (Z.leb_spec 0%Z (z - 1)%Z); lia.
      * replace (z - 1)%Z with (z + -1)%Z by lia.
        rewrite inject_Z_plus. change (inject_Z (-1)) with (-1).
        assert (inject_Z 1 <= inject_Z z) by (rewrite <- Zle_Qle; lia).
        change (inject_Z 1) with 1 in *. lra.
    + assert (z < 0)%Z as Hn by lia. rewrite Z.sgn_neg by done.
      rewrite (int_open _ z).
      * destruct (Z.leb_spec 0%Z z); lia.
      * assert (inject_Z z <= inject_Z (-1)) by (rewrite <- Zle_Qle; lia).
        change (inject_Z (-1)) with (-1) in *. lra.
Qed.

(** X16: every frame the combine step writes lies between -32767 and
    32767, whatever the segment files contain: the frames always fit the
    16-bit format they are packed in. *)
Theorem combine_frames_fit_int16 (segments : list SyncedSegment) (T : Q)
    (out : list Z) :
  combine_with_timing segments T = Py.Ret out ->
  Forall (fun z => (-32767 <= z <= 32767)%Z) out.
Proof.
  unfold combine_with_timing.
  destruct (combine_buffer segments T) as [buf|e]; [|done].
  intros [= <-]. apply Forall_forall. intros z Hz.
  apply list_elem_of_fmap in Hz as (s & -> & _).
  pose proof (clamp_bounds s) as [H1 H2].
  apply int_between; [lia|].
  change (inject_Z (-32767)) with (-32767).
  change (inject_Z 32767) with 32767. lra.
Qed.

(** A file whose frames exceed what 16 bits hold, on a short track. *)
Definition loud : SyncedSegment :=
  {| seg_wav := Some {| framerate := 22050; sampwidth := 2;
                        frames := [40000; -32768; 12]%Z |};
     seg_start := 0 |}.

Lemma combine_frames_fit_int16_witness :
  combine_with_timing [loud] (4 # 22050) = Py.Ret [32767; -32767; 11; 0]%Z /\
  Forall (fun z => (-32767 <= z <= 32767)%Z) [32767; -32767; 11; 0]%Z.
Proof.
  assert (combine_with_timing [loud] (4 # 22050)
          = Py.Ret [32767; -32767; 11; 0]%Z) as E by (by vm_compute).
  split; [exact E|].
  exact (combine_frames_fit_int16 [loud] (4 # 22050) _ E).
Defined.

(** Every sample a segment contributes is a frame of its file divided by
    32768, or the filler 0 of the resampling. *)
Lemma played_frames (seg : SyncedSegment) (v : Q) :
  v ∈ played seg ->
  exists z, v == inject_Z z / 32768 /\
    (z = 0%Z \/ exists wav, seg_wav seg = Some wav /\ z ∈ frames wav).
Proof.
  unfold played, segment_samples.
  destruct (seg_wav seg) as [wav|]; [|by intros H%elem_of_nil].
  destruct (sampwidth wav =? 2)%Z; [|by intros H%elem_of_nil].
  assert (forall u, u ∈ normalize (frames wav) ->
            exists z, u == inject_Z z / 32768 /\
              (z = 0%Z \/ exists w, Some wav = Some w /\ z ∈ frames w))
    as Hnorm.
  { intros u Hu. apply list_elem_of_fmap in Hu as (z & -> & Hz).
    exists z. split; [reflexivity|]. right. by exists wav. }
  destruct (framerate wav =? sample_rate)%Z; [exact (Hnorm v)|].
  destruct (framerate wav =? 0)%Z; [by intros H%elem_of_nil|].
  unfold resample. intros Hv.
  apply list_elem_of_fmap in Hv as (i & -> & _).
  set (k := Z.to_nat _).
  destruct (nth_in_or_default k (normalize (frames wav)) 0) as [Hin| ->].
  - apply Hnorm. by apply list_elem_of_In.
  - exists 0%Z. split; [reflexivity|by left].
Qed.

Lemma last_written_played (segments : list SyncedSegment) (j : nat) (v : Q) :
  last_written segments j = Some v ->
  exists seg, seg ∈ segments /\ v ∈ played seg.
Proof.
  induction segments as [|seg rest IH]; [done|]. simpl.
  destruct (last_written rest j) as [u|].
  - intros [= ->]. destruct IH as (s & Hs & Hv); [done|].
    exists s. split; [by right|done].
  - unfold sample_at. case_decide; [|done]. intros Hv.
    exists seg. split; [by left|]. by eapply list_elem_of_lookup_2.
Qed.

(** X17: a 16-bit frame copied through the combine step is not kept:
    when the files hold 16-bit frames, every position of the output that
    some segment covers holds a frame [z] of a segment file (or the filler
    0 of the resampling) moved one step toward zero, so that 0 stays 0 and
    every other frame loses one unit of magnitude: frames are divided by
    32768 on the way in and multiplied by 32767 and truncated on the way
    out. *)
Theorem combine_moves_frames_toward_zero (segments : list SyncedSegment)
    (T : Q) :
  0 <= T ->
  (forall seg, seg ∈ segments -> 0 <= seg_start seg) ->
  (forall seg wav, seg ∈ segments -> seg_wav seg = Some wav ->
     framerate wav <> 0%Z /\
     Forall (fun z => (-32768 <= z < 32768)%Z) (frames wav)) ->
  exists out,
    combine_with_timing segments T = Py.Ret out /\
    forall (j : nat) (v : Q),
      (j < length out)%nat -> last_written segments j = Some v ->
      exists z, v == inject_Z z / 32768 /\
        (z = 0%Z \/ exists seg wav, seg ∈ segments /\
                      seg_wav seg = Some wav /\ z ∈ frames wav) /\
        out !! j = Some (toward_zero z).
Proof.
  intros HT Hst Hfiles. unfold combine_with_timing, combine_buffer.
  cbv zeta. set (n := Z.to_nat (sample_index T)).
  destruct (insert_segments_spec segments (replicate n 0))
    as (buf & -> & Hlen & Hlook).
  { intros seg Hin. split; [by apply Hst|].
    apply segment_samples_ok. intros wav Hw. by apply (Hfiles seg wav). }
  rewrite length_replicate in Hlen, Hlook.
  eexists. split; [reflexivity|]. intros j v Hj Hlast.
  rewrite length_map, Hlen in Hj.
  destruct (last_written_played segments j v Hlast) as (seg & Hseg & Hv).
  destruct (played_frames seg v Hv) as (z & Hz & Horigin).
  exists z. split; [done|].
  assert (-32768 <= z < 32768)%Z as Hrange.
  { destruct Horigin as [->|(wav & Hw & Hin)]; [lia|].
    destruct (Hfiles seg wav Hseg Hw) as [_ Hall].
    rewrite Forall_forall in Hall. by apply Hall. }
  split.
  - destruct Horigin as [->|(wav & Hw & Hin)]; [by left|].
    right. by exists seg, wav.
  - rewrite list_lookup_fmap, Hlook, decide_True, Hlast by done. cbn.
    f_equal. by apply to_int16_normalized.
Qed.

(** A quiet file on a short track. *)
Definition quiet : SyncedSegment :=
  {| seg_wav := Some {| framerate := 22050; sampwidth := 2;
                        frames := [12; -12; 0]%Z |};
     seg_start := 0 |}.

Lemma combine_moves_frames_toward_zero_witness :
  combine_with_timing [quiet] (3 # 22050) = Py.Ret [11; -11; 0]%Z /\
  exists z, inject_Z 12 / 32768 == inject_Z z / 32768 /\
            [11; -11; 0]%Z !! 0%nat = Some (toward_zero z).
Proof.
  assert (combine_with_timing [quiet] (3 # 22050) = Py.Ret [11; -11; 0]%Z)
    as E by (by vm_compute).
  split; [exact E|].
  destruct (combine_moves_frames_toward_zero [quiet] (3 # 22050))
    as (out & Hrun & Hout).
  - done.
  - intros seg Hin. apply list_elem_of_singleton in Hin as ->. done.
  - intros seg wav Hin Hw. apply list_elem_of_singleton in Hin as ->.
    injection Hw as <-. split; [done|]. repeat constructor; lia.
  - rewrite E in Hrun. injection Hrun as <-.
    destruct (Hout 0%nat (inject_Z 12 / 32768)) as (z & Hz & _ & Hz');
      [simpl; lia|by vm_compute|].
    exists z. split; [exact Hz|exact Hz'].
Defined.

End OutputFrames.

(** ** Reading RTTM files (workers/diarization_worker.py) *)

Section RttmFiles.
Import Diarization Rttm.

Variable float : string -> Py.outcome Q.

(** The fields of a line. *)
Definition fields_of (line : string) : list string :=
  Py.split (Py.strip line).

(** The line is a speaker turn. *)
Definition is_turn (line : string) : Prop :=
  fields_of line !! 0%nat = Some "SPEAKER"%string.

#[local] Instance is_turn_dec (line : string) : Decision (is_turn line).
Proof. unfold is_turn. apply _. Defined.

(** The segment a speaker turn describes. *)
Definition turn_of (line : string) (seg : DSeg) : Prop :=
  exists p3 p4 start duration,
    fields_of line !! 3%nat = Some p3 /\ float p3 = Py.Ret start /\
    fields_of line !! 4%nat = Some p4 /\ float p4 = Py.Ret duration /\
    fields_of line !! 7%nat = Some (d_speaker seg) /\
    d_start seg = start /\ d_end seg = start + duration.

Lemma parse_line_returns (line : string) (r : option DSeg) :
  parse_line float line = Py.Ret r ->
  fields_of line <> [] /\
  match r with
  | Some seg => is_turn line /\ turn_of line seg
  | None => ~ is_turn line
  end.
Proof.
  unfold parse_line, is_turn, turn_of. fold (fields_of line).
  destruct (fields_of line !! 0%nat) as [tag|] eqn:E0; [|done].
  assert (fields_of line <> []) as Hne.
  { intros H. by rewrite H in E0. }
  destruct (String.eqb_spec tag "SPEAKER") as [->|Htag].
  - destruct (fields_of line !! 3%nat) as [p3|] eqn:E3; [|done].
    destruct (float p3) as [start|] eqn:F3; [|done].
    destruct (fields_of line !! 4%nat) as [p4|] eqn:E4; [|done].
    destruct (float p4) as [duration|] eqn:F4; [|done].
    destruct (fields_of line !! 7%nat) as [sp|] eqn:E7; [|done].
    intros [= <-]. split; [done|]. split; [done|].
    by exists p3, p4, start, duration.
  - intros [= <-]. split; [done|]. intros [= ->]. done.
Qed.

(** X18: when [parse_rttm] returns, no line of the file was blank, every
    speaker turn had its eight fields and readable numbers, and the
    result lists one segment per speaker turn, in the order of the file,
    each from the turn's start to its start plus its duration; lines of
    other kinds add nothing.  A blank line anywhere in the file therefore
    makes the call raise. *)
Theorem parse_rttm_returns (lines : list string) (segments : list DSeg) :
  parse_rttm float lines = Py.Ret segments ->
  Forall (fun line => fields_of line <> []) lines /\
  Forall2 turn_of (filter is_turn lines) segments /\
  Forall (fun line => is_turn line -> (8 <= length (fields_of line))%nat)
         lines.
Proof.
  revert segments. induction lines as [|line rest IH]; intros segments.
  - intros [= <-]. split_and!; constructor.
  - cbn [parse_rttm].
    destruct (parse_line float line) as [r|e] eqn:El; [|done].
    destruct (parse_rttm float rest) as [segs|e] eqn:Er; [|done].
    intros [= <-]. destruct (IH segs eq_refl) as (Hblank & Hturns & Hlong).
    apply parse_line_returns in El as [Hne Hr].
    rewrite filter_cons. destruct r as [seg|].
    + destruct Hr as [Hturn Hseg]. rewrite decide_True by done.
      split_and!; [by constructor|by constructor|].
      constructor; [|done]. intros _.
      destruct Hseg as (_ & _ & _ & _ & _ & _ & _ & _ & H7 & _).
      apply lookup_lt_Some in H7. lia.
    + rewrite decide_False by done.
      split_and!; [by constructor|done|]. by constructor.
Qed.

End RttmFiles.

Section RttmExample.
Import Diarization Rttm.

(** The two numbers the example file holds. *)
Definition read_number (s : string) : Py.outcome Q :=
  if String.eqb s "0.50" then Py.Ret (1 # 2)
  else if String.eqb s "1.25" then Py.Ret (5 # 4)
  else Py.Raise ("could not convert string to float: '" +:+ s +:+ "'").

Definition turn_line : string :=
  "SPEAKER meeting 1 0.50 1.25 <NA> <NA> SPEAKER_00 <NA> <NA>".

Lemma parse_rttm_returns_witness :
  parse_rttm read_number [turn_line; "SPKR-INFO meeting 1"%string]
  = Py.Ret [ {| d_start := 1 # 2; d_end := (1 # 2) + (5 # 4);
                d_speaker := "SPEAKER_00" |} ] /\
  Forall (fun line => fields_of line <> [])
         [turn_line; "SPKR-INFO meeting 1"%string] /\
  parse_rttm read_number [turn_line; ""%string]
  = Py.Raise "list index out of range".
Proof.
  assert (parse_rttm read_number [turn_line; "SPKR-INFO meeting 1"%string]
          = Py.Ret [ {| d_start := 1 # 2; d_end := (1 # 2) + (5 # 4);
                        d_speaker := "SPEAKER_00" |} ]) as E
    by (by vm_compute).
  split_and!; [exact E| |by vm_compute].
  by destruct (parse_rttm_returns read_number _ _ E) as (H & _).
Defined.

End RttmExample.

(** ** A job whose STT model cannot be used (services/background_tasks.py) *)

Section UnusableModel.
Import Database Queue Models Registry Pipeline.

Implicit Types (s : PState) (o : Engines) (d : Db).

Lemma flush_models s : models (flush s) = models (ps_db s).
Proof.
  unfold flush.
  by destruct (ps_batch s), (ps_transcript s), (ps_tts_output s).
Qed.

(** The first stage always returns; it touches neither the registry nor
    the job's choice of model. *)
Lemma start_job_returns (id : string) s :
  exists s1, start_job id s = (Py.Ret (), s1) /\
    models (ps_db s1) = models (ps_db s) /\
    model_id (ps_job s1) = model_id (ps_job s).
Proof.
  destruct s as [d job batch tr tts evs hist clock].
  eexists. split; [reflexivity|].
  cbn [ps_db ps_job with_events with_history with_db with_job with_clock].
  split; [|by destruct job].
  repeat (rewrite flush_models;
          cbn [ps_db ps_job with_events with_history with_db with_job
               with_clock]).
  done.
Qed.

(** The model a stage selects depends on the registry only, and selecting
    it changes nothing. *)
Lemma stage_model_frame (named : option string) (ty : string) s s' :
  models (ps_db s) = models (ps_db s') ->
  stage_model named ty s' = ((stage_model named ty s).1, s').
Proof.
  intros Hm. unfold stage_model, bind, gets, ret. rewrite Hm.
  destruct (if Py.truthy named
            then named ≫= (fun k => models (ps_db s') !! k) else None);
    [done|].
  rewrite !default_model_unfold, Hm.
  by destruct (map_to_list (defaults_of ty (models (ps_db s'))))
    as [|? [|? ?]].
Qed.

(** What [run_transcription] raises for the model [r] it selected. *)
Definition stt_refusal (r : option Model) : string :=
  match r with
  | None =>
      "No STT model available. Please register and download a model first."
  | Some model =>
      "Model '" +:+ m_name model
        +:+ "' is not downloaded. Please download it first."
  end.

(** The selected model is missing or was not downloaded. *)
Definition unusable (r : option Model) : Prop :=
  match r with
  | None => True
  | Some model => is_downloaded model = false
  end.

Lemma run_transcription_refuses o s (r : option Model) :
  stage_model (model_id (ps_job s)) "whisper" s = (Py.Ret r, s) ->
  unusable r ->
  run_transcription o s = (Py.Raise (stt_refusal r), s).
Proof.
  intros Hsel Hr. unfold run_transcription, bind at 1, gets.
  unfold bind at 1. rewrite Hsel. destruct r as [model|]; [|done].
  cbn in Hr. by rewrite Hr.
Qed.

(** X19: when the model the Transcribe stage selects (the one the job
    names, else the default of the type) is missing or was not
    downloaded, the job fails with the message that says so, the failure
    is published, and the outcome is the same whatever the engines would
    have done: none of them is called. *)
Theorem unusable_stt_model_fails_job (id : string) d (evs : list Event)
    (clock : nat) (job : Job) (r : option Model) :
  jobs d !! id = Some job -> job_id job = id ->
  status job = QUEUED -> progress job == 0 -> batches_ok d ->
  (stage_model (model_id job) "whisper" (open_session d evs clock job)).1
    = Py.Ret r ->
  unusable r ->
  exists s',
    (forall o, process_job_async o id d evs clock
               = (Py.Raise (stt_refusal r), Some s')) /\
    (exists row, jobs (ps_db s') !! id = Some row /\ status row = FAILED /\
                 error_message row = Some (stt_refusal r)) /\
    last (ps_events s') = Some (JobProgress id "failed" 0 (stt_refusal r)).
Proof.
  intros Hjob Hid Hst Hp Hok Hsel Hr.
  set (s0 := open_session d evs clock job).
  assert (running id s0) as H0.
  { split; cbn; try done.
    - exists job. split_and!; [done|done|]. by apply queued_is_live.
    - by apply queued_is_live. }
  destruct (start_job_returns id s0) as (s1 & E1 & Hm1 & Hj1).
  pose proof (keeps_running_start id s0 H0) as H1. rewrite E1 in H1.
  cbn [snd] in H1.
  assert (stage_model (model_id (ps_job s1)) "whisper" s1 = (Py.Ret r, s1))
    as Hsel1.
  { rewrite Hj1. rewrite (stage_model_frame _ _ s0 s1) by done.
    f_equal. exact Hsel. }
  destruct (fail_job_settles id (stt_refusal r) s1 H1)
    as (s' & Efail & Hsettled & Hrow & Hlast).
  exists s'. split_and!; [|..|done].
  - intros o.
    assert (stages o id s0 = (Py.Raise (stt_refusal r), s1)) as Hstages.
    { unfold stages. unfold bind at 1. rewrite E1. unfold bind at 1.
      by rewrite (run_transcription_refuses o s1 r Hsel1 Hr). }
    unfold process_job_async. rewrite Hjob. fold s0.
    unfold try_except. rewrite Hstages. by rewrite Efail.
  - destruct Hrow as (row & Hrow & Herr).
    exists row. split_and!; [done| |done].
    destruct Hsettled as (pre & tail & row' & _ & _ & Hl & Hrow' & Htail).
    rewrite Hrow in Hrow'. injection Hrow' as <-.
    rewrite Forall_forall in Htail. apply (Htail row).
    destruct tail as [|x tail] using rev_ind; [done|].
    rewrite last_snoc in Hl. injection Hl as ->.
    apply elem_of_app. right. by left.
Qed.

(** A job left to the default model, after a model that was never
    downloaded was made the default. *)
Definition plain_job : Job :=
  Jobs.new_job "j1" "/uploads/a.wav" "auto" None None None None
    false false true ["json"]%string 5 1.
Definition careless_db : Db :=
  set_jobs {[ "j1"%string := plain_job ]}
    (set_default_model "m2" shelf_db).2.

Lemma unusable_stt_model_fails_job_witness :
  exists s',
    (forall o, process_job_async o "j1" careless_db [] 0
               = (Py.Raise "Model 'large-v3' is not downloaded. Please download it first.",
                  Some s')) /\
    (exists row, jobs (ps_db s') !! "j1"%string = Some row /\
                 status row = FAILED).
Proof.
  destruct (unusable_stt_model_fails_job "j1" careless_db [] 0 plain_job
              (Some (whisper_model "m2" "large-v3" true false)))
    as (s' & Hrun & (row & Hrow & Hst & _) & _).
  - done.
  - done.
  - done.
  - done.
  - intros bid b Hb. done.
  - by vm_compute.
  - done.
  - exists s'. split; [exact Hrun|]. by exists row.
Defined.

End UnusableModel.

(** ** The speakers the Diarize stage stores (services/background_tasks.py) *)

Section StoredSpeakers.
Import Database Queue Diarization Pipeline.

Implicit Types (s : PState) (o : Engines) (diar : list DSeg)
  (rows : list TranscriptSegment).

(** The row with the speaker found for its time span. *)
Definition labelled diar (seg : TranscriptSegment) : TranscriptSegment :=
  set_speaker
    (find_speaker_for_segment diar (start_time seg) (end_time seg)) seg.

(** The label found for a row, when it is not empty. *)
Definition voice diar (seg : TranscriptSegment) : option string :=
  let found := find_speaker_for_segment diar (start_time seg) (end_time seg) in
  if Py.truthy found then found else None.

(** The labels that are not empty, as a set. *)
Definition voices diar rows : gset string :=
  list_to_set (omap (voice diar) rows).

Lemma voices_cons diar (seg : TranscriptSegment) rows :
  voices diar (seg :: rows)
  = match voice diar seg with
    | Some label => {[ label ]} ∪ voices diar rows
    | None => voices diar rows
    end.
Proof. unfold voices. cbn. by destruct (voice diar seg). Qed.

Lemma assign_speakers_from diar rows (done_ : list TranscriptSegment)
    (seen : gset string) :
  foldl (fun '(done, speakers) segment =>
           let speaker :=
             find_speaker_for_segment diar
               (start_time segment) (end_time segment) in
           (done ++ [set_speaker speaker segment],
            if Py.truthy speaker
            then speakers ∪ list_to_set (option_list speaker)
            else speakers))
        (done_, seen) rows
  = (done_ ++ map (labelled diar) rows, seen ∪ voices diar rows).
Proof.
  revert done_ seen. induction rows as [|seg rest IH]; intros done_ seen.
  - cbn. rewrite app_nil_r. f_equal. unfold voices. cbn.
    by rewrite (right_id_L ∅ (∪)).
  - cbn [foldl]. rewrite IH. cbn [map]. rewrite <- app_assoc. cbn [app].
    f_equal. rewrite voices_cons. unfold voice.
    destruct (find_speaker_for_segment diar (start_time seg) (end_time seg))
      as [[|c label]|]; cbn [Py.truthy option_list]; [done| |done].
    change (list_to_set (option_list (Some (String c label))))
      with ({[ String c label ]} ∪ (∅ : gset string)).
    by rewrite (right_id_L ∅ (∪)), (assoc_L (∪)).
Qed.

Lemma assign_speakers_spec diar rows :
  assign_speakers diar rows = (map (labelled diar) rows, voices diar rows).
Proof.
  unfold assign_speakers. rewrite assign_speakers_from. cbn [app].
  f_equal. by rewrite (left_id_L ∅ (∪)).
Qed.

(** X20: when the diarization model is there and the engine returns,
    the Diarize stage stores, for every segment of the transcript and in
    the same order, the speaker [find_speaker_for_segment] gives for the
    segment's time span (none when nothing overlaps); texts, times and
    indices stay as they were; and [speaker_count] is the number of
    distinct non-empty labels stored. *)
Theorem run_diarization_stores_speakers o s diar (audio : string)
    (model : Model) (t : Transcript) :
  stage_model (diarization_model_id (ps_job s)) "diarization" s
    = (Py.Ret (Some model), s) ->
  is_downloaded model = true ->
  diar_audio o = Py.Ret audio -> pyannote o = Py.Ret diar ->
  ps_transcript s = Some t -> t_job_id t = job_id (ps_job s) ->
  exists s' t',
    run_diarization o s = (Py.Ret (), s') /\
    transcripts (ps_db s') !! job_id (ps_job s) = Some t' /\
    segments t' = map (labelled diar) (segments t) /\
    map text (segments t') = map text (segments t) /\
    map start_time (segments t') = map start_time (segments t) /\
    map end_time (segments t') = map end_time (segments t) /\
    speaker_count t' = Some (size (voices diar (segments t))) /\
    full_text t' = full_text t /\ word_count t' = word_count t /\
    last (ps_events s')
    = Some (JobProgress (job_id (ps_job s)) "diarizing" 75
              ("Identified "
               +:+ Py.str_int (Z.of_nat (size (voices diar (segments t))))
               +:+ " speakers")).
Proof.
  intros Hsel Hdl Haudio Hdiar Ht Hid.
  unfold run_diarization. unfold bind at 1, gets at 1.
  unfold bind at 1. rewrite Hsel, Hdl. cbn [negb].
  rewrite Haudio, Hdiar.
  destruct s as [d job batch tr tts evs hist clock].
  cbn [ps_transcript ps_job] in *. subst tr.
  cbv [bind ret gets modify lift commit broadcast_progress load_transcript
       with_db with_job with_batch with_transcript with_tts_output
       with_events with_history with_clock
       ps_db ps_job ps_batch ps_transcript ps_tts_output ps_events
       ps_history ps_clock].
  rewrite assign_speakers_spec.
  cbv [bind ret gets modify lift commit broadcast_progress load_transcript
       with_db with_job with_batch with_transcript with_tts_output
       with_events with_history with_clock
       ps_db ps_job ps_batch ps_transcript ps_tts_output ps_events
       ps_history ps_clock].
  eexists _, _. split; [reflexivity|].
  cbn [ps_db ps_events]. rewrite flush_transcripts.
  cbn [ps_transcript ps_db t_job_id set_speaker_count set_segments].
  rewrite Hid. split; [apply lookup_insert_eq|].
  cbn [segments speaker_count full_text word_count set_speaker_count
       set_segments].
  rewrite !map_map. split_and!; try done.
  by rewrite last_snoc.
Qed.

(** The run of the example engines on the stored transcript of a job:
    the two segments lie in the turns of two speakers. *)
Definition turns : list DSeg :=
  [ {| d_start := 0; d_end := 2; d_speaker := "S1" |};
    {| d_start := 2; d_end := 5; d_speaker := "S2" |} ].
Definition two_voices : Engines :=
  {| extract_audio := Py.Ret "/uploads/a.wav"%string;
     whisper_load := None; whisper_segments := [];
     whisper_iter_error := None; whisper_language := Some "en"%string;
     whisper_duration := 5; write_outputs := None;
     diar_audio := Py.Ret "/uploads/a.wav"%string;
     pyannote := Py.Ret turns;
     tts_mkdir := None; xtts := Py.Raise "unused";
     ffmpeg_concat := None; wave_info := None |}.
Definition heard : Transcript :=
  {| t_job_id := "j1"; t_language := Some "en"%string; t_duration := 5;
     word_count := 2; speaker_count := None; full_text := "hello again";
     segments :=
       [ {| segment_index := 0; start_time := 0; end_time := 2;
            text := "hello"; speaker := None |};
         {| segment_index := 1; start_time := 1; end_time := 5;
            text := "again"; speaker := None |} ] |}.
Definition diarizing_session : PState :=
  with_transcript (Some heard) (open_session ready_db [] 0 a_job).

Lemma run_diarization_stores_speakers_witness :
  exists s' t',
    run_diarization two_voices diarizing_session = (Py.Ret (), s') /\
    transcripts (ps_db s') !! "j1"%string = Some t' /\
    map speaker (segments t') = [Some "S1"%string; Some "S2"%string] /\
    speaker_count t' = Some 2%nat.
Proof.
  destruct (run_diarization_stores_speakers two_voices diarizing_session
              turns "/uploads/a.wav" (a_model "d" "diarization") heard)
    as (s' & t' & Hrun & Hrow & Hseg & _ & _ & _ & Hcount & _).
  - by vm_compute.
  - done.
  - done.
  - done.
  - done.
  - done.
  - exists s', t'. split_and!; [exact Hrun|exact Hrow| |].
    + rewrite Hseg. by vm_compute.
    + rewrite Hcount. by vm_compute.
Defined.

End StoredSpeakers.
